(** * SnowFS object database ([Odb]): a shallow embedding

    The development follows [src/odb.ts] and [src/reference.ts]: the file
    system the object database lives on is a finite map from paths to
    entries, every [fs-extra] call of the source is an action of a small
    state-and-error monad that also records the call in a log, and the
    methods of [Odb] are written in that monad call by call, in the order
    of the promise chains of the source. *)

From Stdlib Require Import String Ascii ZArith List Lia.
From Stdlib Require Import DecimalString DecimalFacts DecimalN.
From stdpp Require Import base option list gmap strings fin_maps.


Set Warnings "-register-all".
Open Scope Z_scope.

(** ** Paths

    A path is the list of its segments below the file system root.
    [join] is [path.join] of Node on POSIX: the added pieces are split at
    the separator, empty and ["."] segments vanish and [".."] steps up. *)

Abbreviation path := (list string).

Definition sep : ascii := "/"%char.

Fixpoint split_sep_go (cur : string) (s : string) : list string :=
  match s with
  | EmptyString => [cur]
  | String c s' =>
      if Ascii.eqb c sep then cur :: split_sep_go "" s'
      else split_sep_go (cur +:+ String c "") s'
  end.

Definition split_sep (s : string) : list string := split_sep_go "" s.

Definition join_seg (p : path) (seg : string) : path :=
  if String.eqb seg "" then p
  else if String.eqb seg "." then p
  else if String.eqb seg ".." then removelast p
  else p ++ [seg].

Definition join (base : path) (segs : list string) : path :=
  fold_left join_seg (flat_map split_sep segs) base.

Definition dirname (p : path) : path := removelast p.

(** [basename] of a path: its last segment. *)
Definition basename (p : path) : string := List.last p "".

(** [`${p}${ext}`]: the suffix lands on the last segment. *)
Definition add_suffix (p : path) (ext : string) : path :=
  match p with
  | [] => [ext]
  | _ => removelast p ++ [List.last p "" +:+ ext]
  end.

(** [path.relative(from, to)] on resolved paths: drop the common prefix,
    step up once per remaining segment of [from]. *)
Fixpoint relative (from to : path) : path :=
  match from, to with
  | a :: from', b :: to' =>
      if String.eqb a b then relative from' to'
      else repeat ".." (length from) ++ to
  | _, _ => repeat ".." (length from) ++ to
  end.

(** ** The file system *)

Inductive entry : Type :=
| File (content : string)
| Dir.

Global Instance entry_eq_dec : EqDecision entry.
Proof. solve_decision. Defined.

Abbreviation fs := (gmap (list string) entry).

Inductive errno : Type := ENOENT | EISDIR | ENOTDIR | EEXIST | EINVAL.

Inductive error : Type :=
| SysError (code : errno) (p : path)   (* a rejected fs call *)
| SyntaxError                          (* thrown by JSON.parse *)
| TypeError                            (* property access on null, call of a non-function *)
| Error (msg : string)                 (* throw new Error(msg) *)
| Unmodelled.                          (* no error of the program: see [JSON_parse] *)

Inductive result (A : Type) : Type :=
| Ok (a : A)
| Err (e : error).
Arguments Ok {A} a.
Arguments Err {A} e.

Definition fs_exists (m : fs) (p : path) : bool :=
  match p with
  | [] => true
  | _ => match m !! p with Some _ => true | None => false end
  end.

Definition fs_is_dir (m : fs) (p : path) : bool :=
  match p with
  | [] => true
  | _ => match m !! p with Some Dir => true | _ => false end
  end.

Definition fs_readFile (m : fs) (p : path) : result string :=
  match p with
  | [] => Err (SysError EISDIR p)
  | _ => match m !! p with
         | Some (File c) => Ok c
         | Some Dir => Err (SysError EISDIR p)
         | None => Err (SysError ENOENT p)
         end
  end.

(** [fs.writeFile] with flag ['w']: the file is created or truncated; the
    directory that holds it has to exist. *)
Definition fs_writeFile (p : path) (c : string) (m : fs) : result fs :=
  match p with
  | [] => Err (SysError EISDIR p)
  | _ => match m !! p with
         | Some Dir => Err (SysError EISDIR p)
         | _ => if fs_is_dir m (dirname p) then Ok (<[p := File c]> m)
                else Err (SysError ENOENT p)
         end
  end.

(** [fse.ensureDir]: [mkdir -p]. *)
Fixpoint mkdirp_from (pre : path) (todo : list string) (m : fs) : result fs :=
  match todo with
  | [] => Ok m
  | s :: rest =>
      let p := pre ++ [s] in
      match m !! p with
      | Some (File _) => Err (SysError ENOTDIR p)
      | Some Dir => mkdirp_from p rest m
      | None => mkdirp_from p rest (<[p := Dir]> m)
      end
  end.

Definition fs_ensureDir (p : path) (m : fs) : result fs := mkdirp_from [] p m.

(** [fse.remove]: [rm -rf], silent when nothing is there. *)
Definition fs_remove (p : path) (m : fs) : fs :=
  filter (λ kv : path * entry, ¬ (p `prefix_of` kv.1)) m.

(** [fs.unlink]: files only. *)
Definition fs_unlink (p : path) (m : fs) : result fs :=
  match p with
  | [] => Err (SysError EISDIR p)
  | _ => match m !! p with
         | Some (File _) => Ok (delete p m)
         | Some Dir => Err (SysError EISDIR p)
         | None => Err (SysError ENOENT p)
         end
  end.

Fixpoint drop_prefix (pre k : path) : option path :=
  match pre, k with
  | [], _ => Some k
  | a :: pre', b :: k' => if String.eqb a b then drop_prefix pre' k' else None
  | _ :: _, [] => None
  end.

Definition rekey (src dst k : path) : path :=
  match drop_prefix src k with
  | Some rest => dst ++ rest
  | None => k
  end.

Definition fs_rename_tree (src dst : path) (m : fs) : fs :=
  list_to_map (map (λ kv : path * entry, (rekey src dst kv.1, kv.2)) (map_to_list m)).

(** [fse.move(src, dst, {overwrite: true})]: the directory of [dst] is
    made, whatever is at [dst] is removed, then [src] is renamed. *)
Definition fs_move (src dst : path) (m : fs) : result fs :=
  if decide (src = dst) then Err (Error "Source and destination must not be the same.")
  else
    match src with
    | [] => Err (SysError EINVAL src)
    | _ =>
        match m !! src with
        | None => Err (SysError ENOENT src)
        | Some e =>
            match fs_ensureDir (dirname dst) m with
            | Err x => Err x
            | Ok m1 =>
                let m2 := fs_remove dst m1 in
                match e with
                | File c => Ok (<[dst := File c]> (delete src m2))
                | Dir => Ok (fs_rename_tree src dst m2)
                end
            end
        end
    end.

(** The files directly inside a directory. *)
Definition fs_files_in (dir : path) (m : fs) : list path :=
  omap (λ kv : path * entry,
          match kv.2 with
          | File _ => if decide (kv.1 ≠ [] ∧ dirname kv.1 = dir) then Some kv.1 else None
          | Dir => None
          end) (map_to_list m).

(** ** The monad of the promise chains

    A world is the file system together with the log of the calls made so
    far.  An action returns the new world and either a value or the error
    the promise was rejected with; after a rejection the remaining [then]
    steps are skipped and the world stays as it is. *)

Inductive event : Type :=
| EvPathExists (p : path)
| EvReadFile (p : path)
| EvWriteFile (p : path) (content : string)
| EvEnsureDir (p : path)
| EvRemove (p : path)
| EvUnlink (p : path)
| EvMove (src dst : path)
| EvCopyFile (src dst : path)
| EvZipFile (src dst : path)
| EvHashFile (p : path)
| EvWalk (p : path)
| EvConsole (msg : string).

Record world : Type := World { w_fs : fs; w_log : list event }.

Definition IO (A : Type) : Type := world → world * result A.

Definition ret {A} (a : A) : IO A := λ w, (w, Ok a).
Definition throw {A} (e : error) : IO A := λ w, (w, Err e).

Definition bind {A B} (m : IO A) (k : A → IO B) : IO B :=
  λ w, match m w with
       | (w', Ok a) => k a w'
       | (w', Err e) => (w', Err e)
       end.

(** [promise.catch(handler)] *)
Definition catch {A} (m : IO A) (h : error → IO A) : IO A :=
  λ w, match m w with
       | (w', Ok a) => (w', Ok a)
       | (w', Err e) => h e w'
       end.

Declare Scope io_scope.
Delimit Scope io_scope with io.
Notation "'let*' x ':=' m 'in' k" := (bind m (λ x, k))
  (at level 10, x pattern, m at level 100, k at level 200) : io_scope.
Notation "m ';;' k" := (bind m (λ _, k))
  (at level 100, k at level 200, right associativity) : io_scope.
Open Scope io_scope.

Definition emit (e : event) : IO unit :=
  λ w, (World (w_fs w) (w_log w ++ [e]), Ok tt).

(** A call that only looks at the file system. *)
Definition observe {A} (f : fs → result A) : IO A := λ w, (w, f (w_fs w)).

(** A call that changes the file system when it succeeds. *)
Definition update (f : fs → result fs) : IO unit :=
  λ w, match f (w_fs w) with
       | Ok m' => (World m' (w_log w), Ok tt)
       | Err e => (w, Err e)
       end.

Module fse.
Definition pathExists (p : path) : IO bool :=
    emit (EvPathExists p) ;; observe (λ m, Ok (fs_exists m p)).
Definition readFile (p : path) : IO string :=
    emit (EvReadFile p) ;; observe (λ m, fs_readFile m p).
Definition writeFile (p : path) (c : string) : IO unit :=
    emit (EvWriteFile p c) ;; update (fs_writeFile p c).
Definition ensureDir (p : path) : IO unit :=
    emit (EvEnsureDir p) ;; update (fs_ensureDir p).
Definition remove (p : path) : IO unit :=
    emit (EvRemove p) ;; update (λ m, Ok (fs_remove p m)).
Definition unlink (p : path) : IO unit :=
    emit (EvUnlink p) ;; update (fs_unlink p).
Definition move (src dst : path) : IO unit :=
    emit (EvMove src dst) ;; update (fs_move src dst).
End fse.

Definition console (msg : string) : IO unit := emit (EvConsole msg).

(** ** JSON

    The values the store writes and reads back.  An object keeps its
    properties in the order of the text.  A text is held as the bytes of
    its UTF-8 encoding, which is what a file holds and what
    [buf.toString()] decodes.  A number is an integer, which is all the
    store itself ever writes (version numbers, epoch milliseconds).

    [JSON.parse] can return values that are no term of [json]: a number
    that is not an integer, or one written with a fraction or an exponent
    that lies beyond 2^53, and a string with a lone surrogate.  On a text
    that holds one of these [JSON_parse] answers [Unmodelled], which is no
    outcome of the program, and no theorem draws a conclusion from that
    answer.  An integer written without fraction or exponent is read as
    that integer, of any size; JavaScript holds the nearest double, which
    is the same number up to 2^53.  Negative zero is read as zero: the
    program cannot tell them apart. *)

Inductive json : Type :=
| JNull
| JBool (b : bool)
| JNum (n : Z)
| JStr (s : string)
| JArr (items : list json)
| JObj (props : list (string * json)).

Definition dquote : ascii := "034"%char.
Definition backslash : ascii := "092"%char.

Definition hex_digit (n : N) : ascii :=
  if (n <? 10)%N then ascii_of_N (48 + n) else ascii_of_N (87 + n).

(** What [JSON.stringify] writes for one character of a string. *)
Definition escape_char (c : ascii) : string :=
  if Ascii.eqb c dquote then String backslash (String dquote EmptyString)
  else if Ascii.eqb c backslash then String backslash (String backslash EmptyString)
  else if Ascii.eqb c "008" then String backslash "b"
  else if Ascii.eqb c "009" then String backslash "t"
  else if Ascii.eqb c "010" then String backslash "n"
  else if Ascii.eqb c "012" then String backslash "f"
  else if Ascii.eqb c "013" then String backslash "r"
  else if (N_of_ascii c <? 32)%N then
    String backslash
      (String "u" (String "0" (String "0"
         (String (hex_digit (N_of_ascii c / 16)) (String (hex_digit (N_of_ascii c mod 16)) EmptyString)))))
  else String c EmptyString.

Fixpoint escape (s : string) : string :=
  match s with
  | EmptyString => EmptyString
  | String c s' => escape_char c +:+ escape s'
  end.

Definition quote (s : string) : string :=
  String dquote (escape s +:+ String dquote EmptyString).

Definition print_N (n : N) : string := NilEmpty.string_of_uint (N.to_uint n).

(** [String(n)] for an integer. *)
Definition print_Z (z : Z) : string :=
  if z <? 0 then String "-" (print_N (Z.abs_N z)) else print_N (Z.to_N z).

(** [Array.prototype.join] *)
Fixpoint join_with (sepr : string) (l : list string) : string :=
  match l with
  | [] => EmptyString
  | [x] => x
  | x :: l' => x +:+ sepr +:+ join_with sepr l'
  end.

Fixpoint stringify (v : json) : string :=
  match v with
  | JNull => "null"
  | JBool true => "true"
  | JBool false => "false"
  | JNum n => print_Z n
  | JStr s => quote s
  | JArr l => "[" +:+ join_with "," (map stringify l) +:+ "]"
  | JObj ps =>
      "{" +:+ join_with "," (map (λ kv, quote kv.1 +:+ ":" +:+ stringify kv.2) ps) +:+ "}"
  end.

Definition is_ws (c : ascii) : bool :=
  Ascii.eqb c " " || Ascii.eqb c "009" || Ascii.eqb c "010" || Ascii.eqb c "013".

Fixpoint skip_ws (s : string) : string :=
  match s with
  | EmptyString => EmptyString
  | String c s' => if is_ws c then skip_ws s' else s
  end.

(** [strip lit s]: [s] without its prefix [lit]. *)
Fixpoint strip (lit s : string) : option string :=
  match lit, s with
  | EmptyString, _ => Some s
  | String a lit', String b s' => if Ascii.eqb a b then strip lit' s' else None
  | String _ _, EmptyString => None
  end.

Definition hex_val (c : ascii) : option N :=
  let n := N_of_ascii c in
  if (48 <=? n)%N && (n <=? 57)%N then Some (n - 48)%N
  else if (97 <=? n)%N && (n <=? 102)%N then Some (n - 87)%N
  else if (65 <=? n)%N && (n <=? 70)%N then Some (n - 55)%N
  else None.

(** The code unit of a [\uXXXX] escape. *)
Definition code_unit (h1 h2 h3 h4 : ascii) : option N :=
  a ← hex_val h1; b ← hex_val h2; c ← hex_val h3; d ← hex_val h4;
  Some (((a * 16 + b) * 16 + c) * 16 + d)%N.

(** The UTF-8 encoding of a code point. *)
Definition utf8_encode (cp : N) : string :=
  if (cp <? 128)%N then String (ascii_of_N cp) EmptyString
  else if (cp <? 2048)%N then
    String (ascii_of_N (192 + cp / 64))
      (String (ascii_of_N (128 + cp mod 64)) EmptyString)
  else if (cp <? 65536)%N then
    String (ascii_of_N (224 + cp / 4096))
      (String (ascii_of_N (128 + (cp / 64) mod 64))
         (String (ascii_of_N (128 + cp mod 64)) EmptyString))
  else
    String (ascii_of_N (240 + cp / 262144))
      (String (ascii_of_N (128 + (cp / 4096) mod 64))
         (String (ascii_of_N (128 + (cp / 64) mod 64))
            (String (ascii_of_N (128 + cp mod 64)) EmptyString))).

Definition is_high_surrogate (cu : N) : bool := (55296 <=? cu)%N && (cu <? 56320)%N.
Definition is_low_surrogate (cu : N) : bool := (56320 <=? cu)%N && (cu <? 57344)%N.

Definition simple_escape (e : ascii) : option ascii :=
  if Ascii.eqb e dquote then Some dquote
  else if Ascii.eqb e backslash then Some backslash
  else if Ascii.eqb e "/" then Some "/"%char
  else if Ascii.eqb e "b" then Some "008"%char
  else if Ascii.eqb e "f" then Some "012"%char
  else if Ascii.eqb e "n" then Some "010"%char
  else if Ascii.eqb e "r" then Some "013"%char
  else if Ascii.eqb e "t" then Some "009"%char
  else None.

(** The rest of a string literal, after its opening quote. *)
Fixpoint parse_string_body (s : string) : option (string * string) :=
  match s with
  | EmptyString => None
  | String c s1 =>
      if Ascii.eqb c dquote then Some (EmptyString, s1)
      else if Ascii.eqb c backslash then
        match s1 with
        | EmptyString => None
        | String e s2 =>
            if Ascii.eqb e "u" then
              match s2 with
              | String h1 (String h2 (String h3 (String h4 s3))) =>
                  cu ← code_unit h1 h2 h3 h4;
                  if is_high_surrogate cu then
                    (* a pair of escapes is one code point; a lone surrogate
                       has no UTF-8 encoding *)
                    match s3 with
                    | String b (String u (String g1 (String g2 (String g3 (String g4 s4))))) =>
                        if Ascii.eqb b backslash && Ascii.eqb u "u" then
                          lo ← code_unit g1 g2 g3 g4;
                          if is_low_surrogate lo then
                            '(str, r) ← parse_string_body s4;
                            Some (utf8_encode (65536 + (cu - 55296) * 1024 + (lo - 56320))
                                    +:+ str, r)
                          else None
                        else None
                    | _ => None
                    end
                  else if is_low_surrogate cu then None
                  else '(str, r) ← parse_string_body s3; Some (utf8_encode cu +:+ str, r)
              | _ => None
              end
            else
              c' ← simple_escape e;
              '(str, r) ← parse_string_body s2;
              Some (String c' str, r)
        end
      else if (N_of_ascii c <? 32)%N then None
      else '(str, r) ← parse_string_body s1; Some (String c str, r)
  end.

Definition is_digit (c : ascii) : bool :=
  (48 <=? N_of_ascii c)%N && (N_of_ascii c <=? 57)%N.

Fixpoint span_digits (s : string) : string * string :=
  match s with
  | EmptyString => (EmptyString, EmptyString)
  | String c s' =>
      if is_digit c then (String c (span_digits s').1, (span_digits s').2)
      else (EmptyString, s)
  end.

Definition frac_or_exp (r : string) : bool :=
  match r with
  | String c _ => Ascii.eqb c "." || Ascii.eqb c "e" || Ascii.eqb c "E"
  | EmptyString => false
  end.

(** The fraction of a number literal: a point and one digit or more. *)
Definition scan_frac (r : string) : option (string * string) :=
  match r with
  | String c r1 =>
      if Ascii.eqb c "." then
        match (span_digits r1).1 with
        | EmptyString => None
        | String _ _ as fd => Some (fd, (span_digits r1).2)
        end
      else Some (EmptyString, r)
  | EmptyString => Some (EmptyString, r)
  end.

(** The exponent of a number literal. *)
Definition scan_exp (r : string) : option (Z * string) :=
  match r with
  | String c r1 =>
      if Ascii.eqb c "e" || Ascii.eqb c "E" then
        let signed :=
          match r1 with
          | String sg r2 =>
              if Ascii.eqb sg "-" then (true, r2)
              else if Ascii.eqb sg "+" then (false, r2) else (false, r1)
          | EmptyString => (false, r1)
          end in
        match (span_digits signed.2).1 with
        | EmptyString => None
        | String _ _ as ed =>
            d ← NilEmpty.uint_of_string ed;
            Some (if signed.1 : bool then - Z.of_N (N.of_uint d) else Z.of_N (N.of_uint d),
                  (span_digits signed.2).2)
        end
      else Some (0, r)
  | EmptyString => Some (0, r)
  end.

(** Up to here every integer is a double. *)
Definition max_safe : N := 9007199254740992.

(** [m * 10^e], for [m] written with [digits] digits, when that is an
    integer of at most 2^53. *)
Definition safe_integer (m : N) (digits : nat) (e : Z) : option N :=
  if (m =? 0)%N then Some 0%N
  else if 0 <=? e then
    if e <=? 16 then
      if (m * 10 ^ Z.to_N e <=? max_safe)%N then Some (m * 10 ^ Z.to_N e)%N else None
    else None
  else if Z.of_nat digits <=? - e then None
  else if (m mod 10 ^ Z.to_N (- e) =? 0)%N then
    if (m / 10 ^ Z.to_N (- e) <=? max_safe)%N then Some (m / 10 ^ Z.to_N (- e))%N else None
  else None.

(** A number written with a fraction or an exponent, after the digits
    [ds] of its integer part. *)
Definition parse_decimal (ds r : string) : option (N * string) :=
  '(fd, r1) ← scan_frac r;
  '(e, r2) ← scan_exp r1;
  d ← NilEmpty.uint_of_string (ds +:+ fd);
  n ← safe_integer (N.of_uint d) (String.length (ds +:+ fd)) (e - Z.of_nat (String.length fd));
  Some (n, r2).

Definition parse_nat (s : string) : option (N * string) :=
  let ds := (span_digits s).1 in
  let r := (span_digits s).2 in
  match ds with
  | EmptyString => None
  | String c (String _ _ as ds') =>
      if Ascii.eqb c "0" then None
      else if frac_or_exp r then parse_decimal ds r
      else d ← NilEmpty.uint_of_string ds; Some (N.of_uint d, r)
  | _ => if frac_or_exp r then parse_decimal ds r
         else d ← NilEmpty.uint_of_string ds; Some (N.of_uint d, r)
  end.

Definition parse_number (s : string) : option (Z * string) :=
  match s with
  | String c s' =>
      if Ascii.eqb c "-" then '(n, r) ← parse_nat s'; Some (- Z.of_N n, r)
      else '(n, r) ← parse_nat s; Some (Z.of_N n, r)
  | EmptyString => None
  end.

Fixpoint parse_value (fuel : nat) (s : string) : option (json * string) :=
  match fuel with
  | O => None
  | S f =>
      match skip_ws s with
      | EmptyString => None
      | String c r =>
          if Ascii.eqb c "n" then r' ← strip "ull" r; Some (JNull, r')
          else if Ascii.eqb c "t" then r' ← strip "rue" r; Some (JBool true, r')
          else if Ascii.eqb c "f" then r' ← strip "alse" r; Some (JBool false, r')
          else if Ascii.eqb c dquote then
            '(str, r') ← parse_string_body r; Some (JStr str, r')
          else if Ascii.eqb c "[" then
            match skip_ws r with
            | String c1 r1 =>
                if Ascii.eqb c1 "]" then Some (JArr [], r1)
                else '(l, r') ← parse_elems f r; Some (JArr l, r')
            | EmptyString => None
            end
          else if Ascii.eqb c "{" then
            match skip_ws r with
            | String c1 r1 =>
                if Ascii.eqb c1 "}" then Some (JObj [], r1)
                else '(l, r') ← parse_members f r; Some (JObj l, r')
            | EmptyString => None
            end
          else '(n, r') ← parse_number (String c r); Some (JNum n, r')
      end
  end
with parse_elems (fuel : nat) (s : string) : option (list json * string) :=
  match fuel with
  | O => None
  | S f =>
      '(v, r) ← parse_value f s;
      match skip_ws r with
      | String c r1 =>
          if Ascii.eqb c "," then '(l, r2) ← parse_elems f r1; Some (v :: l, r2)
          else if Ascii.eqb c "]" then Some ([v], r1)
          else None
      | EmptyString => None
      end
  end
with parse_members (fuel : nat) (s : string) : option (list (string * json) * string) :=
  match fuel with
  | O => None
  | S f =>
      match skip_ws s with
      | String c r =>
          if Ascii.eqb c dquote then
            '(k, r1) ← parse_string_body r;
            match skip_ws r1 with
            | String c2 r2 =>
                if Ascii.eqb c2 ":" then
                  '(v, r3) ← parse_value f r2;
                  match skip_ws r3 with
                  | String c4 r4 =>
                      if Ascii.eqb c4 "," then
                        '(l, r5) ← parse_members f r4; Some ((k, v) :: l, r5)
                      else if Ascii.eqb c4 "}" then Some ([(k, v)], r4)
                      else None
                  | EmptyString => None
                  end
                else None
            | EmptyString => None
            end
          else None
      | EmptyString => None
      end
  end.

(** The grammar of JSON, without the values: what is left of a text
    after one string, number or value. *)
Fixpoint valid_string_body (s : string) : option string :=
  match s with
  | EmptyString => None
  | String c s1 =>
      if Ascii.eqb c dquote then Some s1
      else if Ascii.eqb c backslash then
        match s1 with
        | EmptyString => None
        | String e s2 =>
            if Ascii.eqb e "u" then
              match s2 with
              | String h1 (String h2 (String h3 (String h4 s3))) =>
                  _ ← code_unit h1 h2 h3 h4; valid_string_body s3
              | _ => None
              end
            else _ ← simple_escape e; valid_string_body s2
        end
      else if (N_of_ascii c <? 32)%N then None
      else valid_string_body s1
  end.

Definition valid_number (s : string) : option string :=
  let s1 := match s with
            | String c r => if Ascii.eqb c "-" then r else s
            | EmptyString => s
            end in
  match s1 with
  | String c r =>
      if is_digit c then
        let r0 := if Ascii.eqb c "0" then r else (span_digits r).2 in
        '(_, r1) ← scan_frac r0; '(_, r2) ← scan_exp r1; Some r2
      else None
  | EmptyString => None
  end.

Fixpoint valid_value (fuel : nat) (s : string) : option string :=
  match fuel with
  | O => None
  | S f =>
      match skip_ws s with
      | EmptyString => None
      | String c r =>
          if Ascii.eqb c "n" then strip "ull" r
          else if Ascii.eqb c "t" then strip "rue" r
          else if Ascii.eqb c "f" then strip "alse" r
          else if Ascii.eqb c dquote then valid_string_body r
          else if Ascii.eqb c "[" then
            match skip_ws r with
            | String c1 r1 => if Ascii.eqb c1 "]" then Some r1 else valid_elems f r
            | EmptyString => None
            end
          else if Ascii.eqb c "{" then
            match skip_ws r with
            | String c1 r1 => if Ascii.eqb c1 "}" then Some r1 else valid_members f r
            | EmptyString => None
            end
          else valid_number (String c r)
      end
  end
with valid_elems (fuel : nat) (s : string) : option string :=
  match fuel with
  | O => None
  | S f =>
      r ← valid_value f s;
      match skip_ws r with
      | String c r1 =>
          if Ascii.eqb c "," then valid_elems f r1
          else if Ascii.eqb c "]" then Some r1
          else None
      | EmptyString => None
      end
  end
with valid_members (fuel : nat) (s : string) : option string :=
  match fuel with
  | O => None
  | S f =>
      match skip_ws s with
      | String c r =>
          if Ascii.eqb c dquote then
            r1 ← valid_string_body r;
            match skip_ws r1 with
            | String c2 r2 =>
                if Ascii.eqb c2 ":" then
                  r3 ← valid_value f r2;
                  match skip_ws r3 with
                  | String c4 r4 =>
                      if Ascii.eqb c4 "," then valid_members f r4
                      else if Ascii.eqb c4 "}" then Some r4
                      else None
                  | EmptyString => None
                  end
                else None
            | EmptyString => None
            end
          else None
      | EmptyString => None
      end
  end.

Definition valid_json (s : string) : bool :=
  match valid_value (2 * String.length s + 2) s with
  | Some r => match skip_ws r with EmptyString => true | String _ _ => false end
  | None => false
  end.

(** [JSON.parse]: one value, with nothing but white space after it.  A
    text that is not JSON is a SyntaxError; a text that is JSON and whose
    value is no term of [json] is [Unmodelled]. *)
Definition JSON_parse (s : string) : result json :=
  match parse_value (2 * String.length s + 2) s with
  | Some (v, r) =>
      match skip_ws r with
      | EmptyString => Ok v
      | String _ _ => if valid_json s then Err Unmodelled else Err SyntaxError
      end
  | None => if valid_json s then Err Unmodelled else Err SyntaxError
  end.

(** Property access [v.k] and truthiness, as JavaScript defines them on
    parsed values.  A repeated key of the text keeps its last value. *)

Fixpoint lookup_prop (k : string) (ps : list (string * json)) : option json :=
  match ps with
  | [] => None
  | (k', v) :: ps' =>
      match lookup_prop k ps' with
      | Some v' => Some v'
      | None => if String.eqb k k' then Some v else None
      end
  end.

(** [None] is [undefined]; reading a property of [null] throws. *)
Definition get_prop (v : json) (k : string) : result (option json) :=
  match v with
  | JNull => Err TypeError
  | JObj ps => Ok (lookup_prop k ps)
  | _ => Ok None
  end.

Definition truthy (v : json) : bool :=
  match v with
  | JNull => false
  | JBool b => b
  | JNum n => negb (n =? 0)
  | JStr s => negb (String.eqb s EmptyString)
  | JArr _ | JObj _ => true
  end.

Definition truthy_opt (v : option json) : bool :=
  match v with Some x => truthy x | None => false end.

(** ** Where the model reads what the program reads

    [buf.toString()] decodes the bytes of a file as UTF-8 and puts
    U+FFFD where they are ill-formed; on well-formed bytes, the only ones
    a text of the model stands for, it changes nothing. *)
Definition continuation (c : ascii) : bool :=
  (128 <=? N_of_ascii c)%N && (N_of_ascii c <=? 191)%N.

Definition between (lo hi : N) (c : ascii) : bool :=
  (lo <=? N_of_ascii c)%N && (N_of_ascii c <=? hi)%N.

(** Well-formed UTF-8, as the Unicode standard tabulates it. *)
Fixpoint utf8_valid (s : string) : bool :=
  match s with
  | EmptyString => true
  | String c s1 =>
      let n := N_of_ascii c in
      if (n <? 128)%N then utf8_valid s1
      else if between 194 223 c then
        match s1 with
        | String c1 s2 => continuation c1 && utf8_valid s2
        | _ => false
        end
      else if between 224 239 c then
        match s1 with
        | String c1 (String c2 s3) =>
            (if (n =? 224)%N then between 160 191 c1
             else if (n =? 237)%N then between 128 159 c1
             else continuation c1)
            && continuation c2 && utf8_valid s3
        | _ => false
        end
      else if between 240 244 c then
        match s1 with
        | String c1 (String c2 (String c3 s4)) =>
            (if (n =? 240)%N then between 144 191 c1
             else if (n =? 244)%N then between 128 143 c1
             else continuation c1)
            && continuation c2 && continuation c3 && utf8_valid s4
        | _ => false
        end
      else false
  end.

(** Values whose numbers are doubles for certain. *)
Fixpoint safe_json (v : json) : bool :=
  match v with
  | JNum n => Z.abs n <=? Z.of_N max_safe
  | JArr l => forallb safe_json l
  | JObj ps => forallb (λ kv, safe_json kv.2) ps
  | _ => true
  end.

(** The content of a file on which [JSON_parse] gives what
    [JSON.parse(buf.toString())] gives: well-formed UTF-8 that either is
    not JSON or is JSON with integers of at most 2^53. *)
Definition within_model (content : string) : bool :=
  utf8_valid content &&
  match JSON_parse content with
  | Ok v => safe_json v
  | Err SyntaxError => true
  | Err _ => false
  end.

(** ** The data model *)

(** Modelled from the spec: the classes [TreeDir] and [TreeFile] of
    [src/treedir.ts], which is not among the sources.  A file node has a
    name and the content hash of its bytes, a directory node a name and
    its children in insertion order.  The back-reference to the parent is
    not owning and is left out: the parent of a node is the directory
    whose children hold it. *)
Inductive tree : Type :=
| TreeFile (name : string) (hash : string)
| TreeDir (name : string) (children : list tree).

Fixpoint tree_json (t : tree) : json :=
  match t with
  | TreeFile name hash => JObj [("name"%string, JStr name); ("hash"%string, JStr hash)]
  | TreeDir name children =>
      JObj [("name"%string, JStr name); ("children"%string, JArr (map tree_json children))]
  end.

(** Modelled from the spec: [toString(true)] of a tree node, the
    recursive serialization of the node with its children in the order of
    the in-memory sequence; only a directory carries a children field. *)
Definition tree_toString (t : tree) : string := stringify (tree_json t).

(** A JavaScript [Date]: a point in time in epoch milliseconds, or the
    invalid date. *)
Inductive jsdate : Type :=
| DateMs (ms : Z)
| InvalidDate.

Definition max_time : Z := 8640000000000000.

(** [date.getTime()] as a template literal prints it. *)
Definition print_time (d : jsdate) : string :=
  match d with
  | DateMs ms => print_Z ms
  | InvalidDate => "NaN"
  end.

Module Commit.
Record t : Type := mk {
    hash : string;
    message : string;
    date : jsdate;
    parent : list string;
    root : tree;
    tags : option (list string);
    userData : option json
  }.
End Commit.

(** Modelled from the spec: the part of [Repository] the object database
    reads, the metadata root ([commondir]), the working tree root and the
    compression flag. *)
Record RepositoryInitOptions : Type := {
  commondir : path;
  compress : bool
}.

Record Repository : Type := {
  repoWorkDir : path;
  options : RepositoryInitOptions
}.

Definition Repository_commondir (r : Repository) : path := commondir (options r).

(** [src/reference.ts] *)
Module Reference.
Record t : Type := mk {
    hash : option string;
    userData : option json;
    refName : string;
    repo : Repository;
    start : option string
  }.

  (** [c.userData ?? {}] and the like: [null] and [undefined] give way. *)
Definition nullish_or (v : option json) (d : json) : json :=
    match v with
    | None | Some JNull => d
    | Some x => x
    end.

Definition new (refName : string) (repo : Repository)
      (c_hash : option string) (c_start : option string) (c_userData : option json) : t :=
    {| hash := c_hash;
       userData := Some (nullish_or c_userData (JObj []));
       start := c_start;
       refName := refName;
       repo := repo |}.

Definition getName (r : t) : string := refName r.
Definition isDetached (r : t) : bool := String.eqb (refName r) "HEAD".
Definition target (r : t) : option string := hash r.
End Reference.

(** Truthiness of a string that may be [undefined]. *)
Definition truthy_str (s : option string) : bool :=
  match s with
  | Some x => negb (String.eqb x EmptyString)
  | None => false
  end.

(** A string that may be [undefined], inside a template literal. *)
Definition template_str (s : option string) : string :=
  match s with
  | Some x => x
  | None => "undefined"
  end.

(** [HashBlock] of [src/common.ts] *)
Record HashBlock : Type := {
  hb_start : Z;
  hb_end : Z;
  hb_hash : string
}.

Record IoContext : Type := {
  copyFile : path → path → IO unit
}.

Definition fs_copyFile (src dst : path) (m : fs) : result fs :=
  match fs_readFile m src with
  | Ok c => fs_writeFile dst c m
  | Err e => Err e
  end.

(** Modelled from the spec: the copy primitive of [src/io_context.ts],
    which copies the bytes of a file from a source path to a destination
    path. *)
Definition posix_io : IoContext :=
  {| copyFile := λ src dst, emit (EvCopyFile src dst) ;; update (fs_copyFile src dst) |}.

Definition lift {A} (r : result A) : IO A := λ w, (w, r).

(** [Promise.all] over calls that are all started before any of them
    settles: every call is made, the first rejection in the order of the
    list rejects the whole. *)
Fixpoint start_all {A} (ms : list (IO A)) : world → world * list (result A) :=
  match ms with
  | [] => λ w, (w, [])
  | m :: ms' => λ w, let '(w1, r) := m w in
                     let '(w2, rs) := start_all ms' w1 in (w2, r :: rs)
  end.

Fixpoint sequence {A} (rs : list (result A)) : result (list A) :=
  match rs with
  | [] => Ok []
  | Ok a :: rs' => match sequence rs' with Ok l => Ok (a :: l) | Err e => Err e end
  | Err e :: _ => Err e
  end.

Definition Promise_all {A} (ms : list (IO A)) : IO (list A) :=
  λ w, let '(w', rs) := start_all ms w in (w', sequence rs).

(** Modelled from the spec: [osWalk(dir, OSWALK.FILES)] of [src/io.ts],
    the walk that enumerates every file under a store root without
    descending. *)
Definition osWalk (dir : path) : IO (list path) :=
  emit (EvWalk dir) ;;
  observe (λ m, if fs_is_dir m dir then Ok (fs_files_in dir m)
                else Err (SysError ENOENT dir)).

(** ** What [readCommits] hands back

    The parsed record is re-typed in place, so a revived node keeps every
    property of its persisted form; the children of a directory are
    replaced by the revived children. *)

Inductive node : Type :=
| NArr (items : list node)
| NDir (props : list (string * json)) (children : list node)
| NFile (props : list (string * json)).

Definition remove_prop (k : string) (ps : list (string * json)) : list (string * json) :=
  filter (λ kv, negb (String.eqb k kv.1)) ps.

Fixpoint result_map {A B} (f : A → result B) (l : list A) : result (list B) :=
  match l with
  | [] => Ok []
  | a :: l' =>
      match f a with
      | Ok b => match result_map f l' with Ok bs => Ok (b :: bs) | Err e => Err e end
      | Err e => Err e
      end
  end.

Fixpoint depth (v : json) : nat :=
  match v with
  | JArr l => S (fold_right (λ x acc, Nat.max (depth x) acc) O l)
  | JObj ps => S (fold_right (λ kv acc, Nat.max (depth kv.2) acc) O ps)
  | _ => 1%nat
  end.

(** [visit] of [readCommits], with the recursion bounded by the nesting
    of the parsed value. *)
Fixpoint visit_go (fuel : nat) (obj : option json) : result node :=
  match fuel with
  | O => Err TypeError
  | S f =>
      match obj with
      | Some (JArr l) =>
          match result_map (λ c, visit_go f (Some c)) l with
          | Ok ns => Ok (NArr ns)
          | Err e => Err e
          end
      | Some (JObj ps) =>
          if truthy_opt (lookup_prop "children" ps) then
            match lookup_prop "children" ps with
            | Some (JArr l) =>
                match result_map (λ c, visit_go f (Some c)) l with
                | Ok ns => Ok (NDir (remove_prop "children" ps) ns)
                | Err e => Err e
                end
            | _ => Err TypeError      (* children.map is not a function *)
            end
          else Ok (NFile ps)
      | _ => Err TypeError            (* undefined, null or a primitive *)
      end
  end.

Definition visit (obj : option json) : result node :=
  visit_go (match obj with Some v => S (depth v) | None => 1%nat end) obj.

(** The typed view of a revived node: the tree it stands for. *)
Definition prop_string (k : string) (ps : list (string * json)) : option string :=
  match lookup_prop k ps with
  | Some (JStr s) => Some s
  | _ => None
  end.

Fixpoint node_tree (n : node) : option tree :=
  match n with
  | NArr _ => None
  | NFile ps =>
      name ← prop_string "name" ps; hash ← prop_string "hash" ps; Some (TreeFile name hash)
  | NDir ps children =>
      name ← prop_string "name" ps;
      cs ← (fix go (l : list node) : option (list tree) :=
              match l with
              | [] => Some []
              | c :: l' => t ← node_tree c; ts ← go l'; Some (t :: ts)
              end) children;
      Some (TreeDir name cs)
  end.

(** [new Date(v)] for the value of a parsed date field.  A number is
    clipped to the range of [Date]; [null] and the booleans convert to
    numbers.  The time of a text, an array or an object, which [Date]
    would have to parse, is left to [Date_convert]. *)
Definition new_Date (Date_convert : json → jsdate) (v : option json) : jsdate :=
  match v with
  | None => InvalidDate
  | Some JNull => DateMs 0
  | Some (JBool b) => DateMs (if b then 1 else 0)
  | Some (JNum n) => if (Z.abs n <=? max_time) then DateMs n else InvalidDate
  | Some x => Date_convert x
  end.

(** A commit as [readCommits] returns it: the parsed record with its date
    turned into a [Date] and its root revived. *)
Record RCommit : Type := {
  rc_props : list (string * json);
  rc_date : jsdate;
  rc_repo : Repository;
  rc_root : node
}.

(** ** The object database ([src/odb.ts]) *)

Definition defaultConfig : json :=
  JObj [("version"%string, JNum 2); ("filemode"%string, JBool false); ("symlinks"%string, JBool true)].

Record Odb : Type := {
  config : option json;
  repo : Repository
}.

(** [`"${s}"`]: quotes around the text as it is. *)
Definition raw_quote (s : string) : string :=
  String dquote (s +:+ String dquote EmptyString).

(** The line break and the indentation inside the template literal of
    [writeCommit]. *)
Definition nl_indent : string :=
  String "010" "                  ".

Definition parent_text (parent : list string) : string :=
  raw_quote (join_with (String dquote (String "," (String dquote EmptyString))) parent).

(** The writes of [commit.tags.forEach]. *)
Fixpoint tags_items (seperator : string) (tags : list string) : string :=
  match tags with
  | [] => EmptyString
  | tag :: tags' => seperator +:+ raw_quote tag +:+ tags_items ", " tags'
  end.

Definition tags_text (tags : option (list string)) : string :=
  match tags with
  | Some l => "," +:+ raw_quote "tags" +:+ ": [" +:+ tags_items " " l +:+ " ]"
  | None => EmptyString
  end.

Definition userData_text (userData : option json) : string :=
  match userData with
  | Some v => if truthy v then "," +:+ raw_quote "userData" +:+ ": " +:+ stringify v
              else EmptyString
  | None => EmptyString
  end.

(** Everything [writeCommit] writes to the stream, in order. *)
Definition commit_text (commit : Commit.t) : string :=
  "{" +:+
  (raw_quote "hash" +:+ ": " +:+ raw_quote (Commit.hash commit) +:+ "," +:+ nl_indent +:+
   raw_quote "message" +:+ ": " +:+ raw_quote (Commit.message commit) +:+ "," +:+ nl_indent +:+
   raw_quote "date" +:+ ": " +:+ print_time (Commit.date commit) +:+ "," +:+ nl_indent +:+
   raw_quote "parent" +:+ ": [" +:+ parent_text (Commit.parent commit) +:+ "], " +:+
   raw_quote "root" +:+ ":") +:+
  tree_toString (Commit.root commit) +:+
  tags_text (Commit.tags commit) +:+
  userData_text (Commit.userData commit) +:+
  "}".

Definition hblock_line (block : HashBlock) : string :=
  print_Z (hb_start block) +:+ ";" +:+ print_Z (hb_end block) +:+ ";" +:+ hb_hash block +:+ ";".

(** The body written for a reference by [writeReference]:
    [JSON.stringify] leaves out a property whose value is [undefined]. *)
Definition reference_json (ref : Reference.t) (hash : string) : json :=
  JObj ([("hash"%string, JStr hash)] ++
        (if truthy_str (Reference.start ref)
         then [("start"%string, JStr (template_str (Reference.start ref)))] else []) ++
        [("userData"%string, Reference.nullish_or (Reference.userData ref) (JObj []))]).

Section Odb.

  (** The collaborators that are not part of the sources.

      [sha256hex] is [crypto.createHash('sha256').update(s).digest('hex')].

      Modelled from the spec: [calculateFileHash] of [src/common.ts], the
      hasher that gives the content of a file its whole-file hash and,
      optionally, its ordered chunk records.

      Modelled from the spec: the codec behind [zipFile] of [src/io.ts];
      [deflate] is the compressed form of a content.

      [Date_convert] is the conversion [new Date] applies to a value that
      is neither a number, [null] nor a boolean. *)
Variable sha256hex : string → string.
Variable hasher : string → string * option (list HashBlock).
Variable deflate : string → string.
Variable Date_convert : json → jsdate.

Definition calculateFileHash (filepath : path) : IO (string * option (list HashBlock)) :=
    emit (EvHashFile filepath) ;;
    let* content := observe (λ m, fs_readFile m filepath) in
    ret (hasher content).

  (** Modelled from the spec: [zipFile(src, dst, {deleteSrc})] compresses
      the source into the destination and removes the source afterwards
      when asked to. *)
Definition fs_zipFile (src dst : path) (deleteSrc : bool) (m : fs) : result fs :=
    match fs_readFile m src with
    | Err e => Err e
    | Ok c =>
        match fs_ensureDir (dirname dst) m with
        | Err e => Err e
        | Ok m1 =>
            match fs_writeFile dst (deflate c) m1 with
            | Err e => Err e
            | Ok m2 => if deleteSrc then fs_unlink src m2 else Ok m2
            end
        end
    end.

Definition zipFile (src dst : path) (deleteSrc : bool) : IO unit :=
    emit (EvZipFile src dst) ;; update (fs_zipFile src dst deleteSrc).

  (** Where the source reads a file as text it calls [buf.toString()],
      which decodes UTF-8.  A text being held as its UTF-8 bytes, the
      content of the file is taken as it is; that is what the source
      holds when the content is well-formed ([utf8_valid]). *)
Definition open (repo : Repository) : IO Odb :=
    let* buf := fse.readFile (join (Repository_commondir repo) ["config"%string]) in
    let* cfg := lift (JSON_parse buf) in
    let* version := lift (get_prop cfg "version") in
    match version with
    | Some (JNum 1) =>
        throw (Error ("repository version " +:+ print_Z 1 +:+ " is not supported"))
    | _ => ret {| config := Some cfg; repo := repo |}
    end.

Definition create (repo : Repository) (options : RepositoryInitOptions) : IO Odb :=
    let* exists_ := fse.pathExists (commondir options) in
    (if exists_ : bool then throw (Error "directory already exists")
     else fse.ensureDir (commondir options)) ;;
    fse.ensureDir (join (commondir options) ["objects"%string]) ;;
    fse.ensureDir (join (commondir options) ["versions"%string]) ;;
    fse.ensureDir (join (commondir options) ["hooks"%string]) ;;
    fse.ensureDir (join (commondir options) ["refs"%string]) ;;
    fse.writeFile (join (commondir options) ["config"%string]) (stringify defaultConfig) ;;
    ret {| config := Some defaultConfig; repo := repo |}.

Variable odb : Odb.

Definition odb_commondir : path := commondir (options (repo odb)).

  (** The map callback of [readCommits]. *)
Definition revive (commit : json) : result RCommit :=
    match commit with
    | JObj ps =>
        let date := new_Date Date_convert (lookup_prop "date" ps) in
        match visit (lookup_prop "root" ps) with
        | Ok root => Ok {| rc_props := ps; rc_date := date; rc_repo := repo odb; rc_root := root |}
        | Err e => Err e
        end
    | _ => Err TypeError
    end.

Definition readCommits : IO (list RCommit) :=
    let objectsDir := join odb_commondir ["versions"%string] in
    let* value := osWalk objectsDir in
    let* commits :=
      Promise_all (map (λ ref, let* buf := fse.readFile ref in lift (JSON_parse buf)) value) in
    lift (result_map revive commits).

Definition deleteHeadReference (ref : Reference.t) : IO unit :=
    let refsDir := join odb_commondir ["refs"%string] in
    fse.unlink (join refsDir [Reference.getName ref]).

Definition writeHeadReference (head : Reference.t) : IO unit :=
    let refsDir := odb_commondir in
    if String.eqb (Reference.getName head) "HEAD" then
      match Reference.hash head with
      | Some h => fse.writeFile (join refsDir ["HEAD"%string]) h
      | None => throw TypeError
      end
    else fse.writeFile (join refsDir ["HEAD"%string]) (Reference.getName head).

Definition readHeadReference : IO (option string) :=
    let refsDir := odb_commondir in
    catch (let* buf := fse.readFile (join refsDir ["HEAD"%string]) in ret (Some buf))
          (λ _, console "No HEAD found" ;; ret None).

Definition getObjectPath (file_hash : string) : path :=
    let objects := join odb_commondir ["objects"%string] in
    join objects [substring 0 2 file_hash; substring 2 2 file_hash; file_hash].

Definition writeReference (ref : Reference.t) : IO unit :=
    let refsDir := join odb_commondir ["refs"%string] in
    if Reference.isDetached ref then
      console "Was about to write HEAD ref to disk" ;; ret tt
    else if negb (truthy_str (Reference.hash ref)) then
      throw (Error ("hash value of ref is " +:+ template_str (Reference.hash ref)))
    else
      let refPath := join refsDir [Reference.getName ref] in
      fse.writeFile refPath
        (stringify (reference_json ref (template_str (Reference.hash ref)))).

  (** The stream is opened with flag ['w'] and receives the pieces of
      [commit_text] one after the other. *)
Definition writeCommit (commit : Commit.t) : IO unit :=
    let objectsDir := join odb_commondir ["versions"%string] in
    let commitSha256 := Commit.hash commit in
    let dstFile := join objectsDir [commitSha256] in
    fse.writeFile dstFile (commit_text commit).

  (** [hrtime] is the reading [process.hrtime().toString()] of the call. *)
Definition writeObject (hrtime : string) (filepath : path) (ioContext : IoContext)
    : IO (path * string) :=
    let tmpFilename := sha256hex hrtime in
    let objects := join odb_commondir ["objects"%string] in
    let tmpDir := join odb_commondir ["tmp"%string] in
    let tmpPath := join tmpDir [tmpFilename] in
    fse.ensureDir tmpDir ;;
    copyFile ioContext filepath tmpPath ;;
    let* res := calculateFileHash filepath in
    let filehash := res.1 in
    let hashBlocks := res.2 in
    let dstFile := join objects [substring 0 2 filehash; substring 2 2 filehash; filehash] in
    let* exists_ := fse.pathExists dstFile in
    (if exists_ : bool then fse.remove tmpPath
     else if compress (options (repo odb)) then zipFile tmpPath dstFile true
     else fse.move tmpPath dstFile) ;;
    match hashBlocks with
    | Some blocks =>
        fse.writeFile (add_suffix dstFile ".hblock")
          (join_with (String "010" EmptyString) (map hblock_line blocks))
    | None => ret tt
    end ;;
    ret (relative (repoWorkDir (repo odb)) filepath, filehash).

Definition readObject (hash : string) (dst : path) (ioContext : IoContext) : IO unit :=
    let objectFile :=
      join odb_commondir ["objects"%string; substring 0 2 hash; substring 2 2 hash; hash] in
    let* exists_ := fse.pathExists objectFile in
    if exists_ : bool then copyFile ioContext objectFile dst
    else throw (Error ("object " +:+ hash +:+ " not found")).

End Odb.

(** * Properties *)

(** ** Running the monad *)

Lemma bind_ok_inv {A B} (m : IO A) (k : A → IO B) w w' b :
  bind m k w = (w', Ok b) →
  ∃ a w1, m w = (w1, Ok a) ∧ k a w1 = (w', Ok b).
Proof.
  unfold bind. destruct (m w) as [w1 [a|e]]; intros H.
  - by exists a, w1.
  - discriminate.
Qed.

Lemma bind_run {A B} (m : IO A) (k : A → IO B) w w1 a :
  m w = (w1, Ok a) → bind m k w = k a w1.
Proof. unfold bind. by intros ->. Qed.

Lemma bind_fail {A B} (m : IO A) (k : A → IO B) w w1 e :
  m w = (w1, Err e) → bind m k w = (w1, Err e).
Proof. unfold bind. by intros ->. Qed.

Definition logged (w : world) (e : event) : world := World (w_fs w) (w_log w ++ [e]).

Lemma pathExists_run p w :
  fse.pathExists p w = (logged w (EvPathExists p), Ok (fs_exists (w_fs w) p)).
Proof. reflexivity. Qed.

Lemma readFile_run p w :
  fse.readFile p w = (logged w (EvReadFile p), fs_readFile (w_fs w) p).
Proof. reflexivity. Qed.

Lemma update_run (f : fs → result fs) w :
  update f w = match f (w_fs w) with
               | Ok m' => (World m' (w_log w), Ok tt)
               | Err e => (w, Err e)
               end.
Proof. reflexivity. Qed.

Lemma writeFile_run p c w :
  fse.writeFile p c w =
  match fs_writeFile p c (w_fs w) with
  | Ok m' => (World m' (w_log w ++ [EvWriteFile p c]), Ok tt)
  | Err e => (logged w (EvWriteFile p c), Err e)
  end.
Proof.
  unfold fse.writeFile, bind, emit, update; simpl.
  by destruct (fs_writeFile p c (w_fs w)).
Qed.

Lemma ensureDir_run p w :
  fse.ensureDir p w =
  match fs_ensureDir p (w_fs w) with
  | Ok m' => (World m' (w_log w ++ [EvEnsureDir p]), Ok tt)
  | Err e => (logged w (EvEnsureDir p), Err e)
  end.
Proof.
  unfold fse.ensureDir, bind, emit, update; simpl.
  by destruct (fs_ensureDir p (w_fs w)).
Qed.

(** ** Paths *)

Lemma join_seg_plain p s :
  s ≠ EmptyString → s ≠ "."%string → s ≠ ".."%string → join_seg p s = p ++ [s].
Proof.
  intros H1 H2 H3. unfold join_seg.
  destruct (String.eqb_spec s EmptyString); [done|].
  destruct (String.eqb_spec s "."); [done|].
  by destruct (String.eqb_spec s "..").
Qed.

(** ** [open] *)

Definition config_path (repo : Repository) : path :=
  Repository_commondir repo ++ ["config"%string].

Lemma config_path_join repo : join (Repository_commondir repo) ["config"%string] = config_path repo.
Proof. reflexivity. Qed.

(** The error of the taxonomy named UnsupportedVersion: the message
    thrown by [open]. *)
Definition UnsupportedVersion : error := Error "repository version 1 is not supported".

(** The stored schema version, when it is an integer. *)
Definition stored_version (cfg : json) : option Z :=
  match cfg with
  | JObj ps => match lookup_prop "version" ps with Some (JNum v) => Some v | _ => None end
  | _ => None
  end.

Definition min_supported_version : Z := 2.

Lemma open_run repo w text cfg :
  fs_readFile (w_fs w) (config_path repo) = Ok text →
  JSON_parse text = Ok cfg →
  open repo w =
  (logged w (EvReadFile (config_path repo)),
   match get_prop cfg "version" with
   | Err e => Err e
   | Ok (Some (JNum 1)) => Err UnsupportedVersion
   | Ok _ => Ok {| config := Some cfg; repo := repo |}
   end).
Proof.
  intros Hread Hparse. unfold open. rewrite config_path_join.
  unfold bind. rewrite readFile_run, Hread. unfold lift. rewrite Hparse.
  destruct (get_prop cfg "version") as [[v|]|e]; try reflexivity.
  destruct v as [| |n| | |]; try reflexivity.
  destruct n as [|[p|p|]|]; reflexivity.
Qed.

(** C4, as amended: [open] reads the configuration record once and
    changes nothing.  On a record that parses it fails with
    UnsupportedVersion exactly when the stored version is the number 1,
    however that is written; on the record null it fails with a
    TypeError; for every other stored record (version 0 included) it
    returns a handle that holds the parsed configuration. *)
Theorem open_rejects_exactly_version_1 repo w text cfg :
  fs_readFile (w_fs w) (config_path repo) = Ok text →
  JSON_parse text = Ok cfg →
  (open repo w).1 = logged w (EvReadFile (config_path repo)) ∧
  ((open repo w).2 = Err UnsupportedVersion ↔ stored_version cfg = Some 1) ∧
  ((open repo w).2 = Err TypeError ↔ cfg = JNull) ∧
  (stored_version cfg ≠ Some 1 → cfg ≠ JNull → within_model text = true →
   (open repo w).2 = Ok {| config := Some cfg; repo := repo |}).
Proof.
  intros Hread Hparse. rewrite (open_run _ _ _ _ Hread Hparse). simpl.
  split; [reflexivity|].
  destruct cfg as [| b | n | s | l | ps]; simpl;
    try (split; [split; discriminate | split; [split; discriminate | done]]).
  - split; [split; discriminate|]. split; [done|]. intros _ H; by destruct H.
  - destruct (lookup_prop "version" ps) as [[| b | n | s | l | ps']|]; simpl;
      try (split; [split; discriminate | split; [split; discriminate | done]]).
    destruct n as [|[p|p|]|]; simpl;
      try (split; [split; discriminate | split; [split; discriminate | done]]).
    split; [done|]. split; [split; discriminate|]. intros H; by destruct H.
Qed.

Definition ex_options : RepositoryInitOptions :=
  {| commondir := ["work"%string; ".snow"%string]; compress := false |}.

Definition ex_repo : Repository :=
  {| repoWorkDir := ["work"%string]; options := ex_options |}.

Definition config_with_version (v : Z) : json :=
  JObj [("version"%string, JNum v); ("filemode"%string, JBool false); ("symlinks"%string, JBool true)].

(** A store whose configuration record carries the given version. *)
Definition store_with_version (v : Z) : world :=
  World (<[ config_path ex_repo := File (stringify (config_with_version v)) ]>
           (<[ ["work"%string; ".snow"%string] := Dir ]> (<[ ["work"%string] := Dir ]> ∅))) [].

(** A configuration whose version is written with a fraction. *)
Definition config_text_1_0 : string := "{" +:+ quote "version" +:+ ":1.0}".

Definition store_with_config (text : string) : world :=
  World (<[ config_path ex_repo := File text ]>
           (<[ ["work"%string; ".snow"%string] := Dir ]> (<[ ["work"%string] := Dir ]> ∅))) [].

Lemma open_rejects_exactly_version_1_witness :
  (open ex_repo (store_with_config config_text_1_0)).2 = Err UnsupportedVersion.
Proof.
  apply (proj1 (proj2 (open_rejects_exactly_version_1 ex_repo
           (store_with_config config_text_1_0) config_text_1_0
           (JObj [("version"%string, JNum 1)]) eq_refl eq_refl))).
  reflexivity.
Defined.

(** C4 as the specification words it: every stored version below the
    minimum supported one makes [open] fail. *)
Definition open_rejects_below_minimum : Prop :=
  ∀ repo w text cfg v,
    fs_readFile (w_fs w) (config_path repo) = Ok text →
    JSON_parse text = Ok cfg →
    stored_version cfg = Some v →
    v < min_supported_version →
    (open repo w).2 = Err UnsupportedVersion.

(** A record with version 0 is opened without complaint. *)
Lemma open_accepts_version_0 : ¬ open_rejects_below_minimum.
Proof.
  intros H.
  specialize (H ex_repo (store_with_version 0) (stringify (config_with_version 0))
                (config_with_version 0) 0 eq_refl eq_refl eq_refl eq_refl).
  vm_compute in H. discriminate.
Qed.

(** ** [mkdir -p] *)

Lemma mkdirp_from_keeps pre todo m m' q e :
  mkdirp_from pre todo m = Ok m' → m !! q = Some e → m' !! q = Some e.
Proof.
  revert pre m. induction todo as [|s rest IH]; intros pre m H Hq; simpl in H.
  - inversion H; by subst.
  - destruct (m !! (pre ++ [s])) as [[c|]|] eqn:Hp; [discriminate| eauto |].
    eapply IH; [exact H|].
    rewrite lookup_insert_ne; [done|]. intros Heq. congruence.
Qed.

Lemma mkdirp_from_makes pre todo m m' :
  mkdirp_from pre todo m = Ok m' → todo ≠ [] → m' !! (pre ++ todo) = Some Dir.
Proof.
  revert pre m. induction todo as [|s rest IH]; intros pre m H Hne; [done|].
  simpl in H.
  destruct rest as [|s' rest'].
  - destruct (m !! (pre ++ [s])) as [[c|]|] eqn:Hp; simpl in H; [discriminate| |];
      inversion H; subst; [done|]. by rewrite lookup_insert_eq.
  - replace (pre ++ s :: s' :: rest') with ((pre ++ [s]) ++ s' :: rest')
      by (by rewrite <- app_assoc).
    destruct (m !! (pre ++ [s])) as [[c|]|] eqn:Hp; [discriminate| |];
      (eapply IH; [exact H | done]).
Qed.

(** What [mkdir -p] adds is a directory on the way to its target. *)
Lemma mkdirp_from_adds pre todo m m' q e :
  mkdirp_from pre todo m = Ok m' → m !! q = None → m' !! q = Some e →
  e = Dir ∧ ∃ k, q = pre ++ take (S k) todo.
Proof.
  revert pre m. induction todo as [|s rest IH]; intros pre m H Hq Hq'; simpl in H.
  - inversion H; subst. congruence.
  - destruct (m !! (pre ++ [s])) as [[c|]|] eqn:Hp; [discriminate| |].
    + destruct (IH _ _ H Hq Hq') as [-> [k ->]]. split; [done|].
      exists (S k). by rewrite <- app_assoc.
    + destruct (decide (q = pre ++ [s])) as [->|Hne].
      * pose proof (mkdirp_from_keeps _ _ _ _ (pre ++ [s]) Dir H) as Hk.
        rewrite lookup_insert_eq in Hk. specialize (Hk eq_refl).
        split; [congruence|]. by exists O.
      * assert (<[pre ++ [s] := Dir]> m !! q = None) as Hq2
          by (by rewrite lookup_insert_ne).
        destruct (IH _ _ H Hq2 Hq') as [-> [k ->]]. split; [done|].
        exists (S k). by rewrite <- app_assoc.
Qed.

Lemma fs_ensureDir_error p m e :
  fs_ensureDir p m = Err e → ∃ code q, e = SysError code q.
Proof.
  unfold fs_ensureDir. generalize (@nil string) as pre. revert m.
  induction p as [|s rest IH]; intros m pre H; simpl in H; [discriminate|].
  destruct (m !! (pre ++ [s])) as [[c|]|]; eauto.
  inversion H; eauto.
Qed.

Lemma fs_writeFile_error p c m e :
  fs_writeFile p c m = Err e → ∃ code q, e = SysError code q.
Proof.
  unfold fs_writeFile. intros H.
  destruct p; [inversion H; eauto|].
  destruct (m !! (s :: p)) as [[c'|]|]; try (inversion H; eauto; fail);
    destruct (fs_is_dir m (dirname (s :: p))); inversion H; eauto.
Qed.

Lemma fs_ensureDir_exists p m m' :
  fs_ensureDir p m = Ok m' → fs_exists m' p = true.
Proof.
  intros H. destruct p as [|s p]; [done|].
  apply mkdirp_from_makes in H; [|done]. simpl in H.
  unfold fs_exists. by rewrite H.
Qed.

Lemma fs_ensureDir_keeps_exists p m m' q :
  fs_ensureDir p m = Ok m' → fs_exists m q = true → fs_exists m' q = true.
Proof.
  intros H. unfold fs_exists. destruct q as [|s q]; [done|].
  destruct (m !! (s :: q)) as [e|] eqn:Hq; [|done]. intros _.
  by rewrite (mkdirp_from_keeps _ _ _ _ _ _ H Hq).
Qed.

Lemma fs_writeFile_keeps_exists p c m m' q :
  fs_writeFile p c m = Ok m' → fs_exists m q = true → fs_exists m' q = true.
Proof.
  unfold fs_writeFile. intros H.
  assert (m' = <[p := File c]> m) as ->.
  { destruct p; [discriminate|].
    destruct (m !! (s :: p)) as [[c'|]|]; try discriminate;
      destruct (fs_is_dir m (dirname (s :: p))); by inversion H. }
  unfold fs_exists. destruct q as [|s q]; [done|].
  destruct (decide (p = s :: q)) as [->|Hne].
  - by rewrite lookup_insert_eq.
  - by rewrite lookup_insert_ne.
Qed.

Lemma bind_ensureDir {B} p (k : unit → IO B) w :
  bind (fse.ensureDir p) k w =
  match fs_ensureDir p (w_fs w) with
  | Ok m' => k tt (World m' (w_log w ++ [EvEnsureDir p]))
  | Err e => (logged w (EvEnsureDir p), Err e)
  end.
Proof.
  unfold bind at 1. rewrite ensureDir_run. by destruct (fs_ensureDir p (w_fs w)).
Qed.

Lemma bind_writeFile {B} p c (k : unit → IO B) w :
  bind (fse.writeFile p c) k w =
  match fs_writeFile p c (w_fs w) with
  | Ok m' => k tt (World m' (w_log w ++ [EvWriteFile p c]))
  | Err e => (logged w (EvWriteFile p c), Err e)
  end.
Proof.
  unfold bind at 1. rewrite writeFile_run. by destruct (fs_writeFile p c (w_fs w)).
Qed.

Lemma bind_pathExists {B} p (k : bool → IO B) w :
  bind (fse.pathExists p) k w = k (fs_exists (w_fs w) p) (logged w (EvPathExists p)).
Proof. reflexivity. Qed.

(** ** [create] *)

(** The error of the taxonomy named AlreadyExists: the message thrown by
    [create]. *)
Definition AlreadyExists : error := Error "directory already exists".

Lemma create_on_existing repo options w :
  fs_exists (w_fs w) (commondir options) = true →
  create repo options w = (logged w (EvPathExists (commondir options)), Err AlreadyExists).
Proof.
  intros Hex. unfold create. rewrite bind_pathExists, Hex. reflexivity.
Qed.

Lemma fs_writeFile_read p c m m' :
  fs_writeFile p c m = Ok m' → fs_readFile m' p = Ok c.
Proof.
  unfold fs_writeFile, fs_readFile. intros H. destruct p as [|s p]; [discriminate|].
  assert (m' = <[s :: p := File c]> m) as ->.
  { destruct (m !! (s :: p)) as [[c'|]|]; try discriminate;
      destruct (fs_is_dir m (dirname (s :: p))); by inversion H. }
  by rewrite lookup_insert_eq.
Qed.

Local Ltac stopped lem E :=
  left; apply lem in E; destruct E as (? & ? & ->); eauto.

(** On a target that does not exist yet, [create] either is stopped by
    the file system or builds the store and writes the default
    configuration. *)
Lemma create_on_fresh repo options w :
  fs_exists (w_fs w) (commondir options) = false →
  (∃ code q, (create repo options w).2 = Err (SysError code q)) ∨
  ((create repo options w).2 = Ok {| config := Some defaultConfig; repo := repo |} ∧
   fs_exists (w_fs (create repo options w).1) (commondir options) = true ∧
   fs_readFile (w_fs (create repo options w).1) (commondir options ++ ["config"%string])
     = Ok (stringify defaultConfig)).
Proof.
  intros Hex. unfold create. rewrite bind_pathExists, Hex.
  rewrite bind_ensureDir.
  destruct (fs_ensureDir _ _) as [m1|e] eqn:E1; simpl;
    [|stopped fs_ensureDir_error E1].
  rewrite bind_ensureDir; simpl.
  destruct (fs_ensureDir _ m1) as [m2|e] eqn:E2; simpl;
    [|stopped fs_ensureDir_error E2].
  rewrite bind_ensureDir; simpl.
  destruct (fs_ensureDir _ m2) as [m3|e] eqn:E3; simpl;
    [|stopped fs_ensureDir_error E3].
  rewrite bind_ensureDir; simpl.
  destruct (fs_ensureDir _ m3) as [m4|e] eqn:E4; simpl;
    [|stopped fs_ensureDir_error E4].
  rewrite bind_ensureDir; simpl.
  destruct (fs_ensureDir _ m4) as [m5|e] eqn:E5; simpl;
    [|stopped fs_ensureDir_error E5].
  rewrite bind_writeFile; simpl.
  destruct (fs_writeFile _ _ m5) as [m6|e] eqn:E6; simpl;
    [|stopped fs_writeFile_error E6].
  right. split; [reflexivity|]. split.
  - eapply fs_writeFile_keeps_exists; [exact E6|].
    do 4 (eapply fs_ensureDir_keeps_exists; [eassumption|]).
    eapply fs_ensureDir_exists; eassumption.
  - eapply fs_writeFile_read. exact E6.
Qed.

(** C5, as amended: [create] fails with AlreadyExists if and only if
    something, a directory or a file, already exists at the path of the
    target metadata directory; on that failure the
    file system is left as it was, the only call made being the existence
    check; and a second [create] on the target of a successful one fails
    with AlreadyExists and leaves the store of the first untouched. *)
Theorem create_AlreadyExists repo options w :
  ((create repo options w).2 = Err AlreadyExists ↔
   fs_exists (w_fs w) (commondir options) = true) ∧
  ((create repo options w).2 = Err AlreadyExists →
   (create repo options w).1 = logged w (EvPathExists (commondir options))) ∧
  (∀ odb, (create repo options w).2 = Ok odb →
     let w1 := (create repo options w).1 in
     (create repo options w1).2 = Err AlreadyExists ∧
     w_fs (create repo options w1).1 = w_fs w1).
Proof.
  destruct (fs_exists (w_fs w) (commondir options)) eqn:Hex.
  - rewrite (create_on_existing _ _ _ Hex). simpl.
    split; [done|]. split; [done|]. intros odb H. discriminate.
  - destruct (create_on_fresh repo options w Hex) as [(code & q & Hr)|(Hr & Hex1 & _)].
    + rewrite Hr. split; [split; discriminate|]. split; [discriminate|].
      intros odb H. discriminate.
    + rewrite Hr. split; [split; discriminate|]. split; [discriminate|].
      intros odb _ w1. subst w1.
      by rewrite (create_on_existing _ _ _ Hex1).
Qed.

(** C5 as the specification words it: the failure tells that the
    metadata directory exists. *)
Definition create_fails_iff_directory_exists : Prop :=
  ∀ repo options w,
    (create repo options w).2 = Err AlreadyExists ↔
    fs_is_dir (w_fs w) (commondir options) = true.

(** A working tree in which a regular file has the name of the metadata
    directory. *)
Definition world_with_file_at_target : world :=
  World (<[ ["work"%string; ".snow"%string] := File "not a store" ]>
           (<[ ["work"%string] := Dir ]> ∅)) [].

(** [create] fails with AlreadyExists on it, and no directory is there. *)
Lemma create_fails_on_a_file : ¬ create_fails_iff_directory_exists.
Proof.
  intros H.
  destruct (H ex_repo ex_options world_with_file_at_target) as [Hdir _].
  specialize (Hdir eq_refl). vm_compute in Hdir. discriminate Hdir.
Qed.

(** ** [readHeadReference] *)

Definition head_path (odb : Odb) : path := odb_commondir odb ++ ["HEAD"%string].

(** [String.prototype.trim] on a text held as UTF-8: the white space
    and the line terminators of ECMAScript, in their encodings, are
    dropped at both ends. *)
Definition bytes (l : list N) : string :=
  fold_right (λ n s, String (ascii_of_N n) s) EmptyString l.

Definition js_spaces : list (list N) :=
  [ [9]; [10]; [11]; [12]; [13]; [32]; [194; 160]; [225; 154; 128];
    [226; 128; 128]; [226; 128; 129]; [226; 128; 130]; [226; 128; 131];
    [226; 128; 132]; [226; 128; 133]; [226; 128; 134]; [226; 128; 135];
    [226; 128; 136]; [226; 128; 137]; [226; 128; 138];
    [226; 128; 168]; [226; 128; 169]; [226; 128; 175]; [226; 129; 159];
    [227; 128; 128]; [239; 187; 191] ]%N.

(** [s] without one white space at its start, when it starts with one. *)
Fixpoint strip_any (spaces : list string) (s : string) : option string :=
  match spaces with
  | [] => None
  | sp :: rest => match strip sp s with Some r => Some r | None => strip_any rest s end
  end.

Fixpoint trim_go (spaces : list string) (fuel : nat) (s : string) : string :=
  match fuel with
  | O => s
  | S f => match strip_any spaces s with Some r => trim_go spaces f r | None => s end
  end.

Definition srev (s : string) : string :=
  string_of_list_ascii (rev (list_ascii_of_string s)).

Definition trim_start (s : string) : string :=
  trim_go (map bytes js_spaces) (String.length s) s.

Definition trim_end (s : string) : string :=
  srev (trim_go (map (λ l, bytes (rev l)) js_spaces) (String.length s) (srev s)).

Definition js_trim (s : string) : string := trim_end (trim_start s).

(** C9, as amended: [readHeadReference] returns the text of the HEAD
    file at the metadata root without trimming it, white space at its
    ends included; when the file cannot be read it logs a note and
    returns [undefined] instead of failing.  The file system is never
    changed.  The text is the file decoded as UTF-8: it is the content
    itself when that is well-formed. *)
Theorem readHeadReference_not_trimmed odb w :
  w_fs (readHeadReference odb w).1 = w_fs w ∧
  (∀ content,
     fs_readFile (w_fs w) (head_path odb) = Ok content →
     utf8_valid content = true →
     readHeadReference odb w =
     (logged w (EvReadFile (head_path odb)), Ok (Some content))) ∧
  (∀ e,
     fs_readFile (w_fs w) (head_path odb) = Err e →
     readHeadReference odb w =
     (logged (logged w (EvReadFile (head_path odb))) (EvConsole "No HEAD found"), Ok None)).
Proof.
  unfold readHeadReference, catch, bind.
  change (join (odb_commondir odb) ["HEAD"%string]) with (head_path odb).
  rewrite readFile_run.
  destruct (fs_readFile (w_fs w) (head_path odb)) as [c|e]; simpl.
  - split; [done|]. split; [intros ? H _; by inversion H|intros ? H; discriminate H].
  - split; [done|]. split; [intros ? H; discriminate H|done].
Qed.

Definition ex_odb : Odb := {| config := Some defaultConfig; repo := ex_repo |}.

(** A store whose HEAD file holds the given text. *)
Definition store_with_head (content : string) : world :=
  World (<[ head_path ex_odb := File content ]>
           (<[ ["work"%string; ".snow"%string] := Dir ]> (<[ ["work"%string] := Dir ]> ∅))) [].

(** C9 as the specification words it: the result is the trimmed content
    of the HEAD file. *)
Definition readHeadReference_trims : Prop :=
  ∀ odb w content,
    fs_readFile (w_fs w) (head_path odb) = Ok content →
    (readHeadReference odb w).2 = Ok (Some (js_trim content)).

(** A HEAD file that ends in a line break is returned with it. *)
Lemma readHeadReference_keeps_whitespace : ¬ readHeadReference_trims.
Proof.
  intros H.
  specialize (H ex_odb (store_with_head (" main" +:+ String "010" EmptyString))
                (" main" +:+ String "010" EmptyString) eq_refl).
  vm_compute in H. discriminate.
Qed.

(** ** [writeReference] *)

(** The error of the taxonomy named MissingHash: the message thrown by
    [writeReference] for a hash that is [undefined] or empty. *)
Definition MissingHash (hash : option string) : error :=
  Error ("hash value of ref is " +:+ template_str hash).

Definition ref_path (odb : Odb) (ref : Reference.t) : path :=
  join (join (odb_commondir odb) ["refs"%string]) [Reference.getName ref].

Lemma fs_writeFile_ok p c m :
  p ≠ [] → m !! p ≠ Some Dir → fs_is_dir m (dirname p) = true →
  fs_writeFile p c m = Ok (<[p := File c]> m).
Proof.
  intros Hp Hd Hdir. unfold fs_writeFile. destruct p as [|s p]; [done|].
  rewrite Hdir. destruct (m !! (s :: p)) as [[c'|]|]; done.
Qed.

(** C8: [writeReference] on the detached reference (the one named HEAD)
    warns and returns with the file system untouched; on any other
    reference it fails with MissingHash exactly when the reference has no
    target hash; otherwise it is one write of the record made of the
    hash, the start when there is one, and the user data or else the
    empty object, to the file named after the reference, whose former
    content is replaced. *)
Theorem writeReference_cases odb ref w :
  (Reference.isDetached ref = true →
   writeReference odb ref w =
   (logged w (EvConsole "Was about to write HEAD ref to disk"), Ok tt)) ∧
  ((∃ h, (writeReference odb ref w).2 = Err (MissingHash h)) ↔
   Reference.isDetached ref = false ∧ truthy_str (Reference.hash ref) = false) ∧
  (Reference.isDetached ref = false → truthy_str (Reference.hash ref) = false →
   writeReference odb ref w = (w, Err (MissingHash (Reference.hash ref)))) ∧
  (∀ h, Reference.isDetached ref = false → Reference.hash ref = Some h → h ≠ EmptyString →
     let body := JObj ([("hash"%string, JStr h)] ++
                       match Reference.start ref with
                       | Some s => if String.eqb s EmptyString then []
                                   else [("start"%string, JStr s)]
                       | None => []
                       end ++
                       [("userData"%string,
                         match Reference.userData ref with
                         | None | Some JNull => JObj []
                         | Some u => u
                         end)]) in
     writeReference odb ref w = fse.writeFile (ref_path odb ref) (stringify body) w ∧
     (ref_path odb ref ≠ [] →
      w_fs w !! ref_path odb ref ≠ Some Dir →
      fs_is_dir (w_fs w) (dirname (ref_path odb ref)) = true →
      writeReference odb ref w =
      (World (<[ref_path odb ref := File (stringify body)]> (w_fs w))
             (w_log w ++ [EvWriteFile (ref_path odb ref) (stringify body)]), Ok tt))).
Proof.
  unfold writeReference. fold (ref_path odb ref).
  destruct (Reference.isDetached ref) eqn:Hd.
  - split; [done|]. split.
    { split; [intros [h Hh]; simpl in Hh; discriminate | intros [? _]; done]. }
    split; [done|]. intros h Hf. discriminate Hf.
  - split; [done|].
    destruct (truthy_str (Reference.hash ref)) eqn:Hh; cbv beta iota delta [negb].
    + split.
      { split; [|intros [_ ?]; done]. intros [h' Hw]. exfalso.
        rewrite writeFile_run in Hw.
        destruct (fs_writeFile _ _ _) as [m'|e] eqn:E; [discriminate|].
        apply fs_writeFile_error in E as (code & q & ->). discriminate. }
      split; [done|]. intros h _ Hsome Hne.
      set (body := JObj (_ ++ _)).
      assert (stringify (reference_json ref (template_str (Reference.hash ref)))
              = stringify body) as ->.
      { unfold reference_json, body. rewrite Hsome. simpl.
        destruct (Reference.start ref) as [s|]; simpl; [|done].
        by destruct (String.eqb s EmptyString). }
      split; [done|]. intros Hp Hnd Hdir.
      rewrite writeFile_run, (fs_writeFile_ok _ _ _ Hp Hnd Hdir). done.
    + split.
      { split; [done|]. intros _. by exists (Reference.hash ref). }
      split; [done|]. intros h _ Hsome Hne. rewrite Hsome in Hh. simpl in Hh.
      destruct (String.eqb_spec h EmptyString); done.
Qed.

(** ** Texts *)

Lemma sapp_cons x (a b : string) : String x a +:+ b = String x (a +:+ b).
Proof. reflexivity. Qed.

Lemma sapp_nil_l (b : string) : EmptyString +:+ b = b.
Proof. reflexivity. Qed.

Lemma sapp_assoc (a b c : string) : (a +:+ b) +:+ c = a +:+ (b +:+ c).
Proof. induction a as [|x a IH]; [done|]. rewrite !sapp_cons. by rewrite IH. Qed.

Lemma sapp_nil_r (a : string) : a +:+ EmptyString = a.
Proof. induction a as [|x a IH]; [done|]. rewrite sapp_cons. by rewrite IH. Qed.

Lemma slength_app (a b : string) :
  String.length (a +:+ b) = (String.length a + String.length b)%nat.
Proof. induction a as [|x a IH]; [done|]. rewrite sapp_cons. simpl. by rewrite IH. Qed.

(** ** Reading back a string literal *)

(** The characters that may stand between quotes as they are. *)
Definition plain_char (c : ascii) : bool :=
  negb (Ascii.eqb c dquote) && negb (Ascii.eqb c backslash) && (32 <=? N_of_ascii c)%N.

Fixpoint quote_safe (s : string) : bool :=
  match s with
  | EmptyString => true
  | String c s' => plain_char c && quote_safe s'
  end.

Lemma parse_string_body_plain s rest :
  quote_safe s = true →
  parse_string_body (s +:+ String dquote rest) = Some (s, rest).
Proof.
  induction s as [|c s IH]; intros H.
  - reflexivity.
  - rewrite sapp_cons. simpl in *.
    apply andb_prop in H as [Hc Hs]. unfold plain_char in Hc.
    apply andb_prop in Hc as [Hc H32]. apply andb_prop in Hc as [Hq Hb].
    apply negb_true_iff in Hq, Hb. rewrite Hq, Hb.
    apply N.leb_le in H32.
    destruct (N.ltb_spec (N_of_ascii c) 32) as [Hlt|_]; [lia|].
    by rewrite (IH Hs).
Qed.

Lemma raw_quote_parse s rest :
  quote_safe s = true →
  ∃ t, raw_quote s +:+ rest = String dquote t ∧ parse_string_body t = Some (s, rest).
Proof.
  intros H. exists (s +:+ String dquote rest). split.
  - unfold raw_quote. by rewrite sapp_cons, sapp_assoc.
  - by apply parse_string_body_plain.
Qed.

(** One escaped character is read back as the character. *)
Lemma parse_escape_char c r :
  parse_string_body (escape_char c +:+ r) =
  match parse_string_body r with
  | Some (str, r') => Some (String c str, r')
  | None => None
  end.
Proof.
  destruct c as [[] [] [] [] [] [] [] []]; reflexivity.
Qed.

Lemma parse_string_body_escape s rest :
  parse_string_body (escape s +:+ String dquote rest) = Some (s, rest).
Proof.
  induction s as [|c s IH].
  - reflexivity.
  - simpl escape. by rewrite sapp_assoc, parse_escape_char, IH.
Qed.

Lemma quote_parse s rest :
  ∃ t, quote s +:+ rest = String dquote t ∧ parse_string_body t = Some (s, rest).
Proof.
  exists (escape s +:+ String dquote rest). split.
  - unfold quote. by rewrite sapp_cons, sapp_assoc.
  - apply parse_string_body_escape.
Qed.

(** ** Reading back a number *)

Fixpoint all_digits (s : string) : bool :=
  match s with
  | EmptyString => true
  | String c s' => is_digit c && all_digits s'
  end.

(** What may follow a number: anything but a digit, a fraction or an
    exponent. *)
Definition num_end (r : string) : bool :=
  match r with
  | EmptyString => true
  | String c _ => negb (is_digit c) && negb (frac_or_exp r)
  end.

Lemma string_of_uint_digits d : all_digits (NilEmpty.string_of_uint d) = true.
Proof. induction d; simpl; auto. Qed.

Lemma span_digits_app s r :
  all_digits s = true → num_end r = true → span_digits (s +:+ r) = (s, r).
Proof.
  intros Hs Hr. induction s as [|c s IH].
  - rewrite sapp_nil_l. destruct r as [|c r]; [done|]. simpl in *.
    apply andb_prop in Hr as [Hd _]. apply negb_true_iff in Hd. by rewrite Hd.
  - rewrite sapp_cons. simpl in *. apply andb_prop in Hs as [Hc Hs].
    rewrite Hc, (IH Hs). done.
Qed.

Lemma nzhead_not_D0 d d' : Decimal.nzhead d ≠ Decimal.D0 d'.
Proof. induction d; simpl; try discriminate; auto. Qed.

Lemma to_uint_normal n : N.to_uint n = Decimal.unorm (N.to_uint n).
Proof. by rewrite <- (Unsigned.to_of (N.to_uint n)), Unsigned.of_to. Qed.

Lemma to_uint_no_leading_zero n d : N.to_uint n = Decimal.D0 d → d = Decimal.Nil.
Proof.
  rewrite to_uint_normal. unfold Decimal.unorm.
  destruct (Decimal.nzhead (N.to_uint n)) eqn:E; intros H; try discriminate;
    try (by inversion H).
  by apply nzhead_not_D0 in E.
Qed.

Lemma to_uint_nonnil n : N.to_uint n ≠ Decimal.Nil.
Proof. rewrite to_uint_normal. apply unorm_nonnil. Qed.

Lemma parse_nat_print n r :
  num_end r = true → parse_nat (print_N n +:+ r) = Some (n, r).
Proof.
  intros Hr. unfold parse_nat, print_N.
  rewrite (span_digits_app _ _ (string_of_uint_digits _) Hr).
  cbv beta iota zeta delta [fst snd].
  assert (frac_or_exp r = false) as Hfe.
  { destruct r as [|c r]; [done|]. simpl in Hr. apply andb_prop in Hr as [_ H].
    by apply negb_true_iff in H. }
  pose proof (NilEmpty.usu (N.to_uint n)) as Hu.
  pose proof (Unsigned.of_to n) as Hn.
  pose proof (to_uint_nonnil n) as Hnn.
  pose proof (to_uint_no_leading_zero n) as Hz.
  set (u := N.to_uint n) in *. clearbody u.
  remember (NilEmpty.string_of_uint u) as ds eqn:Eds.
  destruct ds as [|c [|c' s']].
  - destruct u; simpl in Eds; done.
  - rewrite Hfe, Hu. simpl. by rewrite Hn.
  - destruct (Ascii.eqb_spec c "0") as [->|_].
    + destruct u; simpl in Eds; try discriminate.
      rewrite (Hz u eq_refl) in Eds. discriminate.
    + rewrite Hfe, Hu. simpl. by rewrite Hn.
Qed.

Definition num_start (c : ascii) : bool := is_digit c || Ascii.eqb c "-".

Lemma print_N_head n : ∃ c t, print_N n = String c t ∧ is_digit c = true.
Proof.
  unfold print_N. pose proof (to_uint_nonnil n) as Hnn.
  destruct (N.to_uint n); [done| | | | | | | | | |]; simpl; eauto.
Qed.

Lemma print_Z_head z : ∃ c t, print_Z z = String c t ∧ num_start c = true.
Proof.
  unfold print_Z. destruct (z <? 0).
  - by eexists _, _.
  - destruct (print_N_head (Z.to_N z)) as (c & t & -> & Hc).
    exists c, t. split; [done|]. unfold num_start. by rewrite Hc.
Qed.

Lemma parse_number_print z r :
  num_end r = true → parse_number (print_Z z +:+ r) = Some (z, r).
Proof.
  intros Hr. unfold print_Z. destruct (Z.ltb_spec z 0) as [Hneg|Hpos].
  - rewrite sapp_cons. simpl. rewrite (parse_nat_print _ _ Hr). simpl.
    do 2 f_equal. lia.
  - destruct (print_N_head (Z.to_N z)) as (c & t & Hhead & Hc).
    unfold parse_number.
    pose proof (parse_nat_print (Z.to_N z) r Hr) as Hp.
    rewrite Hhead in *. rewrite sapp_cons in *.
    assert (Ascii.eqb c "-" = false) as ->.
    { destruct c as [[] [] [] [] [] [] [] []]; try done. }
    rewrite Hp. simpl. do 2 f_equal. lia.
Qed.

(** ** Reading back what [JSON.stringify] wrote *)

Section json_induction.
Variable P : json → Prop.
Hypothesis Hnull : P JNull.
Hypothesis Hbool : ∀ b, P (JBool b).
Hypothesis Hnum : ∀ n, P (JNum n).
Hypothesis Hstr : ∀ s, P (JStr s).
Hypothesis Harr : ∀ l, Forall P l → P (JArr l).
Hypothesis Hobj : ∀ ps, Forall (λ kv, P kv.2) ps → P (JObj ps).

Fixpoint json_induction (v : json) : P v :=
    match v with
    | JNull => Hnull
    | JBool b => Hbool b
    | JNum n => Hnum n
    | JStr s => Hstr s
    | JArr l =>
        Harr l ((fix go (l : list json) : Forall P l :=
                   match l with
                   | [] => @List.Forall_nil _ P
                   | x :: l' => @List.Forall_cons _ P x l' (json_induction x) (go l')
                   end) l)
    | JObj ps =>
        Hobj ps ((fix go (ps : list (string * json)) : Forall (λ kv, P kv.2) ps :=
                    match ps with
                    | [] => @List.Forall_nil _ (λ kv, P kv.2)
                    | kv :: ps' => @List.Forall_cons _ (λ kv, P kv.2) kv ps' (json_induction kv.2) (go ps')
                    end) ps)
    end.
End json_induction.

(** The first character of a value. *)
Definition value_start (c : ascii) : bool :=
  num_start c || Ascii.eqb c "n" || Ascii.eqb c "t" || Ascii.eqb c "f"
  || Ascii.eqb c dquote || Ascii.eqb c "[" || Ascii.eqb c "{".

Lemma stringify_head v : ∃ c t, stringify v = String c t ∧ value_start c = true.
Proof.
  destruct v as [|[]|n|s|l|ps]; try (by eexists _, _).
  destruct (print_Z_head n) as (c & t & H & Hc). exists c, t. split; [done|].
  unfold value_start. by rewrite Hc.
Qed.

Lemma value_start_not_ws c : value_start c = true → is_ws c = false.
Proof. destruct c as [[] [] [] [] [] [] [] []]; done. Qed.

Lemma value_start_not_close c :
  value_start c = true → Ascii.eqb c "]" = false ∧ Ascii.eqb c "}" = false.
Proof. destruct c as [[] [] [] [] [] [] [] []]; done. Qed.

Lemma skip_ws_value v r : skip_ws (stringify v +:+ r) = stringify v +:+ r.
Proof.
  destruct (stringify_head v) as (c & t & -> & Hc). rewrite sapp_cons. simpl.
  by rewrite (value_start_not_ws _ Hc).
Qed.

(** How [parse_value] goes about a text whose first character starts a
    number. *)
Lemma parse_value_number f c t :
  num_start c = true →
  parse_value (S f) (String c t) =
  match parse_number (String c t) with
  | Some (n, r') => Some (JNum n, r')
  | None => None
  end.
Proof.
  intros Hc. destruct c as [[] [] [] [] [] [] [] []]; try discriminate; reflexivity.
Qed.

Definition reads_back (v : json) : Prop :=
  ∀ r f, num_end r = true → (2 * String.length (stringify v) < f)%nat →
         parse_value f (stringify v +:+ r) = Some (v, r).

Lemma parse_elems_stringify l :
  l ≠ [] → Forall reads_back l →
  ∀ r f, (2 * String.length (join_with "," (map stringify l)) + 1 < f)%nat →
         parse_elems f (join_with "," (map stringify l) +:+ String "]" r) = Some (l, r).
Proof.
  intros Hne Hall. induction Hall as [|v l Hv Hl IH]; [done|].
  intros r f Hf. destruct f as [|f]; [lia|].
  destruct l as [|v2 l].
  - simpl join_with in *. simpl parse_elems.
    rewrite Hv; [|reflexivity|lia]. simpl. done.
  - change (join_with "," (map stringify (v :: v2 :: l)))
      with (stringify v +:+ "," +:+ join_with "," (map stringify (v2 :: l))) in *.
    set (J := join_with "," (map stringify (v2 :: l))) in *. clearbody J.
    rewrite !slength_app in Hf. simpl String.length in Hf.
    rewrite !sapp_assoc, sapp_cons, sapp_nil_l. simpl parse_elems.
    rewrite Hv; [|reflexivity|lia]. simpl.
    rewrite (IH ltac:(done) r f) by lia. done.
Qed.

Definition member_text (kv : string * json) : string :=
  quote kv.1 +:+ ":" +:+ stringify kv.2.

Ltac text_norm :=
  repeat first [rewrite sapp_assoc | rewrite sapp_cons | rewrite sapp_nil_l].

Lemma parse_members_stringify ps :
  ps ≠ [] → Forall (λ kv, reads_back kv.2) ps →
  ∀ r f, (2 * String.length (join_with "," (map member_text ps)) + 1 < f)%nat →
         parse_members f (join_with "," (map member_text ps) +:+ String "}" r) = Some (ps, r).
Proof.
  intros Hne Hall. induction Hall as [|[k v] ps Hv Hl IH]; [done|].
  intros r f Hf. destruct f as [|f]; [lia|].
  simpl in Hv.
  destruct ps as [|kv2 ps].
  - simpl join_with in *. unfold member_text in *. simpl fst in *. simpl snd in *.
    rewrite !slength_app in Hf. text_norm.
    destruct (quote_parse k (String ":" (stringify v +:+ String "}" r))) as (t & -> & Ht).
    simpl parse_members. rewrite Ht. simpl.
    rewrite Hv; [|reflexivity|lia]. simpl. done.
  - change (join_with "," (map member_text ((k, v) :: kv2 :: ps)))
      with (member_text (k, v) +:+ "," +:+ join_with "," (map member_text (kv2 :: ps))) in *.
    set (J := join_with "," (map member_text (kv2 :: ps))) in *. clearbody J.
    unfold member_text in Hf. unfold member_text. simpl fst in *. simpl snd in *.
    rewrite !slength_app in Hf. simpl String.length in Hf. text_norm.
    destruct (quote_parse k (String ":" (stringify v +:+ String "," (J +:+ String "}" r))))
      as (t & -> & Ht).
    simpl parse_members. rewrite Ht. simpl.
    rewrite Hv; [|reflexivity|lia]. simpl.
    rewrite (IH ltac:(done) r f) by lia. done.
Qed.

Theorem parse_stringify v : reads_back v.
Proof.
  induction v as [|b|n|s|l IH|ps IH] using json_induction; intros r f Hr Hf;
    (destruct f as [|f]; [lia|]).
  - reflexivity.
  - by destruct b.
  - simpl stringify. destruct (print_Z_head n) as (c & t & Hhead & Hc).
    pose proof (parse_number_print n r Hr) as Hp.
    rewrite Hhead in *. rewrite sapp_cons in *.
    rewrite (parse_value_number _ _ _ Hc). by rewrite Hp.
  - simpl stringify. destruct (quote_parse s r) as (t & -> & Ht).
    simpl. by rewrite Ht.
  - destruct l as [|v l]; [reflexivity|].
    change (stringify (JArr (v :: l)))
      with ("[" +:+ join_with "," (map stringify (v :: l)) +:+ "]") in *.
    assert (∃ c t, join_with "," (map stringify (v :: l)) = String c t
                   ∧ value_start c = true) as (c & t & Hj & Hc).
    { destruct (stringify_head v) as (c & t & Hh & Hc). exists c.
      destruct l; simpl; rewrite Hh; eauto. }
    pose proof (parse_elems_stringify (v :: l) ltac:(done) IH r f) as He.
    set (J := join_with "," (map stringify (v :: l))) in *. clearbody J.
    rewrite !slength_app in Hf. simpl String.length in Hf.
    specialize (He ltac:(lia)). text_norm. subst J. rewrite sapp_cons in *.
    simpl. rewrite (value_start_not_ws _ Hc).
    destruct (value_start_not_close _ Hc) as [-> _].
    rewrite He. done.
  - destruct ps as [|kv ps]; [reflexivity|].
    change (stringify (JObj (kv :: ps)))
      with ("{" +:+ join_with "," (map member_text (kv :: ps)) +:+ "}") in *.
    assert (∃ t, join_with "," (map member_text (kv :: ps)) = String dquote t)
      as (t & Hj).
    { destruct ps; simpl; eauto. }
    pose proof (parse_members_stringify (kv :: ps) ltac:(done) IH r f) as He.
    set (J := join_with "," (map member_text (kv :: ps))) in *. clearbody J.
    rewrite !slength_app in Hf. simpl String.length in Hf.
    specialize (He ltac:(lia)). text_norm. subst J. rewrite sapp_cons in *.
    simpl. rewrite He. done.
Qed.

Corollary JSON_parse_stringify v : JSON_parse (stringify v) = Ok v.
Proof.
  unfold JSON_parse.
  rewrite <- (sapp_nil_r (stringify v)) at 2.
  rewrite parse_stringify; [done|done|lia].
Qed.

(** ** Reading back the text of a commit *)

(** One step of [parse_members]: a member followed by a comma, and the
    last member. *)
Lemma parse_members_cons f s t k r1 r2 v r3 r4 :
  skip_ws s = String dquote t →
  parse_string_body t = Some (k, r1) →
  skip_ws r1 = String ":" r2 →
  parse_value f r2 = Some (v, r3) →
  skip_ws r3 = String "," r4 →
  parse_members (S f) s =
  match parse_members f r4 with
  | Some (l, r5) => Some ((k, v) :: l, r5)
  | None => None
  end.
Proof.
  intros Hs Ht H1 Hv H3. simpl. rewrite Hs. simpl. rewrite Ht. simpl.
  rewrite H1. simpl. rewrite Hv. simpl. rewrite H3. simpl.
  by destruct (parse_members f r4) as [[? ?]|].
Qed.

Lemma parse_members_last f s t k r1 r2 v r3 r4 :
  skip_ws s = String dquote t →
  parse_string_body t = Some (k, r1) →
  skip_ws r1 = String ":" r2 →
  parse_value f r2 = Some (v, r3) →
  skip_ws r3 = String "}" r4 →
  parse_members (S f) s = Some ([(k, v)], r4).
Proof.
  intros Hs Ht H1 Hv H3. simpl. rewrite Hs. simpl. rewrite Ht. simpl.
  rewrite H1. simpl. rewrite Hv. simpl. rewrite H3. done.
Qed.

Lemma parse_value_ws f c s :
  is_ws c = true → parse_value f (String c s) = parse_value f s.
Proof. intros Hc. destruct f; [done|]. simpl. by rewrite Hc. Qed.

Lemma parse_value_string f t s r :
  parse_string_body t = Some (s, r) →
  parse_value (S f) (String dquote t) = Some (JStr s, r).
Proof. intros Ht. simpl. by rewrite Ht. Qed.

Lemma escape_plain s : quote_safe s = true → escape s = s.
Proof.
  induction s as [|c s IH]; [done|]. simpl. intros H.
  apply andb_prop in H as [Hc Hs]. rewrite (IH Hs).
  assert (escape_char c = String c EmptyString) as ->; [|done].
  clear -Hc. destruct c as [[] [] [] [] [] [] [] []]; done.
Qed.

Lemma raw_quote_quote s : quote_safe s = true → raw_quote s = quote s.
Proof. intros H. unfold raw_quote, quote. by rewrite (escape_plain _ H). Qed.

(** The parent hashes as [writeCommit] persists them: the join of an
    empty list is the empty text, which the quotes around it turn into
    one empty string. *)
Definition persisted_parent (parent : list string) : list string :=
  match parent with
  | [] => [EmptyString]
  | _ => parent
  end.

Definition all_quote_safe (l : list string) : bool := forallb quote_safe l.

Lemma join_raw_quotes (l : list string) :
  l ≠ [] →
  raw_quote (join_with (String dquote (String "," (String dquote EmptyString))) l)
  = join_with "," (map raw_quote l).
Proof.
  intros Hne. induction l as [|a l IH]; [done|].
  destruct l as [|b l]; [done|].
  change (join_with ?s (a :: b :: l)) with (a +:+ s +:+ join_with s (b :: l)).
  change (join_with "," (map raw_quote (a :: b :: l)))
    with (raw_quote a +:+ "," +:+ join_with "," (map raw_quote (b :: l))).
  rewrite <- IH by done. unfold raw_quote. by text_norm.
Qed.

Lemma parent_text_stringify parent :
  all_quote_safe parent = true →
  "[" +:+ parent_text parent +:+ "]"
  = stringify (JArr (map JStr (persisted_parent parent))).
Proof.
  intros Hs. unfold parent_text. destruct parent as [|a l]; [reflexivity|].
  rewrite join_raw_quotes by done. simpl persisted_parent.
  change (stringify (JArr (map JStr (a :: l))))
    with ("[" +:+ join_with "," (map stringify (map JStr (a :: l))) +:+ "]").
  do 2 f_equal. rewrite map_map. f_equal.
  apply map_ext_in. intros x Hx. simpl. apply raw_quote_quote.
  unfold all_quote_safe in Hs. rewrite forallb_forall in Hs. by apply Hs.
Qed.

Lemma raw_quote_cons s r : raw_quote s +:+ r = String dquote (s +:+ String dquote r).
Proof. unfold raw_quote. by text_norm. Qed.

Lemma tags_items_length sepr l : (length l ≤ String.length (tags_items sepr l))%nat.
Proof.
  revert sepr. induction l as [|t l IH]; intros sepr; simpl; [lia|].
  rewrite !slength_app. unfold raw_quote. simpl. specialize (IH ", "%string). lia.
Qed.

Lemma parse_value_ws_string f c t s r :
  (0 < f)%nat → is_ws c = true → parse_string_body t = Some (s, r) →
  parse_value f (String c (String dquote t)) = Some (JStr s, r).
Proof.
  intros Hf Hc Ht. destruct f as [|f]; [lia|].
  rewrite parse_value_ws by done. by apply parse_value_string.
Qed.

Lemma parse_elems_tags l r f :
  l ≠ [] → all_quote_safe l = true → (length l < f)%nat →
  parse_elems f (tags_items " " l +:+ String " " (String "]" r)) = Some (map JStr l, r).
Proof.
  revert f. induction l as [|t l IH]; intros f Hne Hs Hf; [done|].
  simpl in Hs. apply andb_prop in Hs as [Ht Hs].
  destruct f as [|f]; [simpl in Hf; lia|].
  assert (0 < f)%nat as Hpos by (simpl in Hf; lia).
  destruct l as [|t2 l].
  - simpl tags_items. rewrite raw_quote_cons. text_norm.
    simpl parse_elems.
    rewrite (parse_value_ws_string f " " _ t _ Hpos eq_refl (parse_string_body_plain _ _ Ht)).
    done.
  - change (tags_items " " (t :: t2 :: l))
      with (" " +:+ raw_quote t +:+ String "," (tags_items " " (t2 :: l))).
    set (T := tags_items " " (t2 :: l)) in *. clearbody T.
    rewrite raw_quote_cons. text_norm.
    simpl parse_elems.
    rewrite (parse_value_ws_string f " " _ t _ Hpos eq_refl (parse_string_body_plain _ _ Ht)).
    simpl.
    rewrite IH; [done|done|done|simpl in *; lia].
Qed.

Lemma parse_value_tags l r f :
  all_quote_safe l = true → (length l + 1 < f)%nat →
  parse_value f (String " " (String "[" (tags_items " " l +:+ String " " (String "]" r))))
  = Some (JArr (map JStr l), r).
Proof.
  intros Hs Hf. destruct f as [|f]; [lia|].
  destruct l as [|t l]; [reflexivity|].
  pose proof (parse_elems_tags (t :: l) r f ltac:(done) Hs ltac:(lia)) as He.
  change (tags_items " " (t :: l))
    with (" " +:+ raw_quote t +:+ tags_items ", " l) in *.
  rewrite raw_quote_cons in *. revert He. text_norm. intros He.
  simpl. simpl in He. rewrite He. done.
Qed.

(** The properties of the persisted record of a commit, in the order of
    the text. *)
Definition tags_props (tags : option (list string)) : list (string * json) :=
  match tags with
  | Some l => [("tags"%string, JArr (map JStr l))]
  | None => []
  end.

Definition userData_props (userData : option json) : list (string * json) :=
  match userData with
  | Some v => if truthy v then [("userData"%string, v)] else []
  | None => []
  end.

Definition commit_props (ms : Z) (c : Commit.t) : list (string * json) :=
  [("hash"%string, JStr (Commit.hash c));
   ("message"%string, JStr (Commit.message c));
   ("date"%string, JNum ms);
   ("parent"%string, JArr (map JStr (persisted_parent (Commit.parent c))));
   ("root"%string, tree_json (Commit.root c))]
  ++ tags_props (Commit.tags c) ++ userData_props (Commit.userData c).

(** What may come after the value of a member: the end of the object, or
    a comma and the members that remain. *)
Definition closes (f : nat) (r3 : string) (l : list (string * json)) (r5 : string) : Prop :=
  (l = [] ∧ skip_ws r3 = String "}" r5) ∨
  (∃ r4, skip_ws r3 = String "," r4 ∧ parse_members f r4 = Some (l, r5)).

Lemma parse_members_member f s t k r1 r2 v r3 l r5 :
  skip_ws s = String dquote t →
  parse_string_body t = Some (k, r1) →
  skip_ws r1 = String ":" r2 →
  parse_value f r2 = Some (v, r3) →
  closes f r3 l r5 →
  parse_members (S f) s = Some ((k, v) :: l, r5).
Proof.
  intros Hs Ht H1 Hv [[-> H3]|(r4 & H3 & Hl)].
  - eapply parse_members_last; eassumption.
  - erewrite parse_members_cons by eassumption. by rewrite Hl.
Qed.

Definition tags_safe (tags : option (list string)) : bool :=
  match tags with
  | Some l => all_quote_safe l
  | None => true
  end.

Ltac text_len H :=
  unfold raw_quote in H;
  repeat first [rewrite slength_app in H | progress cbn [String.length] in H].

Lemma closes_userData f userData :
  (2 * String.length (userData_text userData) + 2 < f)%nat →
  closes f (userData_text userData +:+ "}") (userData_props userData) EmptyString.
Proof.
  intros Hf. unfold userData_text, userData_props in *.
  destruct userData as [v|]; [|by left].
  destruct (truthy v); [|by left].
  right. text_len Hf. rewrite raw_quote_cons. text_norm.
  eexists. split; [reflexivity|].
  destruct f as [|f]; [lia|].
  eapply parse_members_member.
  - reflexivity.
  - reflexivity.
  - reflexivity.
  - rewrite parse_value_ws by done. apply parse_stringify; [done|lia].
  - by left.
Qed.

Lemma closes_tail f tags userData :
  tags_safe tags = true →
  (2 * String.length (userData_text userData)
   + 2 * String.length (tags_text tags) + 4 < f)%nat →
  closes f (tags_text tags +:+ userData_text userData +:+ "}")
         (tags_props tags ++ userData_props userData) EmptyString.
Proof.
  intros Hs Hf. destruct tags as [l|]; simpl in Hs.
  - unfold tags_text in *. simpl tags_props.
    pose proof (tags_items_length " " l) as Hlen.
    text_len Hf. rewrite raw_quote_cons. text_norm.
    right. eexists. split; [reflexivity|].
    destruct f as [|f]; [lia|].
    eapply parse_members_member.
    + reflexivity.
    + reflexivity.
    + reflexivity.
    + apply parse_value_tags; [done|lia].
    + apply closes_userData. lia.
  - simpl. rewrite sapp_nil_l. apply closes_userData. simpl in Hf. lia.
Qed.

Lemma commit_text_shape c :
  all_quote_safe (Commit.parent c) = true →
  commit_text c =
  String "{"
    (raw_quote "hash" +:+ String ":" (String " " (raw_quote (Commit.hash c) +:+ String ","
    (nl_indent +:+
     raw_quote "message" +:+ String ":" (String " " (raw_quote (Commit.message c) +:+ String ","
    (nl_indent +:+
     raw_quote "date" +:+ String ":" (String " " (print_time (Commit.date c) +:+ String ","
    (nl_indent +:+
     raw_quote "parent" +:+ String ":" (String " "
       (stringify (JArr (map JStr (persisted_parent (Commit.parent c)))) +:+ String "," (String " "
    (raw_quote "root" +:+ String ":"
       (stringify (tree_json (Commit.root c)) +:+ (tags_text (Commit.tags c) +:+ userData_text (Commit.userData c) +:+ "}")))))))))))))))).
Proof.
  intros Hp. rewrite <- (parent_text_stringify _ Hp).
  unfold commit_text, tree_toString. by text_norm.
Qed.

Lemma num_end_tail tags userData :
  num_end (tags_text tags +:+ userData_text userData +:+ "}") = true.
Proof.
  destruct tags as [l|]; [reflexivity|].
  destruct userData as [v|]; [|reflexivity]. simpl.
  unfold userData_text. by destruct (truthy v).
Qed.

Lemma parse_value_object f r t :
  skip_ws r = String dquote t →
  parse_value (S f) (String "{" r) =
  match parse_members f r with
  | Some (l, r') => Some (JObj l, r')
  | None => None
  end.
Proof.
  intros Hr. simpl. rewrite Hr. simpl.
  by destruct (parse_members f r) as [[? ?]|].
Qed.

Definition commit_safe (c : Commit.t) : bool :=
  quote_safe (Commit.hash c) && quote_safe (Commit.message c)
  && all_quote_safe (Commit.parent c) && tags_safe (Commit.tags c).

Lemma parse_commit_text c ms f :
  Commit.date c = DateMs ms →
  commit_safe c = true →
  (2 * String.length (commit_text c) < f)%nat →
  parse_value f (commit_text c) = Some (JObj (commit_props ms c), EmptyString).
Proof.
  intros Hd Hsafe Hf. unfold commit_safe in Hsafe.
  apply andb_prop in Hsafe as [Hsafe Ht]. apply andb_prop in Hsafe as [Hsafe Hp].
  apply andb_prop in Hsafe as [Hh Hm].
  unfold commit_text, tree_toString in Hf. text_len Hf.
  rewrite (commit_text_shape _ Hp). rewrite Hd in *. simpl print_time in *.
  set (tail := tags_text (Commit.tags c) +:+ userData_text (Commit.userData c) +:+ "}") in *.
  pose proof (num_end_tail (Commit.tags c) (Commit.userData c)) as Hend. fold tail in Hend.
  pose proof (closes_tail (f - 6) (Commit.tags c) (Commit.userData c) Ht) as Htail.
  fold tail in Htail.
  pose proof (parent_text_stringify _ Hp) as Hpl.
  apply (f_equal String.length) in Hpl. text_len Hpl.
  destruct f as [|f]; [lia|].
  erewrite parse_value_object by (rewrite raw_quote_cons; reflexivity).
  assert (parse_members f
            (raw_quote "hash" +:+ String ":" (String " " (raw_quote (Commit.hash c) +:+ String ","
    (nl_indent +:+
     raw_quote "message" +:+ String ":" (String " " (raw_quote (Commit.message c) +:+ String ","
    (nl_indent +:+
     raw_quote "date" +:+ String ":" (String " " (print_Z ms +:+ String ","
    (nl_indent +:+
     raw_quote "parent" +:+ String ":" (String " "
       (stringify (JArr (map JStr (persisted_parent (Commit.parent c)))) +:+ String "," (String " "
    (raw_quote "root" +:+ String ":"
       (stringify (tree_json (Commit.root c)) +:+ tail)))))))))))))))
          = Some (commit_props ms c, EmptyString)) as ->; [|done].
  unfold commit_props.
  destruct f as [|f]; [lia|].
  rewrite !raw_quote_cons. unfold nl_indent. text_norm.
  eapply parse_members_member; [reflexivity|reflexivity|reflexivity| |].
  { apply parse_value_ws_string; [lia|done|]. by apply parse_string_body_plain. }
  right. eexists. split; [reflexivity|].
  destruct f as [|f]; [lia|].
  eapply parse_members_member; [reflexivity|reflexivity|reflexivity| |].
  { apply parse_value_ws_string; [lia|done|]. by apply parse_string_body_plain. }
  right. eexists. split; [reflexivity|].
  destruct f as [|f]; [lia|].
  eapply parse_members_member; [reflexivity|reflexivity|reflexivity| |].
  { rewrite parse_value_ws by done.
    apply (parse_stringify (JNum ms)); [done|simpl stringify; lia]. }
  right. eexists. split; [reflexivity|].
  destruct f as [|f]; [lia|].
  eapply parse_members_member; [reflexivity|reflexivity|reflexivity| |].
  { rewrite parse_value_ws by done. apply parse_stringify; [done|lia]. }
  right. eexists. split; [reflexivity|].
  destruct f as [|f]; [lia|].
  eapply parse_members_member; [reflexivity|reflexivity|reflexivity| |].
  { apply parse_stringify; [done|lia]. }
  replace f with (S (S (S (S (S (S f)))))  - 6)%nat by lia.
  apply Htail. lia.
Qed.

(** The persisted text of a commit whose strings are safe between quotes
    parses to the record of its properties. *)
Theorem JSON_parse_commit_text c ms :
  Commit.date c = DateMs ms →
  commit_safe c = true →
  JSON_parse (commit_text c) = Ok (JObj (commit_props ms c)).
Proof.
  intros Hd Hs. unfold JSON_parse.
  rewrite (parse_commit_text c ms _ Hd Hs); [done|lia].
Qed.

(** ** What [writeCommit] persists *)

Definition version_path (odb : Odb) (c : Commit.t) : path :=
  join (join (odb_commondir odb) ["versions"%string]) [Commit.hash c].

Lemma writeCommit_run odb c :
  writeCommit odb c = fse.writeFile (version_path odb c) (commit_text c).
Proof. reflexivity. Qed.

Lemma commit_props_fixed ms c k :
  k ≠ "tags"%string → k ≠ "userData"%string →
  lookup_prop k (commit_props ms c) =
  lookup_prop k [("hash"%string, JStr (Commit.hash c));
                 ("message"%string, JStr (Commit.message c));
                 ("date"%string, JNum ms);
                 ("parent"%string, JArr (map JStr (persisted_parent (Commit.parent c))));
                 ("root"%string, tree_json (Commit.root c))].
Proof.
  intros Ht Hu. unfold commit_props, tags_props, userData_props.
  apply String.eqb_neq in Ht, Hu.
  destruct (Commit.tags c) as [l|]; destruct (Commit.userData c) as [v|];
    try destruct (truthy v); simpl; rewrite ?Ht, ?Hu; reflexivity.
Qed.

Lemma commit_props_tags ms c :
  lookup_prop "tags" (commit_props ms c) =
  match Commit.tags c with
  | Some l => Some (JArr (map JStr l))
  | None => None
  end.
Proof.
  unfold commit_props, tags_props, userData_props.
  destruct (Commit.tags c) as [l|]; destruct (Commit.userData c) as [v|];
    try destruct (truthy v); reflexivity.
Qed.

(** C7, at the input where the code departs from it: the record that
    [writeCommit] writes for a commit without parents carries a parent
    array of one element, the empty string, where an empty array is
    called for. *)
Theorem writeCommit_no_parent_persists_empty_string odb c ms :
  Commit.date c = DateMs ms →
  commit_safe c = true →
  Commit.parent c = [] →
  writeCommit odb c = fse.writeFile (version_path odb c) (commit_text c) ∧
  ∃ ps, JSON_parse (commit_text c) = Ok (JObj ps) ∧
        lookup_prop "parent" ps = Some (JArr [JStr EmptyString]) ∧
        lookup_prop "parent" ps ≠ Some (JArr []).
Proof.
  intros Hd Hs Hp. split; [reflexivity|].
  exists (commit_props ms c). split; [by apply JSON_parse_commit_text|].
  rewrite commit_props_fixed by done. rewrite Hp. simpl. done.
Qed.


Definition ex_tree : tree :=
  TreeDir EmptyString
    [TreeFile "a.txt" "1f3a"; TreeDir "sub" [TreeFile "b.bin" "77c0"; TreeDir "empty" []]].

Definition ex_commit (parent : list string) (tags : option (list string)) : Commit.t :=
  Commit.mk "c0ffee" "first commit" (DateMs 1612345678901) parent ex_tree tags None.

Lemma writeCommit_no_parent_witness :
  ∃ ps, JSON_parse (commit_text (ex_commit [] None)) = Ok (JObj ps) ∧
        lookup_prop "parent" ps = Some (JArr [JStr EmptyString]) ∧
        lookup_prop "parent" ps ≠ Some (JArr []).
Proof.
  exact (proj2 (writeCommit_no_parent_persists_empty_string ex_odb (ex_commit [] None)
                  1612345678901 eq_refl eq_refl eq_refl)).
Defined.

(** C6, at the input where the code departs from it: for a commit whose
    tags are an empty collection, [writeCommit] writes a tags field, and
    the record read back has an empty tags array. *)
Theorem writeCommit_empty_tags_are_persisted odb c ms :
  Commit.date c = DateMs ms →
  commit_safe c = true →
  Commit.tags c = Some [] →
  writeCommit odb c = fse.writeFile (version_path odb c) (commit_text c) ∧
  tags_text (Commit.tags c) = "," +:+ raw_quote "tags" +:+ ": [ ]" ∧
  ∃ ps, JSON_parse (commit_text c) = Ok (JObj ps) ∧
        lookup_prop "tags" ps = Some (JArr []).
Proof.
  intros Hd Hs Ht. split; [reflexivity|]. split; [by rewrite Ht|].
  exists (commit_props ms c). split; [by apply JSON_parse_commit_text|].
  rewrite commit_props_tags, Ht. done.
Qed.

Lemma writeCommit_empty_tags_witness :
  ∃ ps, JSON_parse (commit_text (ex_commit ["a11ce"%string] (Some []))) = Ok (JObj ps) ∧
        lookup_prop "tags" ps = Some (JArr []).
Proof.
  exact (proj2 (proj2 (writeCommit_empty_tags_are_persisted ex_odb
                  (ex_commit ["a11ce"%string] (Some [])) 1612345678901 eq_refl eq_refl eq_refl))).
Defined.


(** ** Reviving a tree *)

Section tree_induction.
Variable P : tree → Prop.
Hypothesis Hfile : ∀ name hash, P (TreeFile name hash).
Hypothesis Hdir : ∀ name children, Forall P children → P (TreeDir name children).

Fixpoint tree_induction (t : tree) : P t :=
    match t with
    | TreeFile name hash => Hfile name hash
    | TreeDir name children =>
        Hdir name children
          ((fix go (l : list tree) : Forall P l :=
              match l with
              | [] => @List.Forall_nil _ P
              | x :: l' => @List.Forall_cons _ P x l' (tree_induction x) (go l')
              end) children)
    end.
End tree_induction.

(** The node [readCommits] revives from the persisted form of a tree. *)
Fixpoint revived (t : tree) : node :=
  match t with
  | TreeFile name hash => NFile [("name"%string, JStr name); ("hash"%string, JStr hash)]
  | TreeDir name children => NDir [("name"%string, JStr name)] (map revived children)
  end.

Lemma result_map_ok {A B} (f : A → result B) (g : A → B) l :
  Forall (λ a, f a = Ok (g a)) l → result_map f l = Ok (map g l).
Proof.
  induction 1 as [|a l Ha _ IH]; simpl; [done|]. by rewrite Ha, IH.
Qed.

Lemma depth_children name children c :
  c ∈ children →
  (depth (tree_json c) + 2 ≤ depth (tree_json (TreeDir name children)))%nat.
Proof.
  intros Hin. simpl.
  assert (depth (tree_json c)
          ≤ fold_right (λ x acc, Nat.max (depth x) acc) O (map tree_json children))%nat.
  { induction children as [|x l IH]; [by apply elem_of_nil in Hin|].
    apply elem_of_cons in Hin as [->|Hin]; simpl; [lia|].
    specialize (IH Hin). lia. }
  lia.
Qed.

Lemma result_map_map {A B C} (f : B → result C) (h : A → B) l :
  result_map f (map h l) = result_map (λ a, f (h a)) l.
Proof. induction l as [|a l IH]; simpl; [done|]. by rewrite IH. Qed.

Lemma visit_go_tree t :
  ∀ f, (depth (tree_json t) ≤ f)%nat → visit_go f (Some (tree_json t)) = Ok (revived t).
Proof.
  induction t as [name hash|name children IH] using tree_induction; intros f Hf.
  - destruct f as [|f]; [simpl in Hf; lia|]. reflexivity.
  - destruct f as [|f]; [simpl in Hf; lia|].
    assert (result_map (λ c, visit_go f (Some c)) (map tree_json children)
            = Ok (map revived children)) as Hm.
    { rewrite result_map_map. apply result_map_ok.
      rewrite Forall_forall in IH. apply Forall_forall. intros c Hc.
      apply IH; [done|]. pose proof (depth_children name children c Hc). lia. }
    simpl. simpl in Hm. rewrite Hm. reflexivity.
Qed.

Lemma visit_tree t : visit (Some (tree_json t)) = Ok (revived t).
Proof. unfold visit. apply visit_go_tree. lia. Qed.

(** The revived node stands for the tree that was persisted: same kind
    of node at every place, same order of children, same names and
    hashes. *)
Lemma node_tree_revived t : node_tree (revived t) = Some t.
Proof.
  induction t as [name hash|name children IH] using tree_induction; [reflexivity|].
  simpl. induction IH as [|c l Hc _ IHl]; [reflexivity|].
  simpl. rewrite Hc. simpl.
  destruct ((fix go (l : list node) : option (list tree) :=
               match l with
               | [] => Some []
               | c :: l' => t ← node_tree c; ts ← go l'; Some (t :: ts)
               end) (map revived l)) as [ts|]; simpl in *; [|discriminate].
  by inversion IHl.
Qed.

(** ** Hashes as path segments *)

Definition is_hex (c : ascii) : bool :=
  match hex_val c with Some _ => true | None => false end.

Fixpoint hex_string (s : string) : bool :=
  match s with
  | EmptyString => true
  | String c s' => is_hex c && hex_string s'
  end.

(** A hash as the hashers print it: hexadecimal digits, at least one. *)
Definition is_hash (s : string) : bool :=
  negb (String.eqb s EmptyString) && hex_string s.

Lemma is_hex_plain c : is_hex c = true → plain_char c = true ∧ Ascii.eqb c sep = false.
Proof. destruct c as [[] [] [] [] [] [] [] []]; done. Qed.

Lemma hex_string_quote_safe s : hex_string s = true → quote_safe s = true.
Proof.
  induction s as [|c s IH]; [done|]. simpl. intros H.
  apply andb_prop in H as [Hc Hs]. apply is_hex_plain in Hc as [-> _]. by apply IH.
Qed.

Lemma is_hash_quote_safe s : is_hash s = true → quote_safe s = true.
Proof.
  unfold is_hash. intros H. apply andb_prop in H as [_ H]. by apply hex_string_quote_safe.
Qed.

Lemma split_sep_go_hex cur s :
  hex_string s = true → split_sep_go cur s = [cur +:+ s].
Proof.
  revert cur. induction s as [|c s IH]; intros cur H; simpl.
  - by rewrite sapp_nil_r.
  - simpl in H. apply andb_prop in H as [Hc Hs].
    apply is_hex_plain in Hc as [_ ->]. rewrite (IH _ Hs).
    by rewrite sapp_assoc.
Qed.

Lemma join_hash p s : is_hash s = true → join p [s] = p ++ [s].
Proof.
  unfold is_hash. intros H. apply andb_prop in H as [Hne Hs].
  unfold join, split_sep. simpl. rewrite (split_sep_go_hex _ _ Hs). simpl.
  apply join_seg_plain.
  - apply negb_true_iff in Hne. by apply String.eqb_neq in Hne.
  - intros ->. discriminate.
  - intros ->. discriminate.
Qed.

Lemma hex_string_substring n m s : hex_string s = true → hex_string (substring n m s) = true.
Proof.
  revert n m. induction s as [|c s IH]; intros n m H.
  - by destruct n, m.
  - simpl in H. apply andb_prop in H as [Hc Hs].
    destruct n as [|n]; [destruct m as [|m]; [done|]|]; simpl.
    + by rewrite Hc, IH.
    + by apply IH.
Qed.

(** ** The files of a directory *)

Lemma elem_of_fs_files_in (d : path) (m : fs) (p : path) :
  p ∈ fs_files_in d m ↔ ∃ c, m !! p = Some (File c) ∧ p ≠ [] ∧ dirname p = d.
Proof.
  unfold fs_files_in. rewrite list_elem_of_omap. split.
  - intros ([k e] & Hin & H). apply elem_of_map_to_list in Hin. simpl in H.
    destruct e as [c|]; [|discriminate].
    destruct (decide _) as [[Hne Hd]|]; [|discriminate]. inversion H; subst.
    by exists c.
  - intros (c & Hl & Hne & Hd). exists (p, File c). split.
    + by apply elem_of_map_to_list.
    + simpl. by rewrite decide_True.
Qed.

(** ** [readCommits] after [writeCommit] *)

Lemma result_map_total {A B} (f : A → result B) l :
  (∀ a, a ∈ l → ∃ b, f a = Ok b) →
  ∃ bs, result_map f l = Ok bs ∧ Forall2 (λ a b, f a = Ok b) l bs.
Proof.
  induction l as [|a l IH]; intros H; simpl.
  - exists []. by split.
  - destruct (H a) as [b Hb]; [by left|].
    destruct IH as (bs & Hbs & HF); [intros x Hx; apply H; by right|].
    exists (b :: bs). rewrite Hb, Hbs. split; [done|]. by constructor.
Qed.

Lemma Forall2_elem_l {A B} (R : A → B → Prop) l k a :
  Forall2 R l k → a ∈ l → ∃ b, b ∈ k ∧ R a b.
Proof.
  induction 1 as [|x y l k Hxy _ IH]; intros Hin; [by apply elem_of_nil in Hin|].
  apply elem_of_cons in Hin as [->|Hin].
  - exists y. split; [by left|done].
  - destruct (IH Hin) as (b & Hb & HR). exists b. split; [by right|done].
Qed.

Lemma Forall2_elem_r {A B} (R : A → B → Prop) l k b :
  Forall2 R l k → b ∈ k → ∃ a, a ∈ l ∧ R a b.
Proof.
  induction 1 as [|x y l k Hxy _ IH]; intros Hin; [by apply elem_of_nil in Hin|].
  apply elem_of_cons in Hin as [->|Hin].
  - exists x. split; [by left|done].
  - destruct (IH Hin) as (a & Ha & HR). exists a. split; [by right|done].
Qed.

(** One of the reads that [readCommits] starts. *)
Definition read_parse (p : path) : IO json :=
  let* buf := fse.readFile p in lift (JSON_parse buf).

Definition parsed (m : fs) (p : path) : result json :=
  match fs_readFile m p with
  | Ok c => JSON_parse c
  | Err e => Err e
  end.

Lemma start_all_cons {A} (m : IO A) ms w :
  start_all (m :: ms) w =
  ((start_all ms (m w).1).1, (m w).2 :: (start_all ms (m w).1).2).
Proof.
  simpl. destruct (m w) as [w1 r]. simpl. by destruct (start_all ms w1).
Qed.

Lemma read_parse_run p w :
  read_parse p w = (logged w (EvReadFile p), parsed (w_fs w) p).
Proof.
  unfold read_parse, bind, parsed. rewrite readFile_run.
  by destruct (fs_readFile (w_fs w) p).
Qed.

Lemma start_all_reads files w :
  w_fs (start_all (map read_parse files) w).1 = w_fs w ∧
  (start_all (map read_parse files) w).2 = map (parsed (w_fs w)) files.
Proof.
  revert w. induction files as [|p files IH]; intros w; [done|].
  rewrite map_cons, start_all_cons, read_parse_run. simpl.
  destruct (IH (logged w (EvReadFile p))) as [H1 H2].
  by rewrite H1, H2.
Qed.

Lemma sequence_map {A B} (f : A → result B) l : sequence (map f l) = result_map f l.
Proof.
  induction l as [|a l IH]; simpl; [done|]. rewrite IH. by destruct (f a).
Qed.

Lemma Promise_all_reads files w :
  w_fs (Promise_all (map read_parse files) w).1 = w_fs w ∧
  (Promise_all (map read_parse files) w).2 = result_map (parsed (w_fs w)) files.
Proof.
  unfold Promise_all. pose proof (start_all_reads files w) as [H1 H2].
  destruct (start_all (map read_parse files) w) as [w' rs]. simpl in *.
  by rewrite H1, H2, sequence_map.
Qed.

(** A file of the commit store that [readCommits] can take in. *)
Definition readable (Date_convert : json → jsdate) (odb : Odb) (content : string) : Prop :=
  ∃ v rc, JSON_parse content = Ok v ∧ revive Date_convert odb v = Ok rc.

Definition versions_dir (odb : Odb) : path := odb_commondir odb ++ ["versions"%string].

Lemma readCommits_eq Date_convert odb :
  readCommits Date_convert odb =
  (let* value := osWalk (versions_dir odb) in
   let* commits := Promise_all (map read_parse value) in
   lift (result_map (revive Date_convert odb) commits)).
Proof. reflexivity. Qed.

Lemma osWalk_run d w :
  osWalk d w =
  (logged w (EvWalk d),
   if fs_is_dir (w_fs w) d then Ok (fs_files_in d (w_fs w)) else Err (SysError ENOENT d)).
Proof. reflexivity. Qed.

Lemma readCommits_run Date_convert odb w :
  fs_is_dir (w_fs w) (versions_dir odb) = true →
  (∀ p content, w_fs w !! p = Some (File content) → p ≠ [] →
                dirname p = versions_dir odb → readable Date_convert odb content) →
  ∃ w' commits,
    readCommits Date_convert odb w = (w', Ok commits) ∧
    w_fs w' = w_fs w ∧
    ∀ p content v rc,
      w_fs w !! p = Some (File content) → p ≠ [] → dirname p = versions_dir odb →
      JSON_parse content = Ok v → revive Date_convert odb v = Ok rc →
      rc ∈ commits.
Proof.
  intros Hdir Hread. rewrite readCommits_eq.
  set (w0 := logged w (EvWalk (versions_dir odb))).
  set (files := fs_files_in (versions_dir odb) (w_fs w)).
  rewrite (bind_run _ _ w w0 files) by (by rewrite osWalk_run, Hdir).
  pose proof (Promise_all_reads files w0) as [Hfs Hres].
  destruct (Promise_all (map read_parse files) w0) as [w1 r] eqn:E. simpl in Hfs, Hres.
  subst r.
  destruct (result_map_total (parsed (w_fs w)) files) as (vs & Hvs & HF1).
  { intros p Hp. apply elem_of_fs_files_in in Hp as (c & Hl & Hne & Hd).
    destruct (Hread p c Hl Hne Hd) as (v & rc & Hv & _).
    exists v. unfold parsed, fs_readFile. destruct p; [done|]. by rewrite Hl. }
  rewrite Hvs in E. rewrite (bind_run _ _ w0 w1 vs E). unfold lift.
  destruct (result_map_total (revive Date_convert odb) vs) as (cs & Hcs & HF2).
  { intros v Hv. destruct (Forall2_elem_r _ _ _ _ HF1 Hv) as (p & Hp & Hpv).
    apply elem_of_fs_files_in in Hp as (c & Hl & Hne & Hd).
    destruct (Hread p c Hl Hne Hd) as (v' & rc & Hv' & Hrc).
    exists rc. unfold parsed, fs_readFile in Hpv. destruct p; [done|].
    rewrite Hl in Hpv. congruence. }
  exists w1, cs. rewrite Hcs. split; [done|]. split; [done|].
  intros p content v rc Hl Hne Hd Hv Hrc.
  assert (p ∈ files) as Hp by (apply elem_of_fs_files_in; eauto).
  destruct (Forall2_elem_l _ _ _ _ HF1 Hp) as (v' & Hv' & Hpv).
  unfold parsed, fs_readFile in Hpv. destruct p; [done|]. rewrite Hl in Hpv.
  assert (v' = v) as -> by congruence.
  destruct (Forall2_elem_l _ _ _ _ HF2 Hv') as (rc' & Hrc' & Hvr).
  assert (rc' = rc) as -> by congruence. done.
Qed.

Lemma dirname_snoc (p : path) s : dirname (p ++ [s]) = p.
Proof. unfold dirname. apply removelast_last. Qed.

Lemma snoc_not_nil (p : path) s : p ++ [s] ≠ [].
Proof. by destruct p. Qed.

Lemma snoc_not_self (p : path) s : p ++ [s] ≠ p.
Proof.
  intros H. apply (f_equal length) in H. rewrite length_app in H. simpl in H. lia.
Qed.

Lemma fs_is_dir_lookup (m : fs) (p : path) s :
  fs_is_dir m (p ++ [s]) = true → m !! (p ++ [s]) = Some Dir.
Proof.
  unfold fs_is_dir. destruct (p ++ [s]) eqn:E; [by destruct p|].
  by destruct (m !! (s0 :: l)) as [[|]|].
Qed.

Lemma revive_commit_props Date_convert odb c ms :
  Z.abs ms ≤ max_time →
  revive Date_convert odb (JObj (commit_props ms c)) =
  Ok {| rc_props := commit_props ms c;
        rc_date := DateMs ms;
        rc_repo := repo odb;
        rc_root := revived (Commit.root c) |}.
Proof.
  intros Hms. unfold revive.
  rewrite !commit_props_fixed by done. simpl lookup_prop.
  rewrite visit_tree. unfold new_Date.
  by destruct (Z.leb_spec (Z.abs ms) max_time); [|lia].
Qed.

(** The hashes of a commit are hashes. *)
Definition commit_hashes (c : Commit.t) : bool :=
  is_hash (Commit.hash c) && forallb is_hash (Commit.parent c).

Lemma commit_hashes_safe c :
  commit_hashes c = true →
  quote_safe (Commit.message c) = true →
  tags_safe (Commit.tags c) = true →
  commit_safe c = true.
Proof.
  unfold commit_hashes, commit_safe. intros H Hm Ht.
  apply andb_prop in H as [Hh Hp].
  rewrite (is_hash_quote_safe _ Hh), Hm, Ht. simpl. rewrite andb_true_r.
  unfold all_quote_safe. apply forallb_forall. intros x Hx.
  rewrite forallb_forall in Hp. apply is_hash_quote_safe. by apply Hp.
Qed.

(** C3: a commit whose message and tags are safe between quotes is
    written, and every commit is read back; among them is one with the
    hash of the commit, whose revived tree is the tree of the commit
    (same kind of node at every place, same order of children, same
    names and file hashes) and whose date is the same point in time. *)
Theorem writeCommit_readCommits_roundtrip Date_convert odb c ms w :
  quote_safe (Commit.message c) = true →
  tags_safe (Commit.tags c) = true →
  commit_hashes c = true →
  Commit.date c = DateMs ms → Z.abs ms ≤ max_time →
  fs_is_dir (w_fs w) (versions_dir odb) = true →
  w_fs w !! (versions_dir odb ++ [Commit.hash c]) ≠ Some Dir →
  (∀ p content, p ≠ versions_dir odb ++ [Commit.hash c] →
                w_fs w !! p = Some (File content) → dirname p = versions_dir odb →
                readable Date_convert odb content) →
  ∃ w1 w2 commits rc,
    writeCommit odb c w = (w1, Ok tt) ∧
    readCommits Date_convert odb w1 = (w2, Ok commits) ∧
    rc ∈ commits ∧
    lookup_prop "hash" (rc_props rc) = Some (JStr (Commit.hash c)) ∧
    node_tree (rc_root rc) = Some (Commit.root c) ∧
    rc_date rc = Commit.date c.
Proof.
  intros Hm Ht Hh Hd Hms Hdir Hnd Hothers.
  pose proof (commit_hashes_safe c Hh Hm Ht) as Hsafe.
  pose proof (JSON_parse_commit_text c ms Hd Hsafe) as Hparse.
  pose proof (revive_commit_props Date_convert odb c ms Hms) as Hrev.
  unfold commit_hashes in Hh. apply andb_prop in Hh as [Hhash _].
  set (dst := versions_dir odb ++ [Commit.hash c]) in *.
  assert (version_path odb c = dst) as Hdst.
  { unfold version_path. by rewrite (join_hash _ _ Hhash). }
  set (m1 := <[dst := File (commit_text c)]> (w_fs w)).
  set (w1 := World m1 (w_log w ++ [EvWriteFile dst (commit_text c)])).
  assert (writeCommit odb c w = (w1, Ok tt)) as Hwrite.
  { rewrite writeCommit_run, Hdst, writeFile_run.
    rewrite fs_writeFile_ok; [done|apply snoc_not_nil|done|].
    unfold dst. by rewrite dirname_snoc. }
  destruct (readCommits_run Date_convert odb w1) as (w2 & commits & Hread & _ & Hin).
  - simpl. unfold versions_dir in *. apply fs_is_dir_lookup in Hdir.
    unfold fs_is_dir. destruct (odb_commondir odb ++ ["versions"%string]) eqn:E; [done|].
    unfold m1. rewrite lookup_insert_ne; [by rewrite Hdir|].
    unfold dst. rewrite <- E. apply snoc_not_self.
  - intros p content Hl Hne Hdn. simpl in Hl. unfold m1 in Hl.
    destruct (decide (p = dst)) as [->|Hp].
    + rewrite lookup_insert_eq in Hl. inversion Hl; subst content.
      eexists _, _. split; [exact Hparse|exact Hrev].
    + rewrite lookup_insert_ne in Hl by done. by eapply Hothers.
  - eexists w1, w2, commits, _. split; [exact Hwrite|]. split; [exact Hread|].
    split.
    + eapply (Hin dst (commit_text c)); [|apply snoc_not_nil| |exact Hparse|exact Hrev].
      * simpl. unfold m1. by rewrite lookup_insert_eq.
      * unfold dst. by rewrite dirname_snoc.
    + cbn [rc_props rc_root rc_date].
      split; [by rewrite commit_props_fixed|].
      split; [apply node_tree_revived|done].
Qed.

Definition no_date (v : json) : jsdate := InvalidDate.

Lemma writeCommit_readCommits_roundtrip_witness :
  ∃ w1 w2 commits rc,
    writeCommit ex_odb (ex_commit ["a11ce"%string] (Some ["v1"%string; "stable"%string]))
      (create ex_repo ex_options (World ∅ [])).1 = (w1, Ok tt) ∧
    readCommits no_date ex_odb w1 = (w2, Ok commits) ∧
    rc ∈ commits ∧
    lookup_prop "hash" (rc_props rc) = Some (JStr "c0ffee") ∧
    node_tree (rc_root rc) = Some ex_tree ∧
    rc_date rc = DateMs 1612345678901.
Proof.
  apply (writeCommit_readCommits_roundtrip no_date ex_odb
           (ex_commit ["a11ce"%string] (Some ["v1"%string; "stable"%string]))
           1612345678901 (create ex_repo ex_options (World ∅ [])).1);
    try reflexivity.
  - vm_compute. discriminate.
  - vm_compute. discriminate.
  - intros p content Hne Hl Hd. exfalso.
    assert (p ∈ fs_files_in (versions_dir ex_odb)
                  (w_fs (create ex_repo ex_options (World ∅ [])).1)) as Hin.
    { apply elem_of_fs_files_in. exists content. split; [done|]. split; [|done].
      intros ->. discriminate. }
    vm_compute in Hin. by apply elem_of_nil in Hin.
Defined.

(** ** Plain path segments *)

Fixpoint no_sep (s : string) : bool :=
  match s with
  | EmptyString => true
  | String c s' => negb (Ascii.eqb c sep) && no_sep s'
  end.

(** A segment that [join] appends as it is. *)
Definition plain_seg (s : string) : bool :=
  negb (String.eqb s EmptyString) && negb (String.eqb s ".")
  && negb (String.eqb s "..") && no_sep s.

Lemma split_sep_go_plain cur s : no_sep s = true → split_sep_go cur s = [cur +:+ s].
Proof.
  revert cur. induction s as [|c s IH]; intros cur H; simpl.
  - by rewrite sapp_nil_r.
  - simpl in H. apply andb_prop in H as [Hc Hs]. apply negb_true_iff in Hc.
    rewrite Hc, (IH _ Hs). by rewrite sapp_assoc.
Qed.

Lemma join_plain p segs : forallb plain_seg segs = true → join p segs = p ++ segs.
Proof.
  unfold join. revert p. induction segs as [|s segs IH]; intros p H; simpl.
  - by rewrite app_nil_r.
  - simpl in H. apply andb_prop in H as [Hs Hsegs].
    unfold plain_seg in Hs. apply andb_prop in Hs as [Hs Hsep].
    apply andb_prop in Hs as [Hs H2]. apply andb_prop in Hs as [H0 H1].
    apply negb_true_iff in H0, H1, H2. apply String.eqb_neq in H0, H1, H2.
    unfold split_sep. rewrite (split_sep_go_plain _ _ Hsep), sapp_nil_l. simpl.
    rewrite (join_seg_plain p s H0 H1 H2).
    rewrite (IH _ Hsegs). by rewrite <- app_assoc.
Qed.

Lemma hex_string_no_sep s : hex_string s = true → no_sep s = true.
Proof.
  induction s as [|c s IH]; [done|]. simpl. intros H.
  apply andb_prop in H as [Hc Hs]. apply is_hex_plain in Hc as [_ ->]. by apply IH.
Qed.

Lemma is_hash_plain_seg s : is_hash s = true → plain_seg s = true.
Proof.
  unfold is_hash, plain_seg. intros H. apply andb_prop in H as [Hne Hs].
  rewrite Hne, (hex_string_no_sep _ Hs).
  destruct s as [|c [|c' [|c'' s]]]; try done;
    simpl in Hs; apply andb_prop in Hs as [Hc Hs];
    destruct c as [[] [] [] [] [] [] [] []]; try done.
Qed.

(** A whole-file hash: hexadecimal digits, enough of them for the two
    shard levels. *)
Definition is_digest (s : string) : bool :=
  (4 <=? String.length s)%nat && hex_string s.

Lemma substring_nonempty n m s :
  (n < String.length s)%nat → (0 < m)%nat → substring n m s ≠ EmptyString.
Proof.
  revert n m. induction s as [|c s IH]; intros n m Hn Hm; simpl in Hn; [lia|].
  destruct n as [|n]; simpl.
  - destruct m; [lia|done].
  - apply IH; lia.
Qed.

Lemma is_digest_shards s :
  is_digest s = true →
  is_hash (substring 0 2 s) = true ∧ is_hash (substring 2 2 s) = true ∧ is_hash s = true.
Proof.
  unfold is_digest, is_hash. intros H. apply andb_prop in H as [Hl Hs].
  apply Nat.leb_le in Hl.
  rewrite !hex_string_substring, Hs by done. rewrite !andb_true_r.
  repeat split; apply negb_true_iff, String.eqb_neq.
  - apply substring_nonempty; lia.
  - apply substring_nonempty; lia.
  - intros ->. simpl in Hl. lia.
Qed.

(** Where the object of a hash is kept, and what lies next to it. *)
Definition shard_dir (odb : Odb) (h : string) : path :=
  odb_commondir odb ++ ["objects"%string; substring 0 2 h; substring 2 2 h].

Definition object_path (odb : Odb) (h : string) : path := shard_dir odb h ++ [h].

Definition sidecar_path (odb : Odb) (h : string) : path :=
  shard_dir odb h ++ [h +:+ ".hblock"].

Definition tmp_dir (odb : Odb) : path := odb_commondir odb ++ ["tmp"%string].

Definition tmp_path (odb : Odb) (name : string) : path := tmp_dir odb ++ [name].

Lemma getObjectPath_digest odb h :
  is_digest h = true → getObjectPath odb h = object_path odb h.
Proof.
  intros H. apply is_digest_shards in H as (Ha & Hb & Hh).
  unfold getObjectPath, object_path, shard_dir.
  change (join (odb_commondir odb) ["objects"%string]) with (odb_commondir odb ++ ["objects"%string]).
  rewrite join_plain.
  - by rewrite <- !app_assoc.
  - simpl. by rewrite !is_hash_plain_seg.
Qed.

Lemma join_object_path odb h :
  is_digest h = true →
  join (odb_commondir odb) ["objects"%string; substring 0 2 h; substring 2 2 h; h]
  = object_path odb h.
Proof.
  intros H. apply is_digest_shards in H as (Ha & Hb & Hh).
  unfold object_path, shard_dir. rewrite join_plain.
  - by rewrite <- !app_assoc.
  - simpl. by rewrite !is_hash_plain_seg.
Qed.

Lemma add_suffix_snoc (p : path) s ext : add_suffix (p ++ [s]) ext = p ++ [s +:+ ext].
Proof.
  unfold add_suffix. destruct (p ++ [s]) eqn:E; [by destruct p|].
  rewrite <- E. by rewrite removelast_last, last_last.
Qed.

Lemma join_tmp_path odb name :
  is_hash name = true →
  join (join (odb_commondir odb) ["tmp"%string]) [name] = tmp_path odb name.
Proof.
  intros H. unfold tmp_path, tmp_dir.
  change (join (odb_commondir odb) ["tmp"%string]) with (odb_commondir odb ++ ["tmp"%string]).
  by apply join_hash.
Qed.

(** ** [writeObject], step by step *)

Lemma bind_emit_update {B} e f (k : unit → IO B) w :
  bind (emit e ;; update f) k w =
  match f (w_fs w) with
  | Ok m' => k tt (World m' (w_log w ++ [e]))
  | Err x => (logged w e, Err x)
  end.
Proof. unfold bind, emit, update. simpl. by destruct (f (w_fs w)). Qed.

Lemma bind_calculateFileHash {B} hasher p (k : string * option (list HashBlock) → IO B) w :
  bind (calculateFileHash hasher p) k w =
  match fs_readFile (w_fs w) p with
  | Ok c => k (hasher c) (logged w (EvHashFile p))
  | Err x => (logged w (EvHashFile p), Err x)
  end.
Proof.
  unfold calculateFileHash, bind, emit, observe, ret. simpl.
  by destruct (fs_readFile (w_fs w) p).
Qed.

Lemma fs_writeFile_inv p c m m' :
  fs_writeFile p c m = Ok m' →
  m' = <[p := File c]> m ∧ p ≠ [] ∧ m !! p ≠ Some Dir ∧ fs_is_dir m (dirname p) = true.
Proof.
  unfold fs_writeFile. intros H. destruct p as [|s p]; [discriminate|].
  destruct (m !! (s :: p)) as [[c'|]|] eqn:E; try discriminate;
    destruct (fs_is_dir m (dirname (s :: p))); try discriminate;
    inversion H; done.
Qed.

Lemma fs_readFile_ensureDir p m m1 q c :
  fs_ensureDir p m = Ok m1 → fs_readFile m q = Ok c → fs_readFile m1 q = Ok c.
Proof.
  intros H. unfold fs_readFile. destruct q as [|s q]; [done|].
  destruct (m !! (s :: q)) as [[c'|]|] eqn:E; try discriminate.
  by rewrite (mkdirp_from_keeps _ _ _ _ _ _ H E).
Qed.

Lemma fs_readFile_insert (m : fs) (p q : path) c :
  p ≠ [] →
  fs_readFile (<[p := File c]> m) q = if decide (p = q) then Ok c else fs_readFile m q.
Proof.
  intros Hp. unfold fs_readFile. destruct (decide (p = q)) as [->|Hne].
  - destruct q; [done|]. by rewrite lookup_insert_eq.
  - destruct q; [done|]. by rewrite lookup_insert_ne.
Qed.

(** The step of [writeObject] that puts the temporary copy in place or
    throws it away, and the call it is. *)
Definition transfer (deflate : string → string) (odb : Odb) (tmp dst : path) (m : fs)
  : result fs :=
  if fs_exists m dst then Ok (fs_remove tmp m)
  else if compress (options (repo odb)) then fs_zipFile deflate tmp dst true m
  else fs_move tmp dst m.

Definition transfer_event (odb : Odb) (tmp dst : path) (m : fs) : event :=
  if fs_exists m dst then EvRemove tmp
  else if compress (options (repo odb)) then EvZipFile tmp dst
  else EvMove tmp dst.

Definition hblock_text (blocks : list HashBlock) : string :=
  join_with (String "010" EmptyString) (map hblock_line blocks).

Lemma sidecar_step {A} (blocks : option (list HashBlock)) (side : path) (x : A) w3 w' r :
  (match blocks with
   | Some bl => fse.writeFile side (join_with (String "010" EmptyString) (map hblock_line bl))
   | None => ret tt
   end ;; ret x) w3 = (w', Ok r) →
  match blocks with
  | Some bl => fs_writeFile side (hblock_text bl) (w_fs w3) = Ok (w_fs w')
  | None => w_fs w' = w_fs w3
  end ∧
  r = x ∧
  w_log w' = w_log w3 ++ match blocks with
                         | Some bl => [EvWriteFile side (hblock_text bl)]
                         | None => []
                         end.
Proof.
  intros H. destruct blocks as [bl|].
  - rewrite bind_writeFile in H. fold (hblock_text bl) in H.
    destruct (fs_writeFile side (hblock_text bl) (w_fs w3)) as [m4|e]; [|discriminate].
    by inversion H.
  - inversion H; subst. by rewrite app_nil_r.
Qed.

Section writeObject_steps.
Variable sha256hex : string → string.
Variable hasher : string → string * option (list HashBlock).
Variable deflate : string → string.
Variable odb : Odb.
Variable hrtime : string.
Variable filepath : path.
Variable content : string.

Let h := (hasher content).1.
Let blocks := (hasher content).2.
Let tmp := tmp_path odb (sha256hex hrtime).
Let dst := object_path odb h.

Hypothesis tmp_name : is_hash (sha256hex hrtime) = true.
Hypothesis digest : is_digest h = true.

Lemma writeObject_inv w w' r :
    fs_readFile (w_fs w) filepath = Ok content →
    writeObject sha256hex hasher deflate odb hrtime filepath posix_io w = (w', Ok r) →
    ∃ m1 m2 m3,
      fs_ensureDir (tmp_dir odb) (w_fs w) = Ok m1 ∧
      fs_writeFile tmp content m1 = Ok m2 ∧
      transfer deflate odb tmp dst m2 = Ok m3 ∧
      match blocks with
      | Some bl => fs_writeFile (sidecar_path odb h) (hblock_text bl) m3 = Ok (w_fs w')
      | None => w_fs w' = m3
      end ∧
      r = (relative (repoWorkDir (repo odb)) filepath, h) ∧
      w_log w' =
      w_log w ++ [EvEnsureDir (tmp_dir odb); EvCopyFile filepath tmp; EvHashFile filepath;
                  EvPathExists dst; transfer_event odb tmp dst m2]
              ++ match blocks with
                 | Some bl => [EvWriteFile (sidecar_path odb h) (hblock_text bl)]
                 | None => []
                 end.
Proof.
    intros Hsrc H. unfold writeObject in H.
    rewrite (join_tmp_path _ _ tmp_name) in H. fold tmp in H.
    change (join (odb_commondir odb) ["tmp"%string]) with (tmp_dir odb) in H.
    rewrite bind_ensureDir in H.
    destruct (fs_ensureDir (tmp_dir odb) (w_fs w)) as [m1|e] eqn:E1; [|discriminate].
    pose proof (fs_readFile_ensureDir _ _ _ _ _ E1 Hsrc) as Hsrc1.
    simpl copyFile in H. rewrite bind_emit_update in H. simpl w_fs in H.
    unfold fs_copyFile in H. rewrite Hsrc1 in H.
    destruct (fs_writeFile tmp content m1) as [m2|e] eqn:E2; [|discriminate].
    pose proof (fs_writeFile_inv _ _ _ _ E2) as (Hm2 & Htmp & _).
    assert (fs_readFile m2 filepath = Ok content) as Hsrc2.
    { rewrite Hm2, fs_readFile_insert by done. by destruct (decide (tmp = filepath)). }
    rewrite bind_calculateFileHash in H. simpl w_fs in H. rewrite Hsrc2 in H.
    fold h in H. fold blocks in H.
    pose proof (is_digest_shards _ digest) as (Ha & Hb & Hh).
    assert (join (join (odb_commondir odb) ["objects"%string])
                 [substring 0 2 h; substring 2 2 h; h] = dst) as Hdst.
    { change (join (odb_commondir odb) ["objects"%string])
        with (odb_commondir odb ++ ["objects"%string]).
      rewrite join_plain by (simpl; by rewrite !is_hash_plain_seg).
      unfold dst, object_path, shard_dir. by rewrite <- !app_assoc. }
    rewrite Hdst in H. rewrite bind_pathExists in H. simpl w_fs in H.
    assert (add_suffix dst ".hblock" = sidecar_path odb h) as Hside
      by apply add_suffix_snoc.
    rewrite Hside in H.
    exists m1, m2.
    unfold transfer, transfer_event.
    destruct (fs_exists m2 dst) eqn:Hex.
    - unfold fse.remove in H. rewrite bind_emit_update in H.
      apply sidecar_step in H as (Hs & -> & Hl). simpl in Hs, Hl.
      exists (fs_remove tmp m2). rewrite Hl, <- !app_assoc. done.
    - destruct (compress (options (repo odb))).
      + unfold zipFile in H. rewrite bind_emit_update in H. simpl w_fs in H.
        destruct (fs_zipFile deflate tmp dst true m2) as [m3|e] eqn:E3; [|discriminate].
        apply sidecar_step in H as (Hs & -> & Hl). simpl in Hs, Hl.
        exists m3. rewrite Hl, <- !app_assoc. done.
      + unfold fse.move in H. rewrite bind_emit_update in H. simpl w_fs in H.
        destruct (fs_move tmp dst m2) as [m3|e] eqn:E3; [|discriminate].
        apply sidecar_step in H as (Hs & -> & Hl). simpl in Hs, Hl.
        exists m3. rewrite Hl, <- !app_assoc. done.
Qed.

End writeObject_steps.

(** ** The temporary area and the object store do not meet *)

Definition objects_dir (odb : Odb) : path := odb_commondir odb ++ ["objects"%string].

Lemma under_objects_not_tmp_prefix (odb : Odb) (p : path) :
  objects_dir odb `prefix_of` p → ¬ p `prefix_of` tmp_dir odb.
Proof.
  intros [k ->] Hpre. unfold objects_dir, tmp_dir in Hpre.
  rewrite <- !app_assoc in Hpre. apply prefix_app_inv in Hpre.
  simpl in Hpre. by apply prefix_cons_inv_1 in Hpre.
Qed.

Lemma tmp_not_prefix_of_objects (odb : Odb) (name : string) (p : path) :
  objects_dir odb `prefix_of` p → ¬ tmp_path odb name `prefix_of` p.
Proof.
  intros [k ->] Hpre. unfold objects_dir, tmp_path, tmp_dir in Hpre.
  rewrite <- !app_assoc in Hpre. apply prefix_app_inv in Hpre.
  simpl in Hpre. by apply prefix_cons_inv_1 in Hpre.
Qed.

Lemma object_path_under_objects odb h : objects_dir odb `prefix_of` object_path odb h.
Proof.
  unfold objects_dir, object_path, shard_dir.
  exists [substring 0 2 h; substring 2 2 h; h]. by rewrite <- !app_assoc.
Qed.

Lemma sidecar_path_under_objects odb h : objects_dir odb `prefix_of` sidecar_path odb h.
Proof.
  unfold objects_dir, sidecar_path, shard_dir.
  exists [substring 0 2 h; substring 2 2 h; h +:+ ".hblock"]. by rewrite <- !app_assoc.
Qed.

Lemma object_not_sidecar odb h : object_path odb h ≠ sidecar_path odb h.
Proof.
  unfold object_path, sidecar_path. intros H. apply app_inv_head in H.
  inversion H as [Hs]. apply (f_equal String.length) in Hs.
  rewrite slength_app in Hs. simpl in Hs. lia.
Qed.

Lemma fs_remove_lookup_other (p q : path) (m : fs) :
  ¬ p `prefix_of` q → fs_remove p m !! q = m !! q.
Proof.
  intros Hn. unfold fs_remove. destruct (m !! q) as [e|] eqn:E.
  - by apply map_lookup_filter_Some.
  - apply map_lookup_filter_None. by left.
Qed.

Lemma fs_remove_lookup_under (p q : path) (m : fs) :
  p `prefix_of` q → fs_remove p m !! q = None.
Proof.
  intros Hp. unfold fs_remove. apply map_lookup_filter_None. right.
  intros e _ Hn. by apply Hn.
Qed.

Lemma fs_ensureDir_tmp_objects (odb : Odb) (m m1 : fs) (p : path) :
  fs_ensureDir (tmp_dir odb) m = Ok m1 → objects_dir odb `prefix_of` p →
  m1 !! p = m !! p.
Proof.
  intros H Hp. destruct (m !! p) as [e|] eqn:E.
  - by apply (mkdirp_from_keeps _ _ _ _ _ _ H).
  - destruct (m1 !! p) as [e|] eqn:E1; [|done]. exfalso.
    destruct (mkdirp_from_adds _ _ _ _ _ _ H E E1) as (_ & k & Hk).
    simpl in Hk. apply (under_objects_not_tmp_prefix odb p Hp).
    rewrite Hk. apply prefix_take.
Qed.

Lemma fs_exists_lookup (m m' : fs) (p : path) :
  m' !! p = m !! p → fs_exists m' p = fs_exists m p.
Proof. intros H. unfold fs_exists. by rewrite H. Qed.

(** Making the temporary directory and copying into it leaves every path
    under [objects] as it was. *)
Lemma staging_leaves_objects (odb : Odb) (name content : string) (m m1 m2 : fs) (p : path) :
  fs_ensureDir (tmp_dir odb) m = Ok m1 →
  fs_writeFile (tmp_path odb name) content m1 = Ok m2 →
  objects_dir odb `prefix_of` p →
  m2 !! p = m !! p.
Proof.
  intros H1 H2 Hp. apply fs_writeFile_inv in H2 as (-> & _).
  rewrite lookup_insert_ne.
  - by eapply fs_ensureDir_tmp_objects.
  - intros <-. by apply (tmp_not_prefix_of_objects odb name _ Hp).
Qed.

(** ** [writeObject] on content that is already stored *)

(** C2, as amended: when an object already exists at the sharded path of
    the content hash, [writeObject] discards the temporary copy and
    leaves the stored blob and everything else under [objects]
    untouched, except that it writes the sidecar again when the hasher
    produced hash blocks (with none, no call follows the removal of the
    copy); it returns the hash and the path relative to the working tree
    that a first write returns. *)
Theorem writeObject_dedup sha256hex hasher deflate odb hrtime filepath content w w' r :
  is_hash (sha256hex hrtime) = true →
  is_digest (hasher content).1 = true →
  fs_readFile (w_fs w) filepath = Ok content →
  fs_exists (w_fs w) (object_path odb (hasher content).1) = true →
  writeObject sha256hex hasher deflate odb hrtime filepath posix_io w = (w', Ok r) →
  let h := (hasher content).1 in
  let tmp := tmp_path odb (sha256hex hrtime) in
  r = (relative (repoWorkDir (repo odb)) filepath, h) ∧
  w_log w' =
  w_log w ++ [EvEnsureDir (tmp_dir odb); EvCopyFile filepath tmp; EvHashFile filepath;
              EvPathExists (object_path odb h); EvRemove tmp]
          ++ match (hasher content).2 with
             | Some bl => [EvWriteFile (sidecar_path odb h) (hblock_text bl)]
             | None => []
             end ∧
  w_fs w' !! tmp = None ∧
  w_fs w' !! object_path odb h = w_fs w !! object_path odb h ∧
  (∀ p, objects_dir odb `prefix_of` p →
        p ≠ sidecar_path odb h ∨ (hasher content).2 = None →
        w_fs w' !! p = w_fs w !! p) ∧
  (∀ bl, (hasher content).2 = Some bl →
         w_fs w' !! sidecar_path odb h = Some (File (hblock_text bl))).
Proof.
  intros Hname Hdigest Hsrc Hex Hrun h tmp.
  destruct (writeObject_inv sha256hex hasher deflate odb hrtime filepath content
              Hname Hdigest w w' r Hsrc Hrun)
    as (m1 & m2 & m3 & E1 & E2 & E3 & Hside & -> & Hlog).
  fold h in Hside, Hlog, E3, Hex. fold tmp in E2, E3, Hlog.
  assert (∀ p, objects_dir odb `prefix_of` p → m2 !! p = w_fs w !! p) as Hobj
    by (intros p Hp; by eapply staging_leaves_objects).
  assert (fs_exists m2 (object_path odb h) = true) as Hex2.
  { erewrite fs_exists_lookup; [exact Hex|]. apply Hobj, object_path_under_objects. }
  unfold transfer in E3. unfold transfer_event in Hlog. rewrite Hex2 in E3, Hlog.
  inversion E3; subst m3. clear E3.
  assert (∀ p, objects_dir odb `prefix_of` p → fs_remove tmp m2 !! p = w_fs w !! p) as Hobj3.
  { intros p Hp. rewrite fs_remove_lookup_other; [by apply Hobj|].
    by apply tmp_not_prefix_of_objects. }
  assert (tmp ≠ sidecar_path odb h) as Hts.
  { intros Heq. apply (tmp_not_prefix_of_objects odb (sha256hex hrtime)
                         (sidecar_path odb h) (sidecar_path_under_objects odb h)).
    fold tmp. by rewrite Heq. }
  split; [done|]. split; [exact Hlog|].
  destruct (hasher content).2 as [bl|] eqn:Hbl.
  - apply fs_writeFile_inv in Hside as (Hw & _). rewrite Hw.
    split; [|split; [|split]].
    + rewrite lookup_insert_ne by done. by apply fs_remove_lookup_under.
    + rewrite lookup_insert_ne by (intros Heq; by apply (object_not_sidecar odb h)).
      apply Hobj3, object_path_under_objects.
    + intros p Hp [Hne|Hnone]; [|discriminate].
      rewrite lookup_insert_ne by done. by apply Hobj3.
    + intros bl' Hbl'. inversion Hbl'; subst. by rewrite lookup_insert_eq.
  - rewrite Hside. split; [|split; [|split]].
    + by apply fs_remove_lookup_under.
    + apply Hobj3, object_path_under_objects.
    + intros p Hp _. by apply Hobj3.
    + intros bl Hbl'. discriminate.
Qed.

(** ** Stand-ins for the collaborators, to run the store on examples *)

Definition hex2 (c : ascii) : string :=
  String (hex_digit (N_of_ascii c / 16)) (String (hex_digit (N_of_ascii c mod 16)) EmptyString).

Fixpoint hex_encode (s : string) : string :=
  match s with
  | EmptyString => EmptyString
  | String c s' => hex2 c +:+ hex_encode s'
  end.

(** A digest that is the text in hexadecimal behind a fixed prefix: not
    a cryptographic hash, but a function of the content with no
    collisions. *)
Definition toy_sha256hex (s : string) : string := "5a17" +:+ hex_encode s.

(** A hasher that also yields one hash block, for the whole file. *)
Definition toy_hasher (content : string) : string * option (list HashBlock) :=
  let h := "0b1e" +:+ hex_encode content in
  (h, Some [{| hb_start := 0; hb_end := Z.of_nat (String.length content); hb_hash := h |}]).

(** A codec that puts a one-byte header before the content. *)
Definition toy_deflate (content : string) : string := String "Z" content.

Definition ex_source : path := ["work"%string; "a.txt"%string].

(** A fresh store next to a working tree with one file in it. *)
Definition ex_world : world :=
  (fse.writeFile ex_source "hello" (create ex_repo ex_options (World ∅ [])).1).1.

(** The same after a first [writeObject] of that file. *)
Definition ex_world_stored : world :=
  (writeObject toy_sha256hex toy_hasher toy_deflate ex_odb "1" ex_source posix_io ex_world).1.

Lemma writeObject_dedup_witness :
  w_fs (writeObject toy_sha256hex toy_hasher toy_deflate ex_odb "2" ex_source posix_io
          ex_world_stored).1 !! object_path ex_odb (toy_hasher "hello").1
  = w_fs ex_world_stored !! object_path ex_odb (toy_hasher "hello").1.
Proof.
  refine (proj1 (proj2 (proj2 (proj2
    (writeObject_dedup toy_sha256hex toy_hasher toy_deflate ex_odb "2" ex_source "hello"
       ex_world_stored
       (writeObject toy_sha256hex toy_hasher toy_deflate ex_odb "2" ex_source posix_io
          ex_world_stored).1
       (["a.txt"%string], (toy_hasher "hello").1)
       eq_refl eq_refl _ _ _))))).
  - vm_compute. reflexivity.
  - vm_compute. reflexivity.
  - vm_compute. reflexivity.
Defined.

(** C2 as the specification words it: once the temporary copy of
    content that is already stored has been discarded, no further call
    is made. *)
Definition dedup_makes_no_further_call : Prop :=
  ∀ sha256hex hasher deflate odb hrtime filepath content w w' r,
    is_hash (sha256hex hrtime) = true →
    is_digest (hasher content).1 = true →
    fs_readFile (w_fs w) filepath = Ok content →
    fs_exists (w_fs w) (object_path odb (hasher content).1) = true →
    writeObject sha256hex hasher deflate odb hrtime filepath posix_io w = (w', Ok r) →
    w_log w' =
    w_log w ++ [EvEnsureDir (tmp_dir odb);
                EvCopyFile filepath (tmp_path odb (sha256hex hrtime));
                EvHashFile filepath;
                EvPathExists (object_path odb (hasher content).1);
                EvRemove (tmp_path odb (sha256hex hrtime))].

(** Writing the same file a second time, with a hasher that yields hash
    blocks, ends in a write of the sidecar. *)
Lemma dedup_rewrites_sidecar : ¬ dedup_makes_no_further_call.
Proof.
  intros H.
  assert (writeObject toy_sha256hex toy_hasher toy_deflate ex_odb "2" ex_source posix_io
            ex_world_stored
          = ((writeObject toy_sha256hex toy_hasher toy_deflate ex_odb "2" ex_source posix_io
                ex_world_stored).1,
             Ok (["a.txt"%string], (toy_hasher "hello").1))) as Hrun
    by (vm_compute; reflexivity).
  assert (fs_readFile (w_fs ex_world_stored) ex_source = Ok "hello"%string) as Hsrc
    by (vm_compute; reflexivity).
  assert (fs_exists (w_fs ex_world_stored) (object_path ex_odb (toy_hasher "hello").1) = true)
    as Hex by (vm_compute; reflexivity).
  specialize (H toy_sha256hex toy_hasher toy_deflate ex_odb "2"%string ex_source
                "hello"%string ex_world_stored _ _ eq_refl eq_refl Hsrc Hex Hrun).
  apply (f_equal length) in H. vm_compute in H. discriminate H.
Qed.


(** ** [writeObject] of new content, and [readObject] *)

Lemma fs_unlink_inv (p : path) (m m' : fs) :
  fs_unlink p m = Ok m' → m' = delete p m.
Proof.
  unfold fs_unlink. destruct p as [|s p]; [discriminate|].
  destruct (m !! (s :: p)) as [[c|]|]; intros H; by inversion H.
Qed.

Lemma fs_zipFile_stored (deflate : string → string) (src dst : path) (m m3 : fs) (c : string) :
  fs_zipFile deflate src dst true m = Ok m3 →
  fs_readFile m src = Ok c → src ≠ dst →
  m3 !! dst = Some (File (deflate c)).
Proof.
  unfold fs_zipFile. intros H Hc Hne. rewrite Hc in H.
  destruct (fs_ensureDir (dirname dst) m) as [m1|e]; [|discriminate].
  destruct (fs_writeFile dst (deflate c) m1) as [m2|e] eqn:E2; [|discriminate].
  apply fs_writeFile_inv in E2 as (-> & _). apply fs_unlink_inv in H as ->.
  rewrite lookup_delete_ne by done. by rewrite lookup_insert_eq.
Qed.

Lemma fs_move_stored (src dst : path) (m m3 : fs) (c : string) :
  fs_move src dst m = Ok m3 →
  fs_readFile m src = Ok c →
  m3 !! dst = Some (File c).
Proof.
  unfold fs_move, fs_readFile. intros H Hc.
  destruct (decide (src = dst)); [discriminate|].
  destruct src as [|s src]; [discriminate|].
  destruct (m !! (s :: src)) as [[c'|]|]; try discriminate.
  destruct (fs_ensureDir (dirname dst) m) as [m1|e]; [|discriminate].
  inversion H; subst. inversion Hc; subst. by rewrite lookup_insert_eq.
Qed.

(** The bytes kept for a content: itself, or its compressed form when
    the repository is configured for compression. *)
Definition stored_form (deflate : string → string) (odb : Odb) (content : string) : string :=
  if compress (options (repo odb)) then deflate content else content.

Lemma writeObject_stores sha256hex hasher deflate odb hrtime filepath content w w' r :
  is_hash (sha256hex hrtime) = true →
  is_digest (hasher content).1 = true →
  fs_readFile (w_fs w) filepath = Ok content →
  fs_exists (w_fs w) (object_path odb (hasher content).1) = false →
  writeObject sha256hex hasher deflate odb hrtime filepath posix_io w = (w', Ok r) →
  r.2 = (hasher content).1 ∧
  w_fs w' !! object_path odb (hasher content).1
  = Some (File (stored_form deflate odb content)).
Proof.
  intros Hname Hdigest Hsrc Hex Hrun.
  destruct (writeObject_inv sha256hex hasher deflate odb hrtime filepath content
              Hname Hdigest w w' r Hsrc Hrun)
    as (m1 & m2 & m3 & E1 & E2 & E3 & Hside & -> & Hlog).
  split; [done|].
  set (h := (hasher content).1) in *. set (tmp := tmp_path odb (sha256hex hrtime)) in *.
  assert (fs_exists m2 (object_path odb h) = false) as Hex2.
  { erewrite fs_exists_lookup; [exact Hex|].
    eapply staging_leaves_objects; eauto using object_path_under_objects. }
  assert (fs_readFile m2 tmp = Ok content) as Htmp.
  { apply fs_writeFile_inv in E2 as (-> & Hne & _).
    rewrite fs_readFile_insert by done. by rewrite decide_True. }
  assert (tmp ≠ object_path odb h) as Hto.
  { intros Heq. apply (tmp_not_prefix_of_objects odb (sha256hex hrtime)
                         (object_path odb h) (object_path_under_objects odb h)).
    fold tmp. by rewrite Heq. }
  assert (m3 !! object_path odb h = Some (File (stored_form deflate odb content))) as H3.
  { unfold transfer in E3. rewrite Hex2 in E3. unfold stored_form.
    destruct (compress (options (repo odb))).
    - by eapply fs_zipFile_stored.
    - by eapply fs_move_stored. }
  destruct (hasher content).2 as [bl|].
  - apply fs_writeFile_inv in Hside as (-> & _).
    rewrite lookup_insert_ne; [done|]. intros Heq. by apply (object_not_sidecar odb h).
  - by rewrite Hside.
Qed.

Lemma fs_readFile_lookup (m : fs) (p : path) (x : string) :
  p ≠ [] → m !! p = Some (File x) → fs_readFile m p = Ok x.
Proof.
  intros Hp H. unfold fs_readFile. destruct p; [done|]. by rewrite H.
Qed.

Lemma fs_exists_lookup_Some (m : fs) (p : path) (e : entry) :
  m !! p = Some e → fs_exists m p = true.
Proof. intros H. unfold fs_exists. rewrite H. by destruct p. Qed.

Lemma bind_ret_r {A} (m : IO A) w : bind m ret w = m w.
Proof. unfold bind, ret. by destruct (m w) as [w' [a|e]]. Qed.

Lemma readObject_copies (odb : Odb) (h : string) (dstpath : path) (w : world) (x : string) :
  is_digest h = true →
  w_fs w !! object_path odb h = Some (File x) →
  dstpath ≠ [] →
  w_fs w !! dstpath ≠ Some Dir →
  fs_is_dir (w_fs w) (dirname dstpath) = true →
  ∃ w2, readObject odb h dstpath posix_io w = (w2, Ok tt) ∧
        fs_readFile (w_fs w2) dstpath = Ok x.
Proof.
  intros Hd Hobj Hne Hnd Hdir. unfold readObject.
  rewrite (join_object_path _ _ Hd). rewrite bind_pathExists.
  assert (fs_readFile (w_fs w) (object_path odb h) = Ok x) as Hread
    by (apply fs_readFile_lookup; [apply snoc_not_nil|done]).
  assert (fs_exists (w_fs w) (object_path odb h) = true) as ->
    by (by eapply fs_exists_lookup_Some).
  simpl copyFile.
  rewrite <- (bind_ret_r (emit _ ;; update _)).
  rewrite bind_emit_update. simpl w_fs.
  unfold fs_copyFile. rewrite Hread.
  rewrite (fs_writeFile_ok _ _ _ Hne Hnd Hdir).
  eexists. split; [reflexivity|]. simpl.
  eapply fs_writeFile_read. by apply fs_writeFile_ok.
Qed.

(** C1, at the input where the code departs from it: in a repository
    configured for compression, [writeObject] of new content followed by
    [readObject] of the returned hash leaves at the destination the
    compressed form of the source, which [readObject] copies out as it
    is stored. *)
Theorem writeObject_readObject_compressed
    sha256hex hasher deflate odb hrtime filepath content (dstpath : path) w w1 r :
  compress (options (repo odb)) = true →
  is_hash (sha256hex hrtime) = true →
  is_digest (hasher content).1 = true →
  fs_readFile (w_fs w) filepath = Ok content →
  fs_exists (w_fs w) (object_path odb (hasher content).1) = false →
  writeObject sha256hex hasher deflate odb hrtime filepath posix_io w = (w1, Ok r) →
  dstpath ≠ [] →
  w_fs w1 !! dstpath ≠ Some Dir →
  fs_is_dir (w_fs w1) (dirname dstpath) = true →
  ∃ w2, readObject odb r.2 dstpath posix_io w1 = (w2, Ok tt) ∧
        fs_readFile (w_fs w2) dstpath = Ok (deflate content).
Proof.
  intros Hz Hname Hdigest Hsrc Hex Hrun Hne Hnd Hdir.
  destruct (writeObject_stores _ _ _ _ _ _ _ _ _ _ Hname Hdigest Hsrc Hex Hrun) as [-> Hobj].
  unfold stored_form in Hobj. rewrite Hz in Hobj.
  by apply readObject_copies.
Qed.

Definition ex_options_compress : RepositoryInitOptions :=
  {| commondir := ["work"%string; ".snow"%string]; compress := true |}.

Definition ex_odb_compress : Odb :=
  {| config := Some defaultConfig;
     repo := {| repoWorkDir := ["work"%string]; options := ex_options_compress |} |}.

Definition ex_copy : path := ["work"%string; "copy.txt"%string].

Lemma writeObject_readObject_compressed_witness :
  ∃ w2,
    readObject ex_odb_compress (toy_hasher "hello").1 ex_copy posix_io
      (writeObject toy_sha256hex toy_hasher toy_deflate ex_odb_compress "1" ex_source
         posix_io ex_world).1 = (w2, Ok tt) ∧
    fs_readFile (w_fs w2) ex_copy = Ok (String "Z" "hello").
Proof.
  refine (writeObject_readObject_compressed toy_sha256hex toy_hasher toy_deflate
            ex_odb_compress "1" ex_source "hello" ex_copy ex_world
            (writeObject toy_sha256hex toy_hasher toy_deflate ex_odb_compress "1" ex_source
               posix_io ex_world).1
            (["a.txt"%string], (toy_hasher "hello").1)
            eq_refl _ _ _ _ _ _ _ _).
  - vm_compute. reflexivity.
  - vm_compute. reflexivity.
  - vm_compute. reflexivity.
  - vm_compute. reflexivity.
  - vm_compute. reflexivity.
  - intros H. discriminate H.
  - vm_compute. intros H. discriminate H.
  - vm_compute. reflexivity.
Defined.

Lemma writeObject_keeps_blob sha256hex hasher deflate odb hrtime filepath content w w' r :
  is_hash (sha256hex hrtime) = true →
  is_digest (hasher content).1 = true →
  fs_readFile (w_fs w) filepath = Ok content →
  fs_exists (w_fs w) (object_path odb (hasher content).1) = true →
  writeObject sha256hex hasher deflate odb hrtime filepath posix_io w = (w', Ok r) →
  r.2 = (hasher content).1 ∧
  w_fs w' !! object_path odb (hasher content).1
  = w_fs w !! object_path odb (hasher content).1.
Proof.
  intros Hname Hdigest Hsrc Hex Hrun.
  destruct (writeObject_inv sha256hex hasher deflate odb hrtime filepath content
              Hname Hdigest w w' r Hsrc Hrun)
    as (m1 & m2 & m3 & E1 & E2 & E3 & Hside & -> & Hlog).
  split; [done|].
  set (h := (hasher content).1) in *. set (tmp := tmp_path odb (sha256hex hrtime)) in *.
  assert (m2 !! object_path odb h = w_fs w !! object_path odb h) as Hobj
    by (eapply staging_leaves_objects; eauto using object_path_under_objects).
  unfold transfer in E3. rewrite (fs_exists_lookup _ _ _ Hobj), Hex in E3.
  inversion E3; subst m3. clear E3.
  assert (fs_remove tmp m2 !! object_path odb h = w_fs w !! object_path odb h) as H3.
  { rewrite fs_remove_lookup_other; [done|].
    apply tmp_not_prefix_of_objects, object_path_under_objects. }
  destruct (hasher content).2 as [bl|].
  - apply fs_writeFile_inv in Hside as (-> & _).
    rewrite lookup_insert_ne; [done|]. intros Heq. by apply (object_not_sidecar odb h).
  - by rewrite Hside.
Qed.

(** X1: without compression the round trip holds: what [readObject] writes
    at the destination is the content of the source, for new content and
    for content whose stored blob is that content already. *)
Lemma writeObject_readObject_uncompressed
    sha256hex hasher deflate odb hrtime filepath content (dstpath : path) w w1 r :
  compress (options (repo odb)) = false →
  is_hash (sha256hex hrtime) = true →
  is_digest (hasher content).1 = true →
  fs_readFile (w_fs w) filepath = Ok content →
  fs_exists (w_fs w) (object_path odb (hasher content).1) = false
  ∨ w_fs w !! object_path odb (hasher content).1 = Some (File content) →
  writeObject sha256hex hasher deflate odb hrtime filepath posix_io w = (w1, Ok r) →
  dstpath ≠ [] →
  w_fs w1 !! dstpath ≠ Some Dir →
  fs_is_dir (w_fs w1) (dirname dstpath) = true →
  ∃ w2, readObject odb r.2 dstpath posix_io w1 = (w2, Ok tt) ∧
        fs_readFile (w_fs w2) dstpath = Ok content.
Proof.
  intros Hz Hname Hdigest Hsrc [Hex|Hold] Hrun Hne Hnd Hdir.
  - destruct (writeObject_stores _ _ _ _ _ _ _ _ _ _ Hname Hdigest Hsrc Hex Hrun)
      as [-> Hobj].
    unfold stored_form in Hobj. rewrite Hz in Hobj.
    by apply readObject_copies.
  - pose proof (fs_exists_lookup_Some _ _ _ Hold) as Hex.
    destruct (writeObject_keeps_blob _ _ _ _ _ _ _ _ _ _ Hname Hdigest Hsrc Hex Hrun)
      as (-> & Hobj).
    rewrite Hold in Hobj. by apply readObject_copies.
Qed.

(** * More of the object database *)

Lemma writeObject_readObject_uncompressed_witness :
  ∃ w2,
    readObject ex_odb (toy_hasher "hello").1 ex_copy posix_io
      (writeObject toy_sha256hex toy_hasher toy_deflate ex_odb "1" ex_source
         posix_io ex_world).1 = (w2, Ok tt) ∧
    fs_readFile (w_fs w2) ex_copy = Ok "hello"%string.
Proof.
  refine (writeObject_readObject_uncompressed toy_sha256hex toy_hasher toy_deflate
            ex_odb "1" ex_source "hello" ex_copy ex_world
            (writeObject toy_sha256hex toy_hasher toy_deflate ex_odb "1" ex_source
               posix_io ex_world).1
            (["a.txt"%string], (toy_hasher "hello").1)
            eq_refl _ _ _ (or_introl _) _ _ _ _).
  - vm_compute. reflexivity.
  - vm_compute. reflexivity.
  - vm_compute. reflexivity.
  - vm_compute. reflexivity.
  - vm_compute. reflexivity.
  - intros H. discriminate H.
  - vm_compute. intros H. discriminate H.
  - vm_compute. reflexivity.
Defined.



(** ** [readObject] on a hash that is not stored *)

(** The error of the taxonomy named NotFound: the message thrown by
    [readObject]. *)
Definition NotFound (hash : string) : error := Error ("object " +:+ hash +:+ " not found").

Definition object_file (odb : Odb) (hash : string) : path :=
  join (odb_commondir odb)
       ["objects"%string; substring 0 2 hash; substring 2 2 hash; hash].

Lemma fs_copyFile_error src dst m e :
  fs_copyFile src dst m = Err e → ∃ code q, e = SysError code q.
Proof.
  unfold fs_copyFile, fs_readFile. intros H.
  destruct src as [|s src]; [inversion H; eauto|].
  destruct (m !! (s :: src)) as [[c|]|]; try (inversion H; eauto; fail).
  by apply fs_writeFile_error in H.
Qed.

(** X4: [readObject] fails with NotFound exactly when nothing exists at
    the sharded path of the hash, whatever the hash looks like; it has
    then made one existence check, and neither the destination nor
    anything else was written. *)
Theorem readObject_missing odb hash (dst : path) w :
  ((readObject odb hash dst posix_io w).2 = Err (NotFound hash) ↔
   fs_exists (w_fs w) (object_file odb hash) = false) ∧
  (fs_exists (w_fs w) (object_file odb hash) = false →
   (readObject odb hash dst posix_io w).1 = logged w (EvPathExists (object_file odb hash))).
Proof.
  unfold readObject. fold (object_file odb hash). rewrite bind_pathExists.
  destruct (fs_exists (w_fs w) (object_file odb hash)) eqn:Hex.
  - split; [|intros H; discriminate H]. split; [|intros H; discriminate H].
    intros H. exfalso. simpl copyFile in H.
    rewrite <- (bind_ret_r (emit _ ;; update _)) in H.
    rewrite bind_emit_update in H. simpl w_fs in H.
    destruct (fs_copyFile _ _ _) as [m'|e] eqn:E; [discriminate H|].
    apply fs_copyFile_error in E as (code & q & ->). discriminate H.
  - split; [split; reflexivity|reflexivity].
Qed.

(** ** HEAD, written and read *)

Lemma readHeadReference_run odb w :
  readHeadReference odb w =
  match fs_readFile (w_fs w) (head_path odb) with
  | Ok content => (logged w (EvReadFile (head_path odb)), Ok (Some content))
  | Err _ =>
      (logged (logged w (EvReadFile (head_path odb))) (EvConsole "No HEAD found"), Ok None)
  end.
Proof.
  unfold readHeadReference, catch, bind.
  change (join (odb_commondir odb) ["HEAD"%string]) with (head_path odb).
  rewrite readFile_run. by destruct (fs_readFile (w_fs w) (head_path odb)).
Qed.

(** X5: what [writeHeadReference] has written, [readHeadReference]
    returns: the name of the branch for a symbolic head, the target
    hash for the detached one. *)
Theorem writeHeadReference_readHeadReference odb head w w1 :
  writeHeadReference odb head w = (w1, Ok tt) →
  (readHeadReference odb w1).2 =
  Ok (if Reference.isDetached head then Reference.hash head
      else Some (Reference.getName head)) ∧
  w_fs (readHeadReference odb w1).1 = w_fs w1.
Proof.
  intros Hw.
  assert (∃ text, fse.writeFile (head_path odb) text w = (w1, Ok tt) ∧
                  (if Reference.isDetached head then Reference.hash head
                   else Some (Reference.getName head)) = Some text) as (text & Hrun & ->).
  { unfold writeHeadReference, Reference.isDetached, Reference.getName in *.
    change (join (odb_commondir odb) ["HEAD"%string]) with (head_path odb) in Hw.
    destruct (String.eqb (Reference.refName head) "HEAD").
    - destruct (Reference.hash head) as [h|]; [|discriminate Hw]. by exists h.
    - by eexists. }
  rewrite writeFile_run in Hrun.
  destruct (fs_writeFile (head_path odb) text (w_fs w)) as [m'|e] eqn:E; [|discriminate Hrun].
  inversion Hrun; subst w1. clear Hrun.
  rewrite readHeadReference_run. simpl w_fs.
  by rewrite (fs_writeFile_read _ _ _ _ E).
Qed.

Definition ex_branch : Reference.t :=
  Reference.new "main" ex_repo (Some "c0ffee"%string) None None.

Lemma writeHeadReference_readHeadReference_witness :
  (readHeadReference ex_odb
     (writeHeadReference ex_odb ex_branch (create ex_repo ex_options (World ∅ [])).1).1).2
  = Ok (Some "main"%string).
Proof.
  refine (proj1 (writeHeadReference_readHeadReference ex_odb ex_branch
                   (create ex_repo ex_options (World ∅ [])).1
                   (writeHeadReference ex_odb ex_branch
                      (create ex_repo ex_options (World ∅ [])).1).1 _)).
  vm_compute. reflexivity.
Defined.

(** ** The whole record of a commit, written and read *)






Lemma no_files_after_create (d : string) (p : path) (content : string) :
  w_fs (create ex_repo ex_options (World ∅ [])).1 !! p = Some (File content) →
  dirname p = odb_commondir ex_odb ++ [d] → False.
Proof.
  intros Hl Hd.
  assert ((p, File content) ∈ map_to_list (w_fs (create ex_repo ex_options (World ∅ [])).1))
    as Hin by (by apply elem_of_map_to_list).
  vm_compute in Hin.
  repeat (apply elem_of_cons in Hin as [Hin|Hin];
          [inversion Hin; subst; try discriminate Hd; fail|]).
  by apply elem_of_nil in Hin.
Qed.


(** * References on disk *)

(** A [Reference] as [readReferences] builds it.  The constructor stores
    the values found under [hash] and [start] in the parsed record as they
    are, whatever their type; [None] is [undefined]. *)
Record RReference : Type := {
  rr_hash : option json;
  rr_userData : json;
  rr_refName : string;
  rr_repo : Repository;
  rr_start : option json
}.

(** The constructor of [src/reference.ts] on parsed values. *)
Definition new_Reference (refName : string) (repo : Repository)
    (c_hash c_start c_userData : option json) : RReference :=
  {| rr_hash := c_hash;
     rr_userData := Reference.nullish_or c_userData (JObj []);
     rr_start := c_start;
     rr_refName := refName;
     rr_repo := repo |}.

(** [Odb.readReference]: the [try] around [JSON.parse] turns a text that
    does not parse into [null]; a failing read is not caught. *)
Definition readReference (ref : path) : IO (option (path * json)) :=
  let* buf := fse.readFile ref in
  match JSON_parse buf with
  | Ok content => ret (Some (ref, content))
  | Err _ => console "Error" ;; ret None
  end.

(** The callback [readReferences] maps over the entries that are left
    after the [null]s are filtered out. *)
Definition make_reference (odb : Odb) (r : path * json) : result RReference :=
  match get_prop r.2 "hash" with
  | Err e => Err e
  | Ok hash =>
      match get_prop r.2 "start" with
      | Err e => Err e
      | Ok start =>
          match get_prop r.2 "userData" with
          | Err e => Err e
          | Ok userData => Ok (new_Reference (basename r.1) (repo odb) hash start userData)
          end
      end
  end.

Definition readReferences (odb : Odb) : IO (list RReference) :=
  let refsDir := join (odb_commondir odb) ["refs"%string] in
  let* value := osWalk refsDir in
  let* ret_ := Promise_all (map readReference value) in
  lift (result_map (make_reference odb) (omap id ret_)).

Definition refs_dir (odb : Odb) : path := odb_commondir odb ++ ["refs"%string].

(** What one [readReference] settles with. *)
Definition loaded (m : fs) (p : path) : result (option (path * json)) :=
  match fs_readFile m p with
  | Ok c => Ok (match JSON_parse c with Ok v => Some (p, v) | Err _ => None end)
  | Err e => Err e
  end.

Lemma readReference_run (p : path) (w : world) :
  w_fs (readReference p w).1 = w_fs w ∧ (readReference p w).2 = loaded (w_fs w) p.
Proof.
  unfold readReference, bind, loaded. rewrite readFile_run.
  destruct (fs_readFile (w_fs w) p) as [c|e]; [|done].
  by destruct (JSON_parse c).
Qed.

Lemma start_all_readReference (files : list path) (w : world) :
  w_fs (start_all (map readReference files) w).1 = w_fs w ∧
  (start_all (map readReference files) w).2 = map (loaded (w_fs w)) files.
Proof.
  revert w. induction files as [|p files IH]; intros w; [done|].
  rewrite map_cons, start_all_cons. simpl.
  destruct (readReference_run p w) as [H1 H2].
  destruct (IH (readReference p w).1) as [H3 H4].
  by rewrite H3, H4, H1, H2.
Qed.

Lemma Promise_all_readReference (files : list path) (w : world) :
  w_fs (Promise_all (map readReference files) w).1 = w_fs w ∧
  (Promise_all (map readReference files) w).2 = result_map (loaded (w_fs w)) files.
Proof.
  unfold Promise_all. pose proof (start_all_readReference files w) as [H1 H2].
  destruct (start_all (map readReference files) w) as [w' rs]. simpl in *.
  by rewrite H1, H2, sequence_map.
Qed.

Lemma readReferences_eq (odb : Odb) :
  readReferences odb =
  (let* value := osWalk (refs_dir odb) in
   let* ret_ := Promise_all (map readReference value) in
   lift (result_map (make_reference odb) (omap id ret_))).
Proof. reflexivity. Qed.

Lemma loaded_files (d : path) (m : fs) :
  result_map (loaded m) (fs_files_in d m) =
  Ok (map (λ p, match fs_readFile m p with
                | Ok c => match JSON_parse c with Ok v => Some (p, v) | Err _ => None end
                | Err _ => None
                end) (fs_files_in d m)).
Proof.
  apply result_map_ok. apply Forall_forall. intros p Hp.
  apply elem_of_fs_files_in in Hp as (c & Hl & Hne & _).
  unfold loaded. by rewrite (fs_readFile_lookup _ _ _ Hne Hl).
Qed.

(** The entries [readReferences] maps over: one for each file of the
    directory whose text parses. *)
Definition entries (d : path) (m : fs) : list (path * json) :=
  omap id (map (λ p, match fs_readFile m p with
                     | Ok c => match JSON_parse c with Ok v => Some (p, v) | Err _ => None end
                     | Err _ => None
                     end) (fs_files_in d m)).

Lemma elem_of_entries (d : path) (m : fs) (p : path) (v : json) :
  (p, v) ∈ entries d m ↔
  ∃ c, m !! p = Some (File c) ∧ p ≠ [] ∧ dirname p = d ∧ JSON_parse c = Ok v.
Proof.
  unfold entries. rewrite list_elem_of_omap. split.
  - intros (o & Ho & Hid). simpl in Hid. subst o.
    apply list_elem_of_fmap in Ho as (q & Hq & Hin).
    apply elem_of_fs_files_in in Hin as (c & Hl & Hne & Hd).
    rewrite (fs_readFile_lookup _ _ _ Hne Hl) in Hq.
    destruct (JSON_parse c) as [v'|] eqn:E; [|discriminate Hq].
    inversion Hq; subst. by exists c.
  - intros (c & Hl & Hne & Hd & Hv). exists (Some (p, v)). split; [|done].
    apply list_elem_of_fmap. exists p. split.
    + by rewrite (fs_readFile_lookup _ _ _ Hne Hl), Hv.
    + apply elem_of_fs_files_in. eauto.
Qed.

Lemma readReferences_run (odb : Odb) (w : world) :
  fs_is_dir (w_fs w) (refs_dir odb) = true →
  w_fs (readReferences odb w).1 = w_fs w ∧
  (readReferences odb w).2 = result_map (make_reference odb) (entries (refs_dir odb) (w_fs w)).
Proof.
  intros Hdir. rewrite readReferences_eq.
  set (w0 := logged w (EvWalk (refs_dir odb))).
  set (files := fs_files_in (refs_dir odb) (w_fs w)).
  rewrite (bind_run _ _ w w0 files) by (by rewrite osWalk_run, Hdir).
  pose proof (Promise_all_readReference files w0) as [Hfs Hres].
  destruct (Promise_all (map readReference files) w0) as [w1 r] eqn:E. simpl in Hfs, Hres.
  subst r. change (w_fs w0) with (w_fs w) in *. unfold files in E.
  rewrite loaded_files in E. fold files in E.
  rewrite (bind_run _ _ w0 w1 _ E). unfold lift. simpl. done.
Qed.

Lemma result_map_fails {A B} (f : A → result B) l a e :
  a ∈ l → f a = Err e → (∀ x e', f x = Err e' → e' = e) → result_map f l = Err e.
Proof.
  intros Hin Ha Hall. induction l as [|x l IH]; [by apply elem_of_nil in Hin|].
  simpl. destruct (f x) as [b|e'] eqn:Ex.
  - apply elem_of_cons in Hin as [->|Hin]; [congruence|]. by rewrite (IH Hin).
  - by rewrite (Hall _ _ Ex).
Qed.

Lemma make_reference_ok (odb : Odb) (p : path) (v : json) :
  v ≠ JNull →
  ∃ h s u, get_prop v "hash" = Ok h ∧ get_prop v "start" = Ok s ∧
           get_prop v "userData" = Ok u ∧
           make_reference odb (p, v) = Ok (new_Reference (basename p) (repo odb) h s u).
Proof.
  intros Hv. unfold make_reference. simpl.
  destruct v; try done; simpl; eauto 10.
Qed.

Lemma make_reference_error (odb : Odb) (r : path * json) (e : error) : make_reference odb r = Err e → e = TypeError ∧ r.2 = JNull.
Proof.
  unfold make_reference. destruct r as [p v]. simpl.
  destruct v; simpl; intros H; try discriminate H. by inversion H.
Qed.

Lemma dirname_basename (p : path) : p ≠ [] → p = dirname p ++ [basename p].
Proof. intros Hp. unfold dirname, basename. by apply app_removelast_last. Qed.

Lemma basename_snoc (p : path) (s : string) : basename (p ++ [s]) = s.
Proof. unfold basename. apply last_last. Qed.

Lemma in_refs_not_nil (odb : Odb) (p : path) : dirname p = refs_dir odb → p ≠ [].
Proof. intros H ->. unfold refs_dir in H. simpl in H. by destruct (odb_commondir odb). Qed.

(** The reference made from a parsed record. *)
Definition made_from (odb : Odb) (p : path) (v : json) (r : RReference) : Prop :=
  rr_refName r = basename p ∧ rr_repo r = repo odb ∧
  get_prop v "hash" = Ok (rr_hash r) ∧
  get_prop v "start" = Ok (rr_start r) ∧
  ∃ u, get_prop v "userData" = Ok u ∧ rr_userData r = Reference.nullish_or u (JObj []).

Lemma make_reference_made (odb : Odb) (p : path) (v : json) (r : RReference) :
  make_reference odb (p, v) = Ok r ↔ v ≠ JNull ∧ made_from odb p v r.
Proof.
  split.
  - intros H. assert (v ≠ JNull) as Hv.
    { intros ->. unfold make_reference in H. simpl in H. discriminate H. }
    split; [done|].
    destruct (make_reference_ok odb p v Hv) as (h & s & u & Hh & Hs & Hu & Hm).
    rewrite Hm in H. inversion H; subst r. unfold made_from. simpl. eauto 10.
  - intros [Hv (Hn & Hr & Hh & Hs & u & Hu & Hud)].
    destruct (make_reference_ok odb p v Hv) as (h' & s' & u' & Hh' & Hs' & Hu' & Hm).
    rewrite Hm. f_equal. destruct r as [h ud n rp s]. simpl in *. subst.
    unfold new_Reference. congruence.
Qed.

Lemma readReferences_spec (odb : Odb) (w : world) :
  fs_is_dir (w_fs w) (refs_dir odb) = true →
  (∀ p c, w_fs w !! p = Some (File c) → dirname p = refs_dir odb →
          JSON_parse c ≠ Ok JNull) →
  ∃ refs,
    (readReferences odb w).2 = Ok refs ∧
    w_fs (readReferences odb w).1 = w_fs w ∧
    ∀ r, r ∈ refs ↔
         ∃ p c v, w_fs w !! p = Some (File c) ∧ dirname p = refs_dir odb ∧
                  JSON_parse c = Ok v ∧ made_from odb p v r.
Proof.
  intros Hdir Hnull. destruct (readReferences_run odb w Hdir) as [Hfs Hres].
  destruct (result_map_total (make_reference odb) (entries (refs_dir odb) (w_fs w)))
    as (refs & Hrefs & HF).
  { intros [p v] Hin. apply elem_of_entries in Hin as (c & Hl & Hne & Hd & Hv).
    destruct (make_reference_ok odb p v) as (h & s & u & _ & _ & _ & Hm); [|eauto].
    intros ->. by apply (Hnull p c). }
  exists refs. rewrite Hres. split; [done|]. split; [done|]. intros r. split.
  - intros Hr. destruct (Forall2_elem_r _ _ _ _ HF Hr) as ([p v] & Hin & Hm).
    apply elem_of_entries in Hin as (c & Hl & Hne & Hd & Hv).
    apply make_reference_made in Hm as [_ Hm]. by exists p, c, v.
  - intros (p & c & v & Hl & Hd & Hv & Hm).
    assert ((p, v) ∈ entries (refs_dir odb) (w_fs w)) as Hin.
    { apply elem_of_entries. exists c. repeat split; try done.
      by apply (in_refs_not_nil odb). }
    destruct (Forall2_elem_l _ _ _ _ HF Hin) as (r' & Hr' & Hm').
    assert (make_reference odb (p, v) = Ok r) as Hmr.
    { apply make_reference_made. split; [|done]. intros ->. by apply (Hnull p c). }
    congruence.
Qed.

(** X8: a file of the refs directory whose text is the JSON value null
    is not skipped like a malformed one: reading a property of null
    throws, and [readReferences] rejects with a TypeError. *)
Theorem readReferences_null_rejects (odb : Odb) (w : world) (p : path) (c : string) :
  fs_is_dir (w_fs w) (refs_dir odb) = true →
  w_fs w !! p = Some (File c) → dirname p = refs_dir odb →
  JSON_parse c = Ok JNull →
  (readReferences odb w).2 = Err TypeError ∧
  w_fs (readReferences odb w).1 = w_fs w.
Proof.
  intros Hdir Hl Hd Hv. destruct (readReferences_run odb w Hdir) as [Hfs Hres].
  split; [|done]. rewrite Hres.
  apply (result_map_fails _ _ (p, JNull)).
  - apply elem_of_entries. exists c. repeat split; try done.
    by apply (in_refs_not_nil odb).
  - reflexivity.
  - intros x e' He. by apply make_reference_error in He as [-> _].
Qed.

Lemma ref_path_plain (odb : Odb) (ref : Reference.t) :
  plain_seg (Reference.getName ref) = true →
  ref_path odb ref = refs_dir odb ++ [Reference.getName ref].
Proof.
  intros H. unfold ref_path, refs_dir.
  rewrite (join_plain _ ["refs"%string]) by reflexivity.
  rewrite join_plain; [done|]. simpl. by rewrite H.
Qed.

Lemma writeReference_run (odb : Odb) (ref : Reference.t) (w w1 : world) :
  Reference.isDetached ref = false →
  writeReference odb ref w = (w1, Ok tt) →
  ∃ h, Reference.hash ref = Some h ∧ h ≠ EmptyString ∧
       ref_path odb ref ≠ [] ∧
       fs_is_dir (w_fs w) (dirname (ref_path odb ref)) = true ∧
       w_fs w1 = <[ref_path odb ref := File (stringify (reference_json ref h))]> (w_fs w).
Proof.
  intros Hdet H. unfold writeReference in H. rewrite Hdet in H.
  destruct (Reference.hash ref) as [h|] eqn:Eh; [|discriminate H].
  simpl in H. destruct (String.eqb_spec h EmptyString) as [->|Hne]; [discriminate H|].
  simpl in H. fold (ref_path odb ref) in H. rewrite writeFile_run in H.
  destruct (fs_writeFile _ _ _) as [m'|e] eqn:E; [|discriminate H].
  apply fs_writeFile_inv in E as (-> & Hp & _ & Hdir).
  exists h. inversion H; subst. done.
Qed.

Lemma reference_json_props (ref : Reference.t) (h : string) :
  get_prop (reference_json ref h) "hash" = Ok (Some (JStr h)) ∧
  get_prop (reference_json ref h) "start"
  = Ok (match Reference.start ref with
        | Some s => if String.eqb s EmptyString then None else Some (JStr s)
        | None => None
        end) ∧
  get_prop (reference_json ref h) "userData"
  = Ok (Some (Reference.nullish_or (Reference.userData ref) (JObj []))).
Proof.
  unfold reference_json.
  destruct (Reference.start ref) as [s|]; simpl;
    [destruct (String.eqb s EmptyString); simpl|]; done.
Qed.

Lemma nullish_or_idem (v : option json) (d : json) :
  d ≠ JNull →
  Reference.nullish_or (Some (Reference.nullish_or v d)) d = Reference.nullish_or v d.
Proof. intros Hd. destruct v as [[]|]; simpl; try done; by destruct d. Qed.

Definition ex_created : world := (create ex_repo ex_options (World ∅ [])).1.

Definition ex_refs_world : world :=
  World (<[refs_dir ex_odb ++ ["broken"%string] := File "{"]>
           (w_fs (writeReference ex_odb ex_branch ex_created).1)) [].

Definition ex_null_world : world :=
  World (<[refs_dir ex_odb ++ ["nothing"%string] := File "null"]> (w_fs ex_created)) [].

Lemma readReferences_null_rejects_witness :
  (readReferences ex_odb ex_null_world).2 = Err TypeError ∧
  w_fs (readReferences ex_odb ex_null_world).1 = w_fs ex_null_world.
Proof.
  refine (readReferences_null_rejects ex_odb ex_null_world
            (refs_dir ex_odb ++ ["nothing"%string]) "null" _ _ _ _).
  - vm_compute. reflexivity.
  - vm_compute. reflexivity.
  - vm_compute. reflexivity.
  - vm_compute. reflexivity.
Defined.

(** * Reading leaves the store as it is *)

(** An action that never changes the file system, whether it succeeds
    or not. *)
Definition keeps_fs {A} (m : IO A) : Prop := ∀ w, w_fs (m w).1 = w_fs w.

Lemma keeps_fs_ret {A} (a : A) : keeps_fs (ret a).
Proof. by intros w. Qed.

Lemma keeps_fs_throw {A} (e : error) : keeps_fs (@throw A e).
Proof. by intros w. Qed.

Lemma keeps_fs_lift {A} (r : result A) : keeps_fs (lift r).
Proof. by intros w. Qed.

Lemma keeps_fs_emit (e : event) : keeps_fs (emit e).
Proof. by intros w. Qed.

Lemma keeps_fs_observe {A} (f : fs → result A) : keeps_fs (observe f).
Proof. by intros w. Qed.

Lemma keeps_fs_bind {A B} (m : IO A) (k : A → IO B) :
  keeps_fs m → (∀ a, keeps_fs (k a)) → keeps_fs (bind m k).
Proof.
  intros Hm Hk w. unfold bind. specialize (Hm w).
  destruct (m w) as [w1 [a|e]]; simpl in *; [|done]. by rewrite Hk.
Qed.

Lemma keeps_fs_catch {A} (m : IO A) (h : error → IO A) :
  keeps_fs m → (∀ e, keeps_fs (h e)) → keeps_fs (catch m h).
Proof.
  intros Hm Hh w. unfold catch. specialize (Hm w).
  destruct (m w) as [w1 [a|e]]; simpl in *; [done|]. by rewrite Hh.
Qed.

Lemma keeps_fs_start_all {A} (ms : list (IO A)) (w : world) :
  Forall keeps_fs ms → w_fs (start_all ms w).1 = w_fs w.
Proof.
  intros H. revert w. induction H as [|m ms Hm _ IH]; intros w; [done|].
  rewrite start_all_cons. simpl. by rewrite IH, Hm.
Qed.

Lemma keeps_fs_Promise_all {A} (ms : list (IO A)) :
  Forall keeps_fs ms → keeps_fs (Promise_all ms).
Proof.
  intros H w. unfold Promise_all.
  pose proof (keeps_fs_start_all ms w H) as Hs.
  by destruct (start_all ms w).
Qed.

Lemma keeps_fs_readFile (p : path) : keeps_fs (fse.readFile p).
Proof. apply keeps_fs_bind; [apply keeps_fs_emit|]. intros _. apply keeps_fs_observe. Qed.

Lemma keeps_fs_osWalk (d : path) : keeps_fs (osWalk d).
Proof. apply keeps_fs_bind; [apply keeps_fs_emit|]. intros _. apply keeps_fs_observe. Qed.

Lemma keeps_fs_readReference (p : path) : keeps_fs (readReference p).
Proof.
  apply keeps_fs_bind; [apply keeps_fs_readFile|]. intros buf.
  destruct (JSON_parse buf); [apply keeps_fs_ret|].
  apply keeps_fs_bind; [apply keeps_fs_emit|]. intros _. apply keeps_fs_ret.
Qed.

(** X10: opening a store and reading its commits, its references and its
    HEAD never change the file system, whether the call succeeds or
    rejects, and whatever the store holds. *)
Theorem reading_keeps_fs (Date_convert : json → jsdate) (repo : Repository) (odb : Odb) :
  keeps_fs (open repo) ∧
  keeps_fs (readCommits Date_convert odb) ∧
  keeps_fs (readReferences odb) ∧
  keeps_fs (readHeadReference odb).
Proof.
  repeat split.
  - apply keeps_fs_bind; [apply keeps_fs_readFile|]. intros buf.
    apply keeps_fs_bind; [apply keeps_fs_lift|]. intros cfg.
    apply keeps_fs_bind; [apply keeps_fs_lift|]. intros version.
    destruct version as [[| |[|[]|]| | |]|];
      first [apply keeps_fs_ret | apply keeps_fs_throw].
  - apply keeps_fs_bind; [apply keeps_fs_osWalk|]. intros value.
    apply keeps_fs_bind; [|intros commits; apply keeps_fs_lift].
    apply keeps_fs_Promise_all, Forall_forall. intros m Hm.
    apply list_elem_of_fmap in Hm as (p & -> & _).
    apply keeps_fs_bind; [apply keeps_fs_readFile|]. intros buf. apply keeps_fs_lift.
  - apply keeps_fs_bind; [apply keeps_fs_osWalk|]. intros value.
    apply keeps_fs_bind; [|intros r; apply keeps_fs_lift].
    apply keeps_fs_Promise_all, Forall_forall. intros m Hm.
    apply list_elem_of_fmap in Hm as (p & -> & _). apply keeps_fs_readReference.
  - apply keeps_fs_catch.
    + apply keeps_fs_bind; [apply keeps_fs_readFile|]. intros buf. apply keeps_fs_ret.
    + intros e. apply keeps_fs_bind; [apply keeps_fs_emit|]. intros _. apply keeps_fs_ret.
Qed.

(** * A store that has just been made *)

(** Whatever [mkdir -p] leaves as a file was one before. *)
Lemma fs_ensureDir_files (p q : path) (m m' : fs) (c : string) :
  fs_ensureDir p m = Ok m' → m' !! q = Some (File c) → m !! q = Some (File c).
Proof.
  intros H Hq. destruct (m !! q) as [e|] eqn:E.
  - rewrite (mkdirp_from_keeps _ _ _ _ _ _ H E) in Hq. done.
  - by destruct (mkdirp_from_adds _ _ _ _ _ _ H E Hq) as [? _].
Qed.

Lemma fs_ensureDir_makes (p : path) (m m' : fs) :
  fs_ensureDir p m = Ok m' → p ≠ [] → m' !! p = Some Dir.
Proof. intros H Hp. by apply (mkdirp_from_makes [] p m m'). Qed.

Lemma fs_ensureDir_keeps (p q : path) (m m' : fs) (e : entry) :
  fs_ensureDir p m = Ok m' → m !! q = Some e → m' !! q = Some e.
Proof. apply mkdirp_from_keeps. Qed.

(** The steps of a [create] that went through. *)
Lemma create_inv (repo : Repository) (opts : RepositoryInitOptions) (w w1 : world) (o : Odb) :
  create repo opts w = (w1, Ok o) →
  o = {| config := Some defaultConfig; repo := repo |} ∧
  fs_exists (w_fs w) (commondir opts) = false ∧
  ∃ m1 m2 m3 m4 m5,
    fs_ensureDir (commondir opts) (w_fs w) = Ok m1 ∧
    fs_ensureDir (commondir opts ++ ["objects"%string]) m1 = Ok m2 ∧
    fs_ensureDir (commondir opts ++ ["versions"%string]) m2 = Ok m3 ∧
    fs_ensureDir (commondir opts ++ ["hooks"%string]) m3 = Ok m4 ∧
    fs_ensureDir (commondir opts ++ ["refs"%string]) m4 = Ok m5 ∧
    fs_writeFile (commondir opts ++ ["config"%string]) (stringify defaultConfig) m5
    = Ok (w_fs w1).
Proof.
  intros H. unfold create in H. rewrite bind_pathExists in H.
  destruct (fs_exists (w_fs w) (commondir opts)) eqn:Hex; [discriminate H|].
  rewrite bind_ensureDir in H.
  destruct (fs_ensureDir _ _) as [m1|e] eqn:E1; [|discriminate H]. simpl in H.
  rewrite bind_ensureDir in H; simpl in H.
  destruct (fs_ensureDir _ m1) as [m2|e] eqn:E2; [|discriminate H]. simpl in H.
  rewrite bind_ensureDir in H; simpl in H.
  destruct (fs_ensureDir _ m2) as [m3|e] eqn:E3; [|discriminate H]. simpl in H.
  rewrite bind_ensureDir in H; simpl in H.
  destruct (fs_ensureDir _ m3) as [m4|e] eqn:E4; [|discriminate H]. simpl in H.
  rewrite bind_ensureDir in H; simpl in H.
  destruct (fs_ensureDir _ m4) as [m5|e] eqn:E5; [|discriminate H]. simpl in H.
  rewrite bind_writeFile in H; simpl in H.
  destruct (fs_writeFile _ _ m5) as [m6|e] eqn:E6; [|discriminate H].
  inversion H; subst. split; [done|]. split; [done|].
  exists m1, m2, m3, m4, m5. done.
Qed.

Lemma snoc_inj_ne (p : path) (a b : string) : a ≠ b → p ++ [a] ≠ p ++ [b].
Proof. intros Hab H. apply app_inv_head in H. congruence. Qed.

(** X13: a store made by [create] where nothing was at or below the
    target is empty: [readCommits] and [readReferences] return no entry,
    and [readHeadReference] finds no HEAD. *)
Theorem create_gives_empty_store (Date_convert : json → jsdate) (repo : Repository)
    (opts : RepositoryInitOptions) (w w1 : world) (odb : Odb) :
  options repo = opts →
  (∀ p, commondir opts `prefix_of` p → w_fs w !! p = None) →
  create repo opts w = (w1, Ok odb) →
  (readCommits Date_convert odb w1).2 = Ok [] ∧
  (readReferences odb w1).2 = Ok [] ∧
  (readHeadReference odb w1).2 = Ok None.
Proof.
  intros Hopts Hfresh Hcreate.
  apply create_inv in Hcreate
    as (-> & Hex & m1 & m2 & m3 & m4 & m5 & E1 & E2 & E3 & E4 & E5 & E6).
  apply fs_writeFile_inv in E6 as (Hw1 & _ & _ & _).
  assert (odb_commondir {| config := Some defaultConfig; repo := repo |} = commondir opts)
    as Hcd by (unfold odb_commondir; simpl; by rewrite Hopts).
  set (odb := {| config := Some defaultConfig; repo := repo |}) in *.
  assert (∀ q c, w_fs w1 !! q = Some (File c) → commondir opts `prefix_of` q →
                 q = commondir opts ++ ["config"%string]) as Hfiles.
  { intros q c Hq Hpre. rewrite Hw1 in Hq.
    destruct (decide (q = commondir opts ++ ["config"%string])) as [|Hne]; [done|].
    rewrite lookup_insert_ne in Hq by done.
    apply (fs_ensureDir_files _ _ _ _ _ E5) in Hq.
    apply (fs_ensureDir_files _ _ _ _ _ E4) in Hq.
    apply (fs_ensureDir_files _ _ _ _ _ E3) in Hq.
    apply (fs_ensureDir_files _ _ _ _ _ E2) in Hq.
    apply (fs_ensureDir_files _ _ _ _ _ E1) in Hq.
    rewrite (Hfresh q Hpre) in Hq. discriminate Hq. }
  assert (∀ d, d ≠ "config"%string →
               fs_files_in (commondir opts ++ [d]) (w_fs w1) = []) as Hnone.
  { intros d Hd. apply elem_of_nil_inv. intros q Hq.
    apply elem_of_fs_files_in in Hq as (c & Hl & Hne & Hdn).
    assert (q = (commondir opts ++ [d]) ++ [basename q]) as Hq
      by (rewrite <- Hdn; by apply dirname_basename).
    assert (commondir opts `prefix_of` q) as Hpre.
    { rewrite Hq, <- app_assoc. by apply prefix_app_r. }
    apply (Hfiles q c Hl) in Hpre. rewrite Hpre in Hq.
    apply (f_equal length) in Hq. rewrite !length_app in Hq. simpl in Hq. lia. }
  assert (w_fs w1 !! (commondir opts ++ ["versions"%string]) = Some Dir) as Hversions.
  { rewrite Hw1, lookup_insert_ne by (by apply snoc_inj_ne).
    apply (fs_ensureDir_keeps _ _ _ _ _ E5), (fs_ensureDir_keeps _ _ _ _ _ E4).
    apply (fs_ensureDir_makes _ _ _ E3), snoc_not_nil. }
  assert (w_fs w1 !! (commondir opts ++ ["refs"%string]) = Some Dir) as Hrefs.
  { rewrite Hw1, lookup_insert_ne by (by apply snoc_inj_ne).
    apply (fs_ensureDir_makes _ _ _ E5), snoc_not_nil. }
  assert (∀ d, w_fs w1 !! (commondir opts ++ [d]) = Some Dir →
               fs_is_dir (w_fs w1) (commondir opts ++ [d]) = true) as Hisdir.
  { intros d Hd. unfold fs_is_dir. rewrite Hd. by destruct (commondir opts). }
  split; [|split].
  - rewrite readCommits_eq. unfold versions_dir. rewrite Hcd.
    rewrite (bind_run _ _ w1 (logged w1 (EvWalk (commondir opts ++ ["versions"%string]))) [])
      by (rewrite osWalk_run, (Hisdir _ Hversions), Hnone; done).
    reflexivity.
  - destruct (readReferences_run odb w1) as [_ Hres].
    { unfold refs_dir. rewrite Hcd. by apply Hisdir. }
    rewrite Hres. unfold entries, refs_dir. rewrite Hcd, Hnone; done.
  - rewrite readHeadReference_run.
    change (head_path odb) with (odb_commondir odb ++ ["HEAD"%string]). rewrite Hcd.
    destruct (fs_readFile (w_fs w1) (commondir opts ++ ["HEAD"%string])) as [c|e] eqn:E;
      [|done].
    exfalso. unfold fs_readFile in E.
    destruct (commondir opts ++ ["HEAD"%string]) as [|s l] eqn:Ep; [discriminate E|].
    destruct (w_fs w1 !! (s :: l)) as [[c'|]|] eqn:El; try discriminate E.
    rewrite <- Ep in El. apply Hfiles in El; [|by apply prefix_app_r].
    by apply snoc_inj_ne in El.
Qed.

Lemma create_gives_empty_store_witness :
  (readCommits no_date ex_odb ex_created).2 = Ok [] ∧
  (readReferences ex_odb ex_created).2 = Ok [] ∧
  (readHeadReference ex_odb ex_created).2 = Ok None.
Proof.
  refine (create_gives_empty_store no_date ex_repo ex_options (World ∅ []) ex_created ex_odb
            eq_refl _ _).
  - intros p _. apply lookup_empty.
  - vm_compute. reflexivity.
Defined.

(** * Deleting a reference *)

Lemma result_map_inv {A B} (f : A → result B) (l : list A) (bs : list B) :
  result_map f l = Ok bs → Forall2 (λ a b, f a = Ok b) l bs.
Proof.
  revert bs. induction l as [|a l IH]; intros bs H; simpl in H.
  - inversion H. constructor.
  - destruct (f a) as [b|e] eqn:Ea; [|discriminate H].
    destruct (result_map f l) as [bs'|e]; [|discriminate H].
    inversion H; subst. constructor; [done|]. by apply IH.
Qed.

Lemma deleteHeadReference_run (odb : Odb) (ref : Reference.t) (w : world) :
  plain_seg (Reference.getName ref) = true →
  deleteHeadReference odb ref w =
  match fs_unlink (refs_dir odb ++ [Reference.getName ref]) (w_fs w) with
  | Ok m' => (World m' (w_log w ++ [EvUnlink (refs_dir odb ++ [Reference.getName ref])]), Ok tt)
  | Err e => (logged w (EvUnlink (refs_dir odb ++ [Reference.getName ref])), Err e)
  end.
Proof.
  intros Hplain. unfold deleteHeadReference.
  fold (ref_path odb ref). rewrite (ref_path_plain odb ref Hplain).
  unfold fse.unlink, bind, emit, update. simpl.
  by destruct (fs_unlink _ (w_fs w)).
Qed.

(** X14: for a reference whose name is a single path segment,
    [deleteHeadReference] removes the file of that name under refs, and
    nothing else: the HEAD file of the store and every other path are as
    before, and [readReferences] returns no reference of that name any
    more.  When there is no such file it rejects and changes nothing. *)
Theorem deleteHeadReference_removes_ref (odb : Odb) (ref : Reference.t) (w : world) :
  plain_seg (Reference.getName ref) = true →
  (w_fs w !! (refs_dir odb ++ [Reference.getName ref]) = None →
   (deleteHeadReference odb ref w).2
   = Err (SysError ENOENT (refs_dir odb ++ [Reference.getName ref])) ∧
   w_fs (deleteHeadReference odb ref w).1 = w_fs w) ∧
  ((deleteHeadReference odb ref w).2 = Ok tt →
   w_fs (deleteHeadReference odb ref w).1
   = delete (refs_dir odb ++ [Reference.getName ref]) (w_fs w) ∧
   w_fs (deleteHeadReference odb ref w).1 !! head_path odb = w_fs w !! head_path odb ∧
   ∀ refs r, (readReferences odb (deleteHeadReference odb ref w).1).2 = Ok refs →
             r ∈ refs → rr_refName r ≠ Reference.getName ref).
Proof.
  intros Hplain. rewrite (deleteHeadReference_run odb ref w Hplain).
  set (p := refs_dir odb ++ [Reference.getName ref]).
  assert (p ≠ []) as Hp by apply snoc_not_nil.
  split.
  - intros Hl. unfold fs_unlink. rewrite Hl. by destruct p.
  - destruct (fs_unlink p (w_fs w)) as [m'|e] eqn:E; [|discriminate]. intros _.
    apply fs_unlink_inv in E as ->. simpl. split; [done|]. split.
    + apply lookup_delete_ne. unfold p, refs_dir, head_path.
      intros H. apply (f_equal length) in H. rewrite !length_app in H. simpl in H. lia.
    + intros refs r Hres Hr Hname.
      set (w1 := World (delete p (w_fs w)) (w_log w ++ [EvUnlink p])) in *.
      destruct (fs_is_dir (w_fs w1) (refs_dir odb)) eqn:Hdir.
      * destruct (readReferences_run odb w1 Hdir) as [_ Hrun]. rewrite Hrun in Hres.
        inversion Hres as [Hmap]. apply result_map_inv in Hmap.
        destruct (Forall2_elem_r _ _ _ _ Hmap Hr) as ([q v] & Hin & Hm).
        apply elem_of_entries in Hin as (c & Hl & Hne & Hd & _).
        apply make_reference_made in Hm as [_ (Hn & _)].
        assert (q = p) as ->.
        { rewrite (dirname_basename q Hne), Hd. unfold p. congruence. }
        simpl in Hl. by rewrite lookup_delete_eq in Hl.
      * rewrite readReferences_eq in Hres. unfold bind in Hres.
        rewrite osWalk_run, Hdir in Hres. discriminate Hres.
Qed.

Definition ex_with_branch : world := (writeReference ex_odb ex_branch ex_created).1.

Lemma deleteHeadReference_removes_ref_witness :
  (w_fs ex_with_branch !! (refs_dir ex_odb ++ ["main"%string]) = None →
   (deleteHeadReference ex_odb ex_branch ex_with_branch).2
   = Err (SysError ENOENT (refs_dir ex_odb ++ ["main"%string])) ∧
   w_fs (deleteHeadReference ex_odb ex_branch ex_with_branch).1 = w_fs ex_with_branch) ∧
  ((deleteHeadReference ex_odb ex_branch ex_with_branch).2 = Ok tt →
   w_fs (deleteHeadReference ex_odb ex_branch ex_with_branch).1
   = delete (refs_dir ex_odb ++ ["main"%string]) (w_fs ex_with_branch) ∧
   w_fs (deleteHeadReference ex_odb ex_branch ex_with_branch).1 !! head_path ex_odb
   = w_fs ex_with_branch !! head_path ex_odb ∧
   ∀ refs r, (readReferences ex_odb (deleteHeadReference ex_odb ex_branch ex_with_branch).1).2
             = Ok refs →
             r ∈ refs → rr_refName r ≠ "main"%string).
Proof. exact (deleteHeadReference_removes_ref ex_odb ex_branch ex_with_branch eq_refl). Defined.

(** X15: writing a reference that was not there and deleting it again
    gives back the file system from before the write. *)
Theorem writeReference_deleteHeadReference (odb : Odb) (ref : Reference.t) (w w1 : world) :
  Reference.isDetached ref = false →
  plain_seg (Reference.getName ref) = true →
  w_fs w !! (refs_dir odb ++ [Reference.getName ref]) = None →
  writeReference odb ref w = (w1, Ok tt) →
  (deleteHeadReference odb ref w1).2 = Ok tt ∧
  w_fs (deleteHeadReference odb ref w1).1 = w_fs w.
Proof.
  intros Hdet Hplain Hnone Hwrite.
  destruct (writeReference_run odb ref w w1 Hdet Hwrite) as (h & _ & _ & _ & _ & Hfs).
  rewrite (ref_path_plain odb ref Hplain) in Hfs.
  rewrite (deleteHeadReference_run odb ref w1 Hplain).
  set (p := refs_dir odb ++ [Reference.getName ref]) in *.
  assert (fs_unlink p (w_fs w1) = Ok (w_fs w)) as ->.
  { unfold fs_unlink. rewrite Hfs, lookup_insert_eq.
    rewrite delete_insert_id by done.
    unfold p. by destruct (refs_dir odb ++ [Reference.getName ref]) eqn:E;
      [apply snoc_not_nil in E|]. }
  done.
Qed.

Lemma writeReference_deleteHeadReference_witness :
  (deleteHeadReference ex_odb ex_branch (writeReference ex_odb ex_branch ex_created).1).2
  = Ok tt ∧
  w_fs (deleteHeadReference ex_odb ex_branch (writeReference ex_odb ex_branch ex_created).1).1
  = w_fs ex_created.
Proof.
  refine (writeReference_deleteHeadReference ex_odb ex_branch ex_created
            (writeReference ex_odb ex_branch ex_created).1 eq_refl eq_refl _ _).
  - vm_compute. reflexivity.
  - vm_compute. reflexivity.
Defined.

(** * What [writeObject] leaves behind *)

(** A path outside the metadata directory differs from every path inside
    and has none of them as a prefix. *)
Lemma outside_not_under (odb : Odb) (x q : path) :
  odb_commondir odb `prefix_of` x → ¬ odb_commondir odb `prefix_of` q →
  q ≠ x ∧ ¬ x `prefix_of` q.
Proof.
  intros Hx Hq. split.
  - intros ->. by apply Hq.
  - intros Hxq. apply Hq. by etrans.
Qed.

Lemma tmp_path_under (odb : Odb) (name : string) :
  odb_commondir odb `prefix_of` tmp_path odb name.
Proof. unfold tmp_path, tmp_dir. rewrite <- app_assoc. by apply prefix_app_r. Qed.

Lemma object_path_under (odb : Odb) (h : string) :
  odb_commondir odb `prefix_of` object_path odb h.
Proof. unfold object_path, shard_dir. rewrite <- app_assoc. by apply prefix_app_r. Qed.

Lemma sidecar_path_under (odb : Odb) (h : string) :
  odb_commondir odb `prefix_of` sidecar_path odb h.
Proof. unfold sidecar_path, shard_dir. rewrite <- app_assoc. by apply prefix_app_r. Qed.

(** X17: the hash a successful [writeObject] returns addresses the
    object: something exists at [getObjectPath] of that hash, the path
    returned is the source relative to the working tree, and when the
    hasher produced hash blocks the file next to the object, with the
    suffix .hblock, holds one line [start;end;hash;] for each block, in
    order. *)
Theorem writeObject_result (sha256hex : string → string)
    (hasher : string → string * option (list HashBlock)) (deflate : string → string)
    (odb : Odb) (hrtime : string) (filepath : path) (content : string)
    (w w' : world) (r : path * string) :
  is_hash (sha256hex hrtime) = true →
  is_digest (hasher content).1 = true →
  fs_readFile (w_fs w) filepath = Ok content →
  writeObject sha256hex hasher deflate odb hrtime filepath posix_io w = (w', Ok r) →
  r = (relative (repoWorkDir (repo odb)) filepath, (hasher content).1) ∧
  fs_exists (w_fs w') (getObjectPath odb r.2) = true ∧
  ∀ blocks, (hasher content).2 = Some blocks →
            fs_readFile (w_fs w') (add_suffix (getObjectPath odb r.2) ".hblock")
            = Ok (join_with (String "010" EmptyString)
                    (map (λ b, print_Z (hb_start b) +:+ ";" +:+ print_Z (hb_end b) +:+ ";"
                                 +:+ hb_hash b +:+ ";") blocks)).
Proof.
  intros Hname Hdigest Hsrc Hrun.
  destruct (writeObject_inv sha256hex hasher deflate odb hrtime filepath content
              Hname Hdigest w w' r Hsrc Hrun)
    as (m1 & m2 & m3 & E1 & E2 & E3 & Hside & Hr & Hlog).
  split; [done|]. rewrite Hr. simpl snd.
  rewrite (getObjectPath_digest odb _ Hdigest).
  split.
  - destruct (fs_exists (w_fs w) (object_path odb (hasher content).1)) eqn:Hex.
    + destruct (writeObject_keeps_blob sha256hex hasher deflate odb hrtime filepath content
                  w w' r Hname Hdigest Hsrc Hex Hrun) as [_ Hl].
      by rewrite (fs_exists_lookup _ _ _ Hl).
    + destruct (writeObject_stores sha256hex hasher deflate odb hrtime filepath content
                  w w' r Hname Hdigest Hsrc Hex Hrun) as [_ Hl].
      by apply fs_exists_lookup_Some in Hl.
  - intros blocks Hb. rewrite Hb in Hside.
    unfold object_path. rewrite add_suffix_snoc.
    apply fs_writeFile_read in Hside. exact Hside.
Qed.

Lemma writeObject_result_witness :
  (["a.txt"%string], (toy_hasher "hello").1)
  = (relative (repoWorkDir (repo ex_odb)) ex_source, (toy_hasher "hello").1) ∧
  fs_exists (w_fs ex_world_stored) (getObjectPath ex_odb (toy_hasher "hello").1) = true ∧
  ∀ blocks, (toy_hasher "hello").2 = Some blocks →
            fs_readFile (w_fs ex_world_stored)
              (add_suffix (getObjectPath ex_odb (toy_hasher "hello").1) ".hblock")
            = Ok (join_with (String "010" EmptyString)
                    (map (λ b, print_Z (hb_start b) +:+ ";" +:+ print_Z (hb_end b) +:+ ";"
                                 +:+ hb_hash b +:+ ";") blocks)).
Proof.
  refine (writeObject_result toy_sha256hex toy_hasher toy_deflate ex_odb "1" ex_source "hello"
            ex_world ex_world_stored (["a.txt"%string], (toy_hasher "hello").1) _ _ _ _).
  - vm_compute. reflexivity.
  - vm_compute. reflexivity.
  - vm_compute. reflexivity.
  - vm_compute. reflexivity.
Defined.

(** * The layout [create] makes *)

(** X18: a [create] that goes through leaves the metadata directory with
    the directories objects, versions, hooks and refs and with the file
    config holding the default configuration; every file and directory
    that was there before is kept, and whatever else is new is a
    directory on the way to the metadata directory or inside it. *)
Theorem create_layout (repo : Repository) (opts : RepositoryInitOptions)
    (w w1 : world) (odb : Odb) :
  create repo opts w = (w1, Ok odb) →
  w_fs w1 !! commondir opts = Some Dir ∧
  (∀ d, d ∈ ["objects"; "versions"; "hooks"; "refs"]%string →
        w_fs w1 !! (commondir opts ++ [d]) = Some Dir) ∧
  w_fs w1 !! (commondir opts ++ ["config"%string]) = Some (File (stringify defaultConfig)) ∧
  (∀ q e, q ≠ commondir opts ++ ["config"%string] →
          w_fs w !! q = Some e → w_fs w1 !! q = Some e) ∧
  (∀ q e, q ≠ commondir opts ++ ["config"%string] →
          w_fs w !! q = None → w_fs w1 !! q = Some e →
          e = Dir ∧ (q `prefix_of` commondir opts ∨ commondir opts `prefix_of` q)).
Proof.
  intros Hcreate.
  apply create_inv in Hcreate
    as (_ & Hex & m1 & m2 & m3 & m4 & m5 & E1 & E2 & E3 & E4 & E5 & E6).
  apply fs_writeFile_inv in E6 as (Hw1 & _ & _ & _). rewrite Hw1.
  assert (commondir opts ≠ []) as Hne by (intros Heq; by rewrite Heq in Hex).
  assert (∀ q e, w_fs w !! q = Some e → m5 !! q = Some e) as Hkeep.
  { intros q e Hq.
    apply (fs_ensureDir_keeps _ _ _ _ _ E5), (fs_ensureDir_keeps _ _ _ _ _ E4),
      (fs_ensureDir_keeps _ _ _ _ _ E3), (fs_ensureDir_keeps _ _ _ _ _ E2),
      (fs_ensureDir_keeps _ _ _ _ _ E1), Hq. }
  assert (∀ d, commondir opts ++ [d] ≠ commondir opts) as Hsub by (intros d; apply snoc_not_self).
  split; [|split; [|split; [|split]]].
  - rewrite lookup_insert_ne by done.
    apply (fs_ensureDir_keeps _ _ _ _ _ E5), (fs_ensureDir_keeps _ _ _ _ _ E4),
      (fs_ensureDir_keeps _ _ _ _ _ E3), (fs_ensureDir_keeps _ _ _ _ _ E2).
    by apply (fs_ensureDir_makes _ _ _ E1).
  - intros d Hd.
    assert (d ≠ "config"%string) as Hdc.
    { intros ->. repeat (apply elem_of_cons in Hd as [Hd|Hd]; [discriminate Hd|]).
      by apply elem_of_nil in Hd. }
    rewrite lookup_insert_ne by (apply snoc_inj_ne; congruence).
    apply elem_of_cons in Hd as [->|Hd].
    { apply (fs_ensureDir_keeps _ _ _ _ _ E5), (fs_ensureDir_keeps _ _ _ _ _ E4),
        (fs_ensureDir_keeps _ _ _ _ _ E3).
      apply (fs_ensureDir_makes _ _ _ E2), snoc_not_nil. }
    apply elem_of_cons in Hd as [->|Hd].
    { apply (fs_ensureDir_keeps _ _ _ _ _ E5), (fs_ensureDir_keeps _ _ _ _ _ E4).
      apply (fs_ensureDir_makes _ _ _ E3), snoc_not_nil. }
    apply elem_of_cons in Hd as [->|Hd].
    { apply (fs_ensureDir_keeps _ _ _ _ _ E5).
      apply (fs_ensureDir_makes _ _ _ E4), snoc_not_nil. }
    apply elem_of_cons in Hd as [->|Hd]; [|by apply elem_of_nil in Hd].
    apply (fs_ensureDir_makes _ _ _ E5), snoc_not_nil.
  - by rewrite lookup_insert_eq.
  - intros q e Hq Hl. rewrite lookup_insert_ne by done. by apply Hkeep.
  - intros q e Hq Hl Hl1. rewrite lookup_insert_ne in Hl1 by done.
    assert (∀ p ma mb e', fs_ensureDir p ma = Ok mb → ma !! q = None → mb !! q = Some e' →
                          e' = Dir ∧ q `prefix_of` p) as Hadds.
    { intros p ma mb e' E Hn Hs.
      destruct (mkdirp_from_adds _ _ _ _ _ _ E Hn Hs) as [-> [k ->]].
      split; [done|]. apply prefix_take. }
    assert (∀ d, q `prefix_of` commondir opts ++ [d] →
                 q `prefix_of` commondir opts ∨ commondir opts `prefix_of` q) as Hpre.
    { intros d [k Hk]. destruct (decide (k = [])) as [->|Hkne].
      - right. rewrite app_nil_r in Hk. rewrite <- Hk. by apply prefix_app_r.
      - left. destruct (exists_last Hkne) as (k' & x & ->).
        rewrite app_assoc in Hk. apply app_inj_tail in Hk as [-> _].
        by apply prefix_app_r. }
    destruct (m1 !! q) as [e1|] eqn:Q1.
    { destruct (Hadds _ _ _ _ E1 Hl Q1) as [-> Hp].
      pose proof (Hkeep5 := fs_ensureDir_keeps _ _ _ _ _ E2 Q1).
      apply (fs_ensureDir_keeps _ _ _ _ _ E3) in Hkeep5.
      apply (fs_ensureDir_keeps _ _ _ _ _ E4) in Hkeep5.
      apply (fs_ensureDir_keeps _ _ _ _ _ E5) in Hkeep5.
      split; [congruence|by left]. }
    destruct (m2 !! q) as [e2|] eqn:Q2.
    { destruct (Hadds _ _ _ _ E2 Q1 Q2) as [-> Hp].
      pose proof (Hkeep5 := fs_ensureDir_keeps _ _ _ _ _ E3 Q2).
      apply (fs_ensureDir_keeps _ _ _ _ _ E4) in Hkeep5.
      apply (fs_ensureDir_keeps _ _ _ _ _ E5) in Hkeep5.
      split; [congruence|by eapply Hpre]. }
    destruct (m3 !! q) as [e3|] eqn:Q3.
    { destruct (Hadds _ _ _ _ E3 Q2 Q3) as [-> Hp].
      pose proof (Hkeep5 := fs_ensureDir_keeps _ _ _ _ _ E4 Q3).
      apply (fs_ensureDir_keeps _ _ _ _ _ E5) in Hkeep5.
      split; [congruence|by eapply Hpre]. }
    destruct (m4 !! q) as [e4|] eqn:Q4.
    { destruct (Hadds _ _ _ _ E4 Q3 Q4) as [-> Hp].
      pose proof (Hkeep5 := fs_ensureDir_keeps _ _ _ _ _ E5 Q4).
      split; [congruence|by eapply Hpre]. }
    destruct (Hadds _ _ _ _ E5 Q4 Hl1) as [-> Hp].
    split; [done|by eapply Hpre].
Qed.

Lemma create_layout_witness :
  w_fs ex_created !! commondir ex_options = Some Dir ∧
  (∀ d, d ∈ ["objects"; "versions"; "hooks"; "refs"]%string →
        w_fs ex_created !! (commondir ex_options ++ [d]) = Some Dir) ∧
  w_fs ex_created !! (commondir ex_options ++ ["config"%string])
  = Some (File (stringify defaultConfig)) ∧
  (∀ q e, q ≠ commondir ex_options ++ ["config"%string] →
          (∅ : fs) !! q = Some e → w_fs ex_created !! q = Some e) ∧
  (∀ q e, q ≠ commondir ex_options ++ ["config"%string] →
          (∅ : fs) !! q = None → w_fs ex_created !! q = Some e →
          e = Dir ∧ (q `prefix_of` commondir ex_options ∨ commondir ex_options `prefix_of` q)).
Proof.
  refine (create_layout ex_repo ex_options (World ∅ []) ex_created ex_odb _).
  vm_compute. reflexivity.
Defined.

(** * A store that cannot be read *)

Lemma JSON_parse_error (x : string) (e : error) :
  JSON_parse x = Err e → e = SyntaxError ∨ e = Unmodelled.
Proof.
  unfold JSON_parse. destruct (parse_value _ _) as [[v r]|].
  - destruct (skip_ws r); [discriminate|].
    destruct (valid_json x); intros [= <-]; auto.
  - destruct (valid_json x); intros [= <-]; auto.
Qed.

(** X11: [open] on a store without a configuration file rejects with the
    error of the read; on a configuration whose text is not JSON it
    rejects with a SyntaxError; on a configuration that is the JSON value
    null it rejects with a TypeError.  In each case the read of the
    configuration is the only call made. *)
Theorem open_unusable_config (repo : Repository) (w : world) :
  (w_fs w !! config_path repo = None →
   open repo w = (logged w (EvReadFile (config_path repo)),
                  Err (SysError ENOENT (config_path repo)))) ∧
  (∀ text, fs_readFile (w_fs w) (config_path repo) = Ok text →
           JSON_parse text = Err SyntaxError →
           open repo w = (logged w (EvReadFile (config_path repo)), Err SyntaxError)) ∧
  (∀ text, fs_readFile (w_fs w) (config_path repo) = Ok text →
           JSON_parse text = Ok JNull →
           open repo w = (logged w (EvReadFile (config_path repo)), Err TypeError)).
Proof.
  repeat split.
  - intros Hl. unfold open. rewrite config_path_join. unfold bind.
    rewrite readFile_run. unfold fs_readFile. rewrite Hl.
    unfold config_path. by destruct (Repository_commondir repo).
  - intros text Hread Hparse. unfold open. rewrite config_path_join. unfold bind.
    rewrite readFile_run, Hread. unfold lift. by rewrite Hparse.
  - intros text Hread Hparse. by rewrite (open_run _ _ _ _ Hread Hparse).
Qed.

Lemma result_map_fails_in {A B} (f : A → result B) (l : list A) (a : A) (e : error) :
  a ∈ l → f a = Err e → (∀ x e', x ∈ l → f x = Err e' → e' = e) →
  result_map f l = Err e.
Proof.
  intros Hin Ha Hall. induction l as [|x l IH]; [by apply elem_of_nil in Hin|].
  simpl. destruct (f x) as [b|e'] eqn:Ex.
  - apply elem_of_cons in Hin as [->|Hin]; [congruence|].
    rewrite IH; [done|done|]. intros y e' Hy. apply Hall. by right.
  - rewrite (Hall x e'); [done|by left|done].
Qed.

(** X12: one file in the versions directory whose text is not JSON makes
    [readCommits] reject with a SyntaxError: no commit is returned, not
    even those of the files that do parse.  (The other files are texts
    whose JSON values the model has terms for.) *)
Theorem readCommits_malformed_rejects (Date_convert : json → jsdate) (odb : Odb)
    (w : world) (p : path) (c : string) :
  fs_is_dir (w_fs w) (versions_dir odb) = true →
  w_fs w !! p = Some (File c) → dirname p = versions_dir odb →
  JSON_parse c = Err SyntaxError →
  (∀ p' c', w_fs w !! p' = Some (File c') → dirname p' = versions_dir odb →
            JSON_parse c' ≠ Err Unmodelled) →
  (readCommits Date_convert odb w).2 = Err SyntaxError.
Proof.
  intros Hdir Hl Hd Hparse Hmodel. rewrite readCommits_eq.
  set (w0 := logged w (EvWalk (versions_dir odb))).
  set (files := fs_files_in (versions_dir odb) (w_fs w)).
  rewrite (bind_run _ _ w w0 files) by (by rewrite osWalk_run, Hdir).
  pose proof (Promise_all_reads files w0) as [_ Hres].
  change (w_fs w0) with (w_fs w) in Hres.
  assert (p ≠ []) as Hne.
  { intros ->. unfold versions_dir in Hd. simpl in Hd. by destruct (odb_commondir odb). }
  rewrite (result_map_fails_in _ _ p SyntaxError) in Hres.
  - unfold bind. destruct (Promise_all (map read_parse files) w0) as [w1 r].
    simpl in Hres. by subst r.
  - apply elem_of_fs_files_in. by exists c.
  - unfold parsed. by rewrite (fs_readFile_lookup _ _ _ Hne Hl).
  - intros x e' Hx He. apply elem_of_fs_files_in in Hx as (cx & Hlx & Hnx & Hdx).
    unfold parsed in He. rewrite (fs_readFile_lookup _ _ _ Hnx Hlx) in He.
    destruct (JSON_parse_error _ _ He) as [->| ->]; [done|].
    by destruct (Hmodel x cx Hlx Hdx).
Qed.

Definition ex_broken_versions : world :=
  World (<[versions_dir ex_odb ++ ["broken"%string] := File "{"]>
           (w_fs (writeCommit ex_odb (ex_commit ["a11ce"%string] None) ex_created).1)) [].

Lemma readCommits_malformed_rejects_witness :
  (readCommits no_date ex_odb ex_broken_versions).2 = Err SyntaxError.
Proof.
  refine (readCommits_malformed_rejects no_date ex_odb ex_broken_versions
            (versions_dir ex_odb ++ ["broken"%string]) "{" _ _ _ _ _).
  - vm_compute. reflexivity.
  - vm_compute. reflexivity.
  - vm_compute. reflexivity.
  - vm_compute. reflexivity.
  - intros p' c' Hl Hd.
    assert ((p', File c') ∈ map_to_list (w_fs ex_broken_versions)) as Hin
      by (by apply elem_of_map_to_list).
    vm_compute in Hin.
    repeat (apply elem_of_cons in Hin as [Hin|Hin];
            [inversion Hin; subst; try discriminate Hd;
             vm_compute; intros H; discriminate H|]).
    by apply elem_of_nil in Hin.
Defined.

(** * The references of a store, one for each file *)

Lemma NoDup_omap_fst {A B} (f : A * B → option A) (l : list (A * B)) :
  (∀ kv a, f kv = Some a → a = kv.1) → NoDup l.*1 → NoDup (omap f l).
Proof.
  intros Hf. induction l as [|x l IH]; intros Hnd; simpl; [constructor|].
  rewrite fmap_cons in Hnd. apply NoDup_cons in Hnd as [Hx Hnd].
  destruct (f x) as [a|] eqn:E; [|by apply IH].
  apply NoDup_cons. split; [|by apply IH].
  intros Hin. apply list_elem_of_omap in Hin as (y & Hy & Hfy).
  apply Hf in E, Hfy. subst. apply Hx.
  rewrite Hfy. by apply list_elem_of_fmap_2.
Qed.

Lemma NoDup_fs_files_in (d : path) (m : fs) : NoDup (fs_files_in d m).
Proof.
  unfold fs_files_in. apply NoDup_omap_fst; [|apply NoDup_fst_map_to_list].
  intros [k e] a. simpl. destruct e as [c|]; [|discriminate].
  destruct (decide _); [|discriminate]. by intros [= <-].
Qed.

Lemma NoDup_entries (d : path) (m : fs) : NoDup (entries d m).*1.
Proof.
  unfold entries. pose proof (NoDup_fs_files_in d m) as Hnd.
  induction (fs_files_in d m) as [|p l IH]; [constructor|].
  apply NoDup_cons in Hnd as [Hp Hnd]. simpl.
  destruct (fs_readFile m p) as [c|e]; [|by apply IH].
  destruct (JSON_parse c) as [v|e]; [|by apply IH].
  simpl. apply NoDup_cons. split; [|by apply IH].
  intros Hin. apply list_elem_of_fmap in Hin as ([q v'] & Hq & Hin). simpl in Hq. subst q.
  apply list_elem_of_omap in Hin as (o & Ho & Hid). simpl in Hid. subst o.
  apply list_elem_of_fmap in Ho as (q & Hq & Hin).
  destruct (fs_readFile m q) as [c'|]; [|discriminate Hq].
  destruct (JSON_parse c') as [v''|]; [|discriminate Hq].
  inversion Hq; subst. done.
Qed.

(** X7: on a refs directory whose files the model reads exactly (see
    [within_model]) and of which none holds the JSON value null,
    [readReferences] returns one reference for each file whose text
    parses, and no other: the references are, in the order of the walk,
    the files that parse, each file once; a reference is named after its
    file and carries the hash and the start of the record as they are,
    and its user data or else the empty object.  A file whose text is not
    JSON is skipped, and the file system is left as it was. *)
Theorem readReferences_lists (odb : Odb) (w : world) :
  fs_is_dir (w_fs w) (refs_dir odb) = true →
  (∀ p c, w_fs w !! p = Some (File c) → dirname p = refs_dir odb →
          within_model c = true ∧ JSON_parse c ≠ Ok JNull) →
  ∃ (refs : list RReference) (files : list (path * json)),
    (readReferences odb w).2 = Ok refs ∧
    w_fs (readReferences odb w).1 = w_fs w ∧
    NoDup files.*1 ∧
    (∀ p v, (p, v) ∈ files ↔
            ∃ c, w_fs w !! p = Some (File c) ∧ dirname p = refs_dir odb ∧
                 JSON_parse c = Ok v) ∧
    Forall2 (λ (pv : path * json) (r : RReference),
               rr_refName r = basename pv.1 ∧ rr_repo r = repo odb ∧
               get_prop pv.2 "hash" = Ok (rr_hash r) ∧
               get_prop pv.2 "start" = Ok (rr_start r) ∧
               ∃ u, get_prop pv.2 "userData" = Ok u ∧
                    rr_userData r = Reference.nullish_or u (JObj []))
            files refs.
Proof.
  intros Hdir Hfiles. destruct (readReferences_run odb w Hdir) as [Hfs Hres].
  set (files := entries (refs_dir odb) (w_fs w)) in *.
  destruct (result_map_total (make_reference odb) files) as (refs & Hrefs & HF).
  { intros [p v] Hin. apply elem_of_entries in Hin as (c & Hl & Hne & Hd & Hv).
    destruct (make_reference_ok odb p v) as (h & s & u & _ & _ & _ & Hm); [|eauto].
    intros ->. by apply (Hfiles p c Hl Hd). }
  exists refs, files. rewrite Hres. split; [done|]. split; [done|].
  split; [apply NoDup_entries|]. split.
  - intros p v. unfold files. rewrite elem_of_entries. split.
    + intros (c & Hl & _ & Hd & Hv). by exists c.
    + intros (c & Hl & Hd & Hv). exists c. repeat split; try done.
      by apply (in_refs_not_nil odb).
  - eapply Forall2_impl; [exact HF|]. intros [p v] r Hm.
    by apply make_reference_made in Hm as [_ Hm].
Qed.

Lemma readReferences_lists_witness :
  ∃ (refs : list RReference) (files : list (path * json)),
    (readReferences ex_odb ex_refs_world).2 = Ok refs ∧
    w_fs (readReferences ex_odb ex_refs_world).1 = w_fs ex_refs_world ∧
    NoDup files.*1 ∧
    (∀ p v, (p, v) ∈ files ↔
            ∃ c, w_fs ex_refs_world !! p = Some (File c) ∧ dirname p = refs_dir ex_odb ∧
                 JSON_parse c = Ok v) ∧
    Forall2 (λ (pv : path * json) (r : RReference),
               rr_refName r = basename pv.1 ∧ rr_repo r = repo ex_odb ∧
               get_prop pv.2 "hash" = Ok (rr_hash r) ∧
               get_prop pv.2 "start" = Ok (rr_start r) ∧
               ∃ u, get_prop pv.2 "userData" = Ok u ∧
                    rr_userData r = Reference.nullish_or u (JObj []))
            files refs.
Proof.
  refine (readReferences_lists ex_odb ex_refs_world _ _).
  - vm_compute. reflexivity.
  - intros p c Hl Hd.
    assert ((p, File c) ∈ map_to_list (w_fs ex_refs_world)) as Hin
      by (by apply elem_of_map_to_list).
    vm_compute in Hin.
    repeat (apply elem_of_cons in Hin as [Hin|Hin];
            [inversion Hin; subst; try discriminate Hd;
             (split; [vm_compute; reflexivity|vm_compute; intros H; discriminate H])|]).
    by apply elem_of_nil in Hin.
Defined.

(** X9: a reference written by [writeReference] under a name that is a
    single path segment comes back from [readReferences] once: the list
    read holds, at one place and nowhere else, a reference of that name,
    and this reference carries the hash, the start when the reference
    has a non-empty one, and the user data or else the empty object. *)
Theorem writeReference_readReferences (odb : Odb) (ref : Reference.t) (w w1 : world) :
  Reference.isDetached ref = false →
  plain_seg (Reference.getName ref) = true →
  writeReference odb ref w = (w1, Ok tt) →
  (∀ p c, p ≠ refs_dir odb ++ [Reference.getName ref] →
          w_fs w !! p = Some (File c) → dirname p = refs_dir odb →
          JSON_parse c ≠ Ok JNull) →
  ∃ (before after : list RReference) (r : RReference),
    (readReferences odb w1).2 = Ok (before ++ r :: after) ∧
    (∀ r', r' ∈ before ++ after → rr_refName r' ≠ Reference.getName ref) ∧
    rr_refName r = Reference.getName ref ∧
    rr_repo r = repo odb ∧
    rr_hash r = option_map JStr (Reference.hash ref) ∧
    rr_start r = match Reference.start ref with
                 | Some s => if String.eqb s EmptyString then None else Some (JStr s)
                 | None => None
                 end ∧
    rr_userData r = Reference.nullish_or (Reference.userData ref) (JObj []).
Proof.
  intros Hdet Hplain Hwrite Hothers.
  destruct (writeReference_run odb ref w w1 Hdet Hwrite) as (h & Hh & Hne & Hp & Hdir & Hfs).
  rewrite (ref_path_plain odb ref Hplain) in *.
  rewrite dirname_snoc in Hdir.
  set (dst := refs_dir odb ++ [Reference.getName ref]) in *.
  set (body := reference_json ref h) in *.
  destruct (reference_json_props ref h) as (Hjh & Hjs & Hju). fold body in Hjh, Hjs, Hju.
  assert (body ≠ JNull) as Hbody by done.
  clearbody body.
  assert (fs_is_dir (w_fs w1) (refs_dir odb) = true) as Hdir1.
  { rewrite Hfs. unfold refs_dir in *. apply fs_is_dir_lookup in Hdir.
    unfold fs_is_dir. destruct (odb_commondir odb ++ ["refs"%string]) eqn:E; [done|].
    rewrite lookup_insert_ne; [by rewrite Hdir|].
    unfold dst. rewrite <- E. apply snoc_not_self. }
  destruct (readReferences_run odb w1 Hdir1) as [_ Hres].
  set (files := entries (refs_dir odb) (w_fs w1)) in *.
  assert (∀ p v, (p, v) ∈ files → v ≠ JNull) as Hnonnull.
  { intros p v Hin. apply elem_of_entries in Hin as (c & Hl & _ & Hd & Hv).
    rewrite Hfs in Hl. destruct (decide (p = dst)) as [->|Hpd].
    - rewrite lookup_insert_eq in Hl. inversion Hl; subst c.
      rewrite JSON_parse_stringify in Hv. congruence.
    - rewrite lookup_insert_ne in Hl by done. intros ->. by apply (Hothers p c). }
  destruct (result_map_total (make_reference odb) files) as (refs & Hrefs & HF).
  { intros [p v] Hin.
    destruct (make_reference_ok odb p v) as (? & ? & ? & _ & _ & _ & Hm); [|eauto].
    by apply (Hnonnull p). }
  assert ((dst, body) ∈ files) as Hin.
  { apply elem_of_entries. exists (stringify body).
    split; [rewrite Hfs; by rewrite lookup_insert_eq|].
    split; [done|]. split; [unfold dst; by rewrite dirname_snoc|].
    apply JSON_parse_stringify. }
  pose proof (NoDup_entries (refs_dir odb) (w_fs w1)) as Hnd. fold files in Hnd.
  apply list_elem_of_split in Hin as (f1 & f2 & Hsplit).
  rewrite Hsplit in HF, Hnd.
  apply Forall2_app_inv_l in HF as (before & rest & HF1 & HF2 & ->).
  apply Forall2_cons_inv_l in HF2 as (r & after & Hr & HF2 & ->).
  apply make_reference_made in Hr as [_ (Hn & Hrepo & Hrh & Hrs & u & Hru & Hrud)].
  simpl in Hn, Hrh, Hrs, Hru.
  exists before, after, r. rewrite Hres, Hrefs. split; [done|]. split.
  { intros r' Hr' Hname.
    assert (∃ p v, (p, v) ∈ f1 ++ f2 ∧ make_reference odb (p, v) = Ok r')
      as (p & v & Hpv & Hm).
    { apply elem_of_app in Hr' as [Hr'|Hr'].
      - destruct (Forall2_elem_r _ _ _ _ HF1 Hr') as ([p v] & ? & ?).
        exists p, v. split; [apply elem_of_app; by left|done].
      - destruct (Forall2_elem_r _ _ _ _ HF2 Hr') as ([p v] & ? & ?).
        exists p, v. split; [apply elem_of_app; by right|done]. }
    apply make_reference_made in Hm as [_ (Hn' & _)]. simpl in Hn'.
    assert ((p, v) ∈ files) as Hfile.
    { rewrite Hsplit. apply elem_of_app in Hpv as [?|?]; apply elem_of_app;
        [by left|right; by right]. }
    apply elem_of_entries in Hfile as (c & _ & Hpne & Hd & _).
    assert (p = dst) as ->.
    { rewrite (dirname_basename p Hpne), Hd. unfold dst. congruence. }
    rewrite fmap_app, fmap_cons in Hnd. simpl in Hnd.
    apply NoDup_app in Hnd as (_ & Hdisj & Hnd2).
    apply NoDup_cons in Hnd2 as [Hnot2 _].
    apply elem_of_app in Hpv as [Hpv|Hpv].
    - apply (Hdisj dst); [by apply (list_elem_of_fmap_2 fst _ (dst, v))|by left].
    - apply Hnot2. by apply (list_elem_of_fmap_2 fst _ (dst, v)). }
  split; [rewrite Hn; unfold dst; by rewrite basename_snoc|].
  split; [done|].
  split; [rewrite Hh; simpl; congruence|].
  split; [congruence|].
  rewrite Hrud. assert (u = Some (Reference.nullish_or (Reference.userData ref) (JObj [])))
    as -> by congruence.
  by apply nullish_or_idem.
Qed.

Lemma writeReference_readReferences_witness :
  ∃ (before after : list RReference) (r : RReference),
    (readReferences ex_odb (writeReference ex_odb ex_branch ex_created).1).2
    = Ok (before ++ r :: after) ∧
    (∀ r', r' ∈ before ++ after → rr_refName r' ≠ "main"%string) ∧
    rr_refName r = "main"%string ∧
    rr_repo r = ex_repo ∧
    rr_hash r = Some (JStr "c0ffee") ∧
    rr_start r = None ∧
    rr_userData r = JObj [].
Proof.
  refine (writeReference_readReferences ex_odb ex_branch ex_created
            (writeReference ex_odb ex_branch ex_created).1 eq_refl eq_refl _ _).
  - vm_compute. reflexivity.
  - intros p c _ Hl Hd. exfalso. exact (no_files_after_create _ _ _ Hl Hd).
Defined.

(** * What [writeObject] leaves outside the store *)

(** Between two states of the file system, outside the metadata
    directory: every path is as it was, or was missing and is now a
    directory on the way to the metadata directory. *)
Definition outside_kept (odb : Odb) (m m' : fs) : Prop :=
  ∀ q, ¬ odb_commondir odb `prefix_of` q →
       m' !! q = m !! q ∨
       (m !! q = None ∧ m' !! q = Some Dir ∧ q `prefix_of` odb_commondir odb).

Lemma outside_kept_refl (odb : Odb) (m : fs) : outside_kept odb m m.
Proof. intros q _. by left. Qed.

Lemma outside_kept_trans (odb : Odb) (m1 m2 m3 : fs) :
  outside_kept odb m1 m2 → outside_kept odb m2 m3 → outside_kept odb m1 m3.
Proof.
  intros H12 H23 q Hq. destruct (H12 q Hq) as [E12|(N1 & D2 & P)];
    destruct (H23 q Hq) as [E23|(N2 & D3 & P')].
  - left. congruence.
  - right. split; [congruence|done].
  - right. split; [done|]. split; [congruence|done].
  - congruence.
Qed.

Lemma outside_kept_ensureDir (odb : Odb) (p : path) (m m' : fs) :
  odb_commondir odb `prefix_of` p → fs_ensureDir p m = Ok m' → outside_kept odb m m'.
Proof.
  intros Hp H q Hq. destruct (m !! q) as [e|] eqn:E.
  - left. by apply (fs_ensureDir_keeps _ _ _ _ _ H).
  - destruct (m' !! q) as [e|] eqn:E'; [|by left]. right.
    destruct (mkdirp_from_adds _ _ _ _ _ _ H E E') as [-> [k Hk]]. simpl in Hk.
    split; [done|]. split; [done|].
    assert (q `prefix_of` p) as Hqp by (rewrite Hk; apply prefix_take).
    destruct (prefix_weak_total _ _ _ Hqp Hp) as [?|?]; [done|by destruct Hq].
Qed.

Lemma outside_kept_insert (odb : Odb) (x : path) (e : entry) (m : fs) :
  odb_commondir odb `prefix_of` x → outside_kept odb m (<[x := e]> m).
Proof.
  intros Hx q Hq. left. apply lookup_insert_ne. intros ->. by apply Hq.
Qed.

Lemma outside_kept_delete (odb : Odb) (x : path) (m : fs) :
  odb_commondir odb `prefix_of` x → outside_kept odb m (delete x m).
Proof.
  intros Hx q Hq. left. apply lookup_delete_ne. intros ->. by apply Hq.
Qed.

Lemma outside_kept_remove (odb : Odb) (x : path) (m : fs) :
  odb_commondir odb `prefix_of` x → outside_kept odb m (fs_remove x m).
Proof.
  intros Hx q Hq. left. apply fs_remove_lookup_other.
  by apply (outside_not_under odb x q).
Qed.

Lemma shard_dir_under (odb : Odb) (h : string) :
  odb_commondir odb `prefix_of` dirname (object_path odb h).
Proof.
  unfold object_path. rewrite dirname_snoc. unfold shard_dir. by apply prefix_app_r.
Qed.

(** The step that places or discards the temporary copy removes it and
    keeps what is outside the metadata directory. *)
Lemma transfer_tidy (deflate : string → string) (odb : Odb) (name h content : string)
    (m2 m3 : fs) :
  transfer deflate odb (tmp_path odb name) (object_path odb h) m2 = Ok m3 →
  fs_readFile m2 (tmp_path odb name) = Ok content →
  tmp_path odb name ≠ object_path odb h →
  m3 !! tmp_path odb name = None ∧ outside_kept odb m2 m3.
Proof.
  pose proof (tmp_path_under odb name) as Htu.
  pose proof (object_path_under odb h) as Hdu.
  pose proof (shard_dir_under odb h) as Hsu.
  set (tmp := tmp_path odb name) in *. set (dst := object_path odb h) in *.
  intros H Htmp Hne. unfold transfer in H.
  destruct (fs_exists m2 dst).
  - inversion H; subst m3. split.
    + by apply fs_remove_lookup_under.
    + exact (outside_kept_remove odb tmp _ Htu).
  - destruct (compress (options (repo odb))).
    + unfold fs_zipFile in H. rewrite Htmp in H.
      destruct (fs_ensureDir (dirname dst) m2) as [ma|e] eqn:Ea; [|discriminate H].
      destruct (fs_writeFile dst (deflate content) ma) as [mb|e] eqn:Eb; [|discriminate H].
      apply fs_writeFile_inv in Eb as (-> & _). apply fs_unlink_inv in H as ->.
      split; [apply lookup_delete_eq|].
      apply (outside_kept_trans odb _ ma); [exact (outside_kept_ensureDir odb _ _ _ Hsu Ea)|].
      apply (outside_kept_trans odb _ (<[dst := File (deflate content)]> ma));
        [exact (outside_kept_insert odb dst _ ma Hdu)|].
      exact (outside_kept_delete odb tmp _ Htu).
    + unfold fs_move in H. destruct (decide (tmp = dst)); [done|].
      unfold fs_readFile in Htmp.
      destruct tmp as [|s t] eqn:Et; [discriminate H|].
      destruct (m2 !! (s :: t)) as [[c|]|]; try discriminate Htmp.
      destruct (fs_ensureDir (dirname dst) m2) as [ma|e] eqn:Ea; [|discriminate H].
      inversion H; subst m3. split.
      * rewrite lookup_insert_ne by done. apply lookup_delete_eq.
      * apply (outside_kept_trans odb _ ma); [exact (outside_kept_ensureDir odb _ _ _ Hsu Ea)|].
        apply (outside_kept_trans odb _ (fs_remove dst ma));
          [exact (outside_kept_remove odb dst ma Hdu)|].
        apply (outside_kept_trans odb _ (delete (s :: t) (fs_remove dst ma)));
          [exact (outside_kept_delete odb (s :: t) _ Htu)|].
        exact (outside_kept_insert odb dst _ _ Hdu).
Qed.

(** X16: a successful [writeObject] leaves no temporary copy behind,
    whether the content was new or already stored.  Outside the metadata
    directory every file and directory is as it was, and nothing appears
    but, where they were missing, the directories on the way to the
    metadata directory; the source file, when it lies outside, still
    holds its content. *)
Theorem writeObject_tidy (sha256hex : string → string)
    (hasher : string → string * option (list HashBlock)) (deflate : string → string)
    (odb : Odb) (hrtime : string) (filepath : path) (content : string)
    (w w' : world) (r : path * string) :
  is_hash (sha256hex hrtime) = true →
  is_digest (hasher content).1 = true →
  fs_readFile (w_fs w) filepath = Ok content →
  writeObject sha256hex hasher deflate odb hrtime filepath posix_io w = (w', Ok r) →
  w_fs w' !! (odb_commondir odb ++ ["tmp"%string; sha256hex hrtime]) = None ∧
  (∀ q, ¬ odb_commondir odb `prefix_of` q →
        w_fs w' !! q = w_fs w !! q ∨
        (w_fs w !! q = None ∧ w_fs w' !! q = Some Dir ∧ q `prefix_of` odb_commondir odb)) ∧
  (¬ odb_commondir odb `prefix_of` filepath → fs_readFile (w_fs w') filepath = Ok content).
Proof.
  intros Hname Hdigest Hsrc Hrun.
  destruct (writeObject_inv sha256hex hasher deflate odb hrtime filepath content
              Hname Hdigest w w' r Hsrc Hrun)
    as (m1 & m2 & m3 & E1 & E2 & E3 & Hside & -> & Hlog).
  set (h := (hasher content).1) in *. set (tmp := tmp_path odb (sha256hex hrtime)) in *.
  assert (odb_commondir odb ++ ["tmp"%string; sha256hex hrtime] = tmp) as ->
    by (unfold tmp, tmp_path, tmp_dir; by rewrite <- app_assoc).
  assert (fs_readFile m2 tmp = Ok content) as Htmp.
  { pose proof E2 as E. apply fs_writeFile_inv in E as (-> & Hne & _).
    rewrite fs_readFile_insert by done. by rewrite decide_True. }
  assert (tmp ≠ object_path odb h) as Hto.
  { intros Heq. apply (tmp_not_prefix_of_objects odb (sha256hex hrtime)
                         (object_path odb h) (object_path_under_objects odb h)).
    fold tmp. by rewrite Heq. }
  destruct (transfer_tidy deflate odb _ _ _ _ _ E3 Htmp Hto) as [Hgone Hkeep3].
  assert (w_fs w' !! tmp = None ∧ outside_kept odb m3 (w_fs w')) as [Hgone' Hkeep4].
  { destruct (hasher content).2 as [bl|].
    - apply fs_writeFile_inv in Hside as (-> & _). split.
      + rewrite lookup_insert_ne; [done|]. intros Heq.
        apply (tmp_not_prefix_of_objects odb (sha256hex hrtime)
                 (sidecar_path odb h) (sidecar_path_under_objects odb h)).
        fold tmp. by rewrite <- Heq.
      + apply outside_kept_insert, sidecar_path_under.
    - rewrite Hside. split; [done|apply outside_kept_refl]. }
  assert (outside_kept odb (w_fs w) (w_fs w')) as Hkeep.
  { eapply outside_kept_trans; [|exact Hkeep4].
    eapply outside_kept_trans; [|exact Hkeep3].
    eapply outside_kept_trans.
    - eapply outside_kept_ensureDir; [|exact E1]. unfold tmp_dir. by apply prefix_app_r.
    - apply fs_writeFile_inv in E2 as (-> & _).
      apply outside_kept_insert, tmp_path_under. }
  split; [done|]. split; [exact Hkeep|].
  intros Hout. unfold fs_readFile in *. destruct filepath as [|s p]; [done|].
  destruct (w_fs w !! (s :: p)) as [[c|]|] eqn:E; try discriminate Hsrc.
  destruct (Hkeep _ Hout) as [Heq|(Hnone & _)]; [|congruence].
  by rewrite Heq, E.
Qed.

Lemma writeObject_tidy_witness :
  w_fs ex_world_stored !! (odb_commondir ex_odb ++ ["tmp"%string; toy_sha256hex "1"]) = None ∧
  (∀ q, ¬ odb_commondir ex_odb `prefix_of` q →
        w_fs ex_world_stored !! q = w_fs ex_world !! q ∨
        (w_fs ex_world !! q = None ∧ w_fs ex_world_stored !! q = Some Dir ∧
         q `prefix_of` odb_commondir ex_odb)) ∧
  (¬ odb_commondir ex_odb `prefix_of` ex_source →
   fs_readFile (w_fs ex_world_stored) ex_source = Ok "hello"%string).
Proof.
  refine (writeObject_tidy toy_sha256hex toy_hasher toy_deflate ex_odb "1" ex_source "hello"
            ex_world ex_world_stored (["a.txt"%string], (toy_hasher "hello").1) _ _ _ _).
  - vm_compute. reflexivity.
  - vm_compute. reflexivity.
  - vm_compute. reflexivity.
  - vm_compute. reflexivity.
Defined.

(** * [create], then [open] *)

Lemma open_on_record (repo : Repository) (w : world) (cfg : json) :
  fs_readFile (w_fs w) (config_path repo) = Ok (stringify cfg) →
  cfg ≠ JNull → stored_version cfg ≠ Some 1 →
  open repo w = (logged w (EvReadFile (config_path repo)),
                 Ok {| config := Some cfg; repo := repo |}).
Proof.
  intros Hread Hnull Hv.
  rewrite (open_run repo w _ cfg Hread (JSON_parse_stringify cfg)).
  f_equal. destruct cfg as [| b | n | s | l | ps]; simpl; try done.
  simpl in Hv.
  destruct (lookup_prop "version" ps) as [[| b | n | s | l | ps']|]; simpl; try done.
  destruct n as [|[p|p|]|]; simpl; try done.
Qed.

(** C10: [create] for a repository, called with the options of that
    repository, and then [open].  The file config of the store holds the
    text of the default configuration, whose version is 2; [open] makes
    one call, the read of that file, succeeds, and returns the handle
    [create] returned, which holds that configuration.  What [open]
    returns is what the file holds: with another record written to the
    file of the store, [open] returns that record. *)
Theorem create_then_open (repo : Repository) (w w1 : world) (odb : Odb) :
  create repo (options repo) w = (w1, Ok odb) →
  fs_readFile (w_fs w1) (config_path repo) = Ok (stringify defaultConfig) ∧
  JSON_parse (stringify defaultConfig) = Ok defaultConfig ∧
  stored_version defaultConfig = Some 2 ∧
  open repo w1 = (logged w1 (EvReadFile (config_path repo)), Ok odb) ∧
  config odb = Some defaultConfig ∧
  (∀ cfg, cfg ≠ JNull → stored_version cfg ≠ Some 1 →
     let w2 := (fse.writeFile (config_path repo) (stringify cfg) w1).1 in
     fs_readFile (w_fs w2) (config_path repo) = Ok (stringify cfg) ∧
     open repo w2 = (logged w2 (EvReadFile (config_path repo)),
                     Ok {| config := Some cfg; repo := repo |})).
Proof.
  intros Hcreate.
  apply create_inv in Hcreate
    as (-> & Hex & m1 & m2 & m3 & m4 & m5 & E1 & E2 & E3 & E4 & E5 & E6).
  change (commondir (options repo) ++ ["config"%string]) with (config_path repo) in E6.
  pose proof (fs_writeFile_read _ _ _ _ E6) as Hread.
  split; [exact Hread|]. split; [apply JSON_parse_stringify|]. split; [reflexivity|].
  split; [by apply open_on_record|]. split; [reflexivity|].
  intros cfg Hnull Hv w2.
  assert (fs_writeFile (config_path repo) (stringify cfg) (w_fs w1)
          = Ok (<[config_path repo := File (stringify cfg)]> (w_fs w1))) as Hw.
  { apply fs_writeFile_inv in E6 as (Hw1 & Hp & _ & _).
    apply fs_writeFile_ok; [done| |].
    - rewrite Hw1, lookup_insert_eq. discriminate.
    - unfold config_path. rewrite dirname_snoc.
      assert (commondir (options repo) ≠ []) as Hne
        by (intros Heq; by rewrite Heq in Hex).
      assert (w_fs w1 !! commondir (options repo) = Some Dir) as Hdir.
      { rewrite Hw1, lookup_insert_ne by apply snoc_not_self.
        apply (fs_ensureDir_keeps _ _ _ _ _ E5), (fs_ensureDir_keeps _ _ _ _ _ E4),
          (fs_ensureDir_keeps _ _ _ _ _ E3), (fs_ensureDir_keeps _ _ _ _ _ E2).
        by apply (fs_ensureDir_makes _ _ _ E1). }
      unfold Repository_commondir, fs_is_dir. rewrite Hdir.
      by destruct (commondir (options repo)). }
  assert (fs_readFile (w_fs w2) (config_path repo) = Ok (stringify cfg)) as Hread2.
  { unfold w2. rewrite writeFile_run, Hw. simpl.
    apply fs_readFile_lookup; [|by rewrite lookup_insert_eq].
    unfold config_path. apply snoc_not_nil. }
  split; [exact Hread2|]. by apply open_on_record.
Qed.

Lemma create_then_open_witness :
  fs_readFile (w_fs ex_created) (config_path ex_repo) = Ok (stringify defaultConfig) ∧
  JSON_parse (stringify defaultConfig) = Ok defaultConfig ∧
  stored_version defaultConfig = Some 2 ∧
  open ex_repo ex_created = (logged ex_created (EvReadFile (config_path ex_repo)), Ok ex_odb) ∧
  config ex_odb = Some defaultConfig ∧
  (∀ cfg, cfg ≠ JNull → stored_version cfg ≠ Some 1 →
     let w2 := (fse.writeFile (config_path ex_repo) (stringify cfg) ex_created).1 in
     fs_readFile (w_fs w2) (config_path ex_repo) = Ok (stringify cfg) ∧
     open ex_repo w2 = (logged w2 (EvReadFile (config_path ex_repo)),
                        Ok {| config := Some cfg; repo := ex_repo |})).
Proof.
  refine (create_then_open ex_repo (World ∅ []) ex_created ex_odb _).
  vm_compute. reflexivity.
Defined.
